(** * console-etl: the catalog cache and its query handlers

    A shallow embedding of [cachingClient.getCatalogFS], [writeCatalog] and the
    HTTP handlers that read through the resulting view, together with the
    properties of the disk-backed cache.

    The operating system, the HTTP transport, the catalog decoder and the
    expirable LRU are collaborators of the program.  They are represented by
    small executable models (a flat file tree with symbolic links, an oracle
    for the remote source and for I/O faults, a list-based LRU) so that every
    function of the program can be run on concrete inputs. *)

From Stdlib Require Import ZArith String Ascii List Lia.
From stdpp Require Import gmap strings list sorting pretty.

Local Open Scope Z_scope.

(** ** Bytes, paths, errors *)

Abbreviation bytes := (list Byte.byte).

Global Instance byte_eq_dec : EqDecision Byte.byte := Byte.byte_eq_dec.

(** A path is the list of its elements below the working directory; the
    empty list is the working directory itself.  Paths held in this form are
    always lexically clean. *)
Abbreviation path := (list string).

(** Seconds since the Unix epoch, UTC. *)
Abbreviation Time := Z.

Inductive error :=
  | ENOENT | ENOTDIR | EISDIR | EEXIST | ELOOP | ENOTSUP | EIO | EACCES
  | ErrInvalid
  | ErrTransport
  | ErrParseTime
  | ErrDecode
  | ErrUnmarshal.

Global Instance error_eq_dec : EqDecision error.
Proof. solve_decision. Defined.

(** [strings.TrimSuffix]. *)
Fixpoint stripPrefix (p s : string) : option string :=
  match p, s with
  | EmptyString, _ => Some s
  | String a p', String b s' =>
      if bool_decide (a = b) then stripPrefix p' s' else None
  | String _ _, EmptyString => None
  end.

Definition TrimSuffix (s suffix : string) : string :=
  match stripPrefix (String.rev suffix) (String.rev s) with
  | Some r => String.rev r
  | None => s
  end.

(** ** [path/filepath] *)

Module filepath.

(** [strings.Split(s, "/")], written with an accumulator for the element
    being read. *)
Fixpoint splitSlash_go (cur : string) (s : string) : list string :=
  match s with
  | EmptyString => [String.rev cur]
  | String c s' =>
      if bool_decide (c = "/"%char)
      then String.rev cur :: splitSlash_go EmptyString s'
      else splitSlash_go (String c cur) s'
  end.

Definition splitSlash (s : string) : list string :=
  splitSlash_go EmptyString s.

(** One step of [Clean]: empty and [.] elements vanish, [..] cancels the
    element before it (and is kept when there is none, as for a relative
    path). *)
Definition cleanStep (acc : path) (seg : string) : path :=
  if bool_decide (seg = "") then acc
  else if bool_decide (seg = ".") then acc
  else if bool_decide (seg = "..") then
    match last acc with
    | None => acc ++ [seg]
    | Some l =>
        if bool_decide (l = "..") then acc ++ [seg] else removelast acc
    end
  else acc ++ [seg].

(** [Join(base, elems...)] for an already clean [base]. *)
Definition Join (base : path) (elems : list string) : path :=
  fold_left cleanStep (flat_map splitSlash elems) base.

(** [Dir] and [Base] of a clean path. *)
Definition Dir (p : path) : path := removelast p.
Definition Base (p : path) : string := default "." (last p).

End filepath.

(** ** The file tree and the [os] calls the program makes *)

Inductive node :=
  | NFile (mtime : Time) (data : bytes)
  | NDir (mtime : Time)
  | NLink (target : path).

Abbreviation tree := (gmap path node).

(** [fs.FS] values; the program only builds them with [os.DirFS]. *)
Inductive FS := DirFS (root : path).

Module os.

(** The world is the file tree together with the trees it has gone
    through, latest first: one per system call issued so far.  The past is
    what an observer of the disk could have seen; its length indexes the
    fault oracle. *)
Record World := mkWorld { files : tree; past : list tree }.

Definition ticks (w : World) : nat := length (past w).

(** What the operating system contributes to one run: the wall clock and
    the I/O faults, [fault n] being the failure (if any) injected into the
    [n]-th system call. *)
Record Sys := mkSys { now : Time; fault : nat → option error }.

Record FileInfo := mkInfo { IsDir : bool; ModTime : Time }.

Global Instance FileInfo_eq_dec : EqDecision FileInfo.
Proof. solve_decision. Defined.

(** [os.IsNotExist] / [errors.Is(err, os.ErrNotExist)]. *)
Definition IsNotExist (e : error) : bool := bool_decide (e = ENOENT).

Definition isDirNode (n : node) : bool :=
  match n with NDir _ => true | _ => false end.

(** A symbolic link is followed when it is the last element of the path
    handed to a following call; its target is relative to the directory
    that holds the link. *)
Definition deref (t : tree) (p : path) : path :=
  match t !! p with
  | Some (NLink tgt) => filepath.Dir p ++ tgt
  | _ => p
  end.

Definition touchDir (now : Time) (p : path) (t : tree) : tree :=
  match t !! p with
  | Some (NDir _) => <[p := NDir now]> t
  | _ => t
  end.

Definition parentCheck (t : tree) (p : path) : option error :=
  match t !! filepath.Dir p with
  | Some (NDir _) => None
  | Some _ => Some ENOTDIR
  | None => Some ENOENT
  end.

(** *** Effects of the calls on the tree *)

Definition stat_k (t : tree) (p : path) : error + FileInfo :=
  match t !! deref t p with
  | Some (NDir m) => inr (mkInfo true m)
  | Some (NFile m _) => inr (mkInfo false m)
  | Some (NLink _) => inl ELOOP
  | None => inl ENOENT
  end.

Definition lstat_k (t : tree) (p : path) : error + FileInfo :=
  match t !! p with
  | Some (NDir m) => inr (mkInfo true m)
  | Some (NFile m _) => inr (mkInfo false m)
  | Some (NLink _) => inr (mkInfo false 0)
  | None => inl ENOENT
  end.

Definition mkdir_k (now : Time) (p : path) (t : tree) : error + tree :=
  match t !! p with
  | Some _ => inl EEXIST
  | None =>
      match parentCheck t p with
      | Some e => inl e
      | None => inr (<[p := NDir now]> (touchDir now (filepath.Dir p) t))
      end
  end.

(** [WriteFile]: open with [O_WRONLY|O_CREATE|O_TRUNC], write, close. *)
Definition writeFile_k (now : Time) (p : path) (data : bytes) (t : tree)
  : error + tree :=
  let q := deref t p in
  match t !! q with
  | Some (NDir _) => inl EISDIR
  | Some (NLink _) => inl ELOOP
  | Some (NFile _ _) => inr (<[q := NFile now data]> t)
  | None =>
      match parentCheck t q with
      | Some e => inl e
      | None =>
          inr (<[q := NFile now data]> (touchDir now (filepath.Dir q) t))
      end
  end.

Definition chtimes_k (p : path) (m : Time) (t : tree) : error + tree :=
  let q := deref t p in
  match t !! q with
  | Some (NDir _) => inr (<[q := NDir m]> t)
  | Some (NFile _ d) => inr (<[q := NFile m d]> t)
  | Some (NLink _) => inl ELOOP
  | None => inl ENOENT
  end.

Definition symlink_k (now : Time) (target : path) (link : path) (t : tree)
  : error + tree :=
  match t !! link with
  | Some _ => inl EEXIST
  | None =>
      match parentCheck t link with
      | Some e => inl e
      | None =>
          inr (<[link := NLink target]> (touchDir now (filepath.Dir link) t))
      end
  end.

(** [rename(2)] of a file or a symbolic link: the destination is replaced
    in one step.  Renaming a directory is not needed by the program and is
    left unsupported. *)
Definition rename_k (now : Time) (old new : path) (t : tree) : error + tree :=
  match t !! old with
  | None => inl ENOENT
  | Some (NDir _) => inl ENOTSUP
  | Some n =>
      match t !! new with
      | Some (NDir _) => inl EISDIR
      | _ =>
          match parentCheck t new with
          | Some e => inl e
          | None =>
              inr (<[new := n]>
                     (delete old
                        (touchDir now (filepath.Dir new)
                           (touchDir now (filepath.Dir old) t))))
          end
      end
  end.

(** [RemoveAll]: the path and everything below it; no error when the path
    is absent.  A link is removed itself, not its target. *)
Definition removeAll_k (now : Time) (p : path) (t : tree) : tree :=
  let t' := filter (λ kv : path * node, ¬ (p `prefix_of` kv.1)) t in
  match t !! p with
  | None => t'
  | Some _ => touchDir now (filepath.Dir p) t'
  end.

(** *** The calls, with fault injection *)

Definition tick (w : World) (t : tree) : World :=
  mkWorld t (files w :: past w).

Definition sysR {A} (sys : Sys) (k : tree → error + A) (w : World)
  : (error + A) * World :=
  match fault sys (ticks w) with
  | Some e => (inl e, tick w (files w))
  | None => (k (files w), tick w (files w))
  end.

Definition sysW (sys : Sys) (k : tree → error + tree) (w : World)
  : option error * World :=
  match fault sys (ticks w) with
  | Some e => (Some e, tick w (files w))
  | None =>
      match k (files w) with
      | inl e => (Some e, tick w (files w))
      | inr t => (None, tick w t)
      end
  end.

Definition Stat (sys : Sys) (p : path) := sysR sys (λ t, stat_k t p).
Definition Lstat (sys : Sys) (p : path) := sysR sys (λ t, lstat_k t p).
Definition Mkdir (sys : Sys) (p : path) := sysW sys (mkdir_k (now sys) p).
Definition WriteFile (sys : Sys) (p : path) (data : bytes) :=
  sysW sys (writeFile_k (now sys) p data).
Definition Chtimes (sys : Sys) (p : path) (atime mtime : Time) :=
  sysW sys (chtimes_k p mtime).
Definition Symlink (sys : Sys) (oldname : path) (newname : path) :=
  sysW sys (symlink_k (now sys) oldname newname).
Definition Rename (sys : Sys) (oldpath newpath : path) :=
  sysW sys (rename_k (now sys) oldpath newpath).

(** The program discards the result of [RemoveAll]; the removal is taken
    to succeed. *)
Definition RemoveAll (sys : Sys) (p : path) (w : World) : World :=
  tick w (removeAll_k (now sys) p (files w)).

(** [MkdirAll], by recursion on the reversed path: succeed at once on an
    existing directory, otherwise make the parent (when the path has one),
    then the directory itself; a failing [Mkdir] is forgiven when the
    directory is there after all. *)
Fixpoint MkdirAll_rev (sys : Sys) (rp : list string) (w : World)
  : option error * World :=
  let p := rev rp in
  match Stat sys p w with
  | (inr dir, w1) =>
      if IsDir dir then (None, w1) else (Some ENOTDIR, w1)
  | (inl _, w1) =>
      let '(perr, w2) :=
        match rp with
        | _ :: ((_ :: _) as rparent) => MkdirAll_rev sys rparent w1
        | _ => (None, w1)
        end in
      match perr with
      | Some e => (Some e, w2)
      | None =>
          match Mkdir sys p w2 with
          | (None, w3) => (None, w3)
          | (Some e, w3) =>
              match Lstat sys p w3 with
              | (inr dir, w4) =>
                  if IsDir dir then (None, w4) else (Some e, w4)
              | (inl _, w4) => (Some e, w4)
              end
          end
      end
  end.

Definition MkdirAll (sys : Sys) (p : path) : World → option error * World :=
  MkdirAll_rev sys (rev p).

End os.

(** ** [io/fs] reads through a view *)

Module fs.

Record DirEntry := mkEntry { Name : string; IsDir : bool }.

(** The location a name inside a [DirFS] view denotes: the link at the
    root of the view is followed, then the last element of the name. *)
Definition locate (t : tree) (fsys : FS) (name : path) : path :=
  let 'DirFS root := fsys in
  match name with
  | [] => os.deref t root
  | _ => os.deref t (os.deref t root ++ name)
  end.

(** A name handed to a view, element by element: [.] is the root. *)
Definition elements (name : string) : path :=
  if bool_decide (name = ".") then [] else filepath.splitSlash name.

(** [fs.ValidPath]: no element is empty, [.] or [..]. *)
Definition ValidPath (name : path) : bool :=
  forallb (λ e, negb (bool_decide (e = "") || bool_decide (e = ".")
                      || bool_decide (e = ".."))) name.

Definition childEntry (q : path) (kv : path * node) : option DirEntry :=
  match last kv.1 with
  | Some c =>
      if bool_decide (kv.1 = q ++ [c])
      then Some (mkEntry c (os.isDirNode kv.2))
      else None
  | None => None
  end.

(** The entries of directory [q], in the order the tree enumerates them. *)
Definition readDir_k (q : path) (t : tree) : error + list DirEntry :=
  match t !! q with
  | Some (NDir _) => inr (omap (childEntry q) (map_to_list t))
  | Some (NFile _ _) => inl ENOTDIR
  | Some (NLink _) => inl ELOOP
  | None => inl ENOENT
  end.

Definition readFile_k (q : path) (t : tree) : error + bytes :=
  match t !! q with
  | Some (NFile _ d) => inr d
  | Some (NDir _) => inl EISDIR
  | Some (NLink _) => inl ELOOP
  | None => inl ENOENT
  end.

Definition ReadDir (sys : os.Sys) (fsys : FS) (name : path)
  : os.World → (error + list DirEntry) * os.World :=
  os.sysR sys (λ t,
    if ValidPath name then readDir_k (locate t fsys name) t
    else inl ErrInvalid).

Definition ReadFile (sys : os.Sys) (fsys : FS) (name : path)
  : os.World → (error + bytes) * os.World :=
  os.sysR sys (λ t,
    if ValidPath name then readFile_k (locate t fsys name) t
    else inl ErrInvalid).

End fs.

(** ** [time]: the two layouts the program formats with *)

Module time.

(** Civil date of a day number (days since 1970-01-01). *)
Definition civil (days : Z) : Z * Z * Z :=
  let z := days + 719468 in
  let era := z / 146097 in
  let doe := z - era * 146097 in
  let yoe := (doe - doe / 1460 + doe / 36524 - doe / 146096) / 365 in
  let doy := doe - (365 * yoe + yoe / 4 - yoe / 100) in
  let mp := (5 * doy + 2) / 153 in
  let d := doy - (153 * mp + 2) / 5 + 1 in
  let m := if mp <? 10 then mp + 3 else mp - 9 in
  let y := yoe + era * 400 + (if m <=? 2 then 1 else 0) in
  (y, m, d).

Definition digit (n : Z) : ascii :=
  ascii_of_nat (48 + Z.to_nat (n mod 10)).

(** [n] in decimal, zero-padded to exactly [w] digits. *)
Fixpoint zpad (w : nat) (n : Z) : string :=
  match w with
  | O => EmptyString
  | S w' => zpad w' (n / 10) +:+ String (digit n) EmptyString
  end.

Definition clock (t : Time) : string * string * string :=
  let s := t mod 86400 in
  (zpad 2 (s / 3600), zpad 2 (s / 60 mod 60), zpad 2 (s mod 60)).

(** [t.UTC().Format("20060102_150405")], for years 0000 to 9999. *)
Definition FormatStamp (t : Time) : string :=
  let '(y, m, d) := civil (t / 86400) in
  let '(hh, mm, ss) := clock t in
  zpad 4 y +:+ zpad 2 m +:+ zpad 2 d +:+ "_" +:+ hh +:+ mm +:+ ss.

Definition weekday (days : Z) : string :=
  nth (Z.to_nat ((days + 4) mod 7))
    ["Sun"; "Mon"; "Tue"; "Wed"; "Thu"; "Fri"; "Sat"] "".

Definition month (m : Z) : string :=
  nth (Z.to_nat (m - 1))
    ["Jan"; "Feb"; "Mar"; "Apr"; "May"; "Jun";
     "Jul"; "Aug"; "Sep"; "Oct"; "Nov"; "Dec"] "".

(** [t.UTC().Format(http.TimeFormat)], the layout
    [Mon, 02 Jan 2006 15:04:05 GMT]. *)
Definition FormatHTTP (t : Time) : string :=
  let '(y, m, d) := civil (t / 86400) in
  let '(hh, mm, ss) := clock t in
  weekday (t / 86400) +:+ ", " +:+ zpad 2 d +:+ " " +:+ month m +:+ " "
    +:+ zpad 4 y +:+ " " +:+ hh +:+ ":" +:+ mm +:+ ":" +:+ ss +:+ " GMT".

End time.

(** ** [declcfg]: catalog records and the record walker *)

Module declcfg.

Definition SchemaPackage : string := "olm.package".

Record Meta := mkMeta {
  Schema : string;
  Package : string;
  Name : string;
  Blob : bytes
}.

Record Icon := mkIcon { Data : bytes; MediaType : string }.

(** Of the package descriptor only the icon is read. *)
Record PackageT := mkPackage { PackageIcon : option Icon }.

(** A response body as the decoder delivers it: every item is a decoded
    record or the error that ends the decoding. *)
Definition stream := list (error + Meta).

(** [WalkMetasReader]: call [walkFn] on each record until it fails; hand a
    decoding error to [walkFn] and stop with what it returns. *)
Fixpoint WalkMetasReader {S : Type} (r : stream)
    (walkFn : error + Meta → S → option error * S) (s : S)
  : option error * S :=
  match r with
  | [] => (None, s)
  | inl e :: _ => walkFn (inl e) s
  | inr m :: r' =>
      match walkFn (inr m) s with
      | (Some e, s') => (Some e, s')
      | (None, s') => WalkMetasReader r' walkFn s'
      end
  end.

End declcfg.

(** ** [net/http] *)

Module http.

Definition StatusOK : Z := 200.
Definition StatusMovedPermanently : Z := 301.
Definition StatusNotModified : Z := 304.
Definition StatusForbidden : Z := 403.
Definition StatusNotFound : Z := 404.
Definition StatusInternalServerError : Z := 500.
Definition StatusServiceUnavailable : Z := 503.

Abbreviation Header := (gmap string string).

(** [Header.Get]: the empty string for an absent key. *)
Definition Get (h : Header) (key : string) : string := default "" (h !! key).

Record Request := mkRequest { URL : string; ReqHeader : Header }.

Record Response := mkResponse {
  StatusCode : Z;
  RespHeader : Header;
  Body : declcfg.stream
}.

(** What a handler has written to its [ResponseWriter]. *)
Inductive payload :=
  | Text (msg : string)
  | ErrorText (e : error)
  | JSONStrings (l : list string)
  | Raw (b : bytes).

Record Written := mkWritten {
  Code : Z;
  ContentType : option string;
  Payload : payload
}.

(** [http.Error(w, msg, code)]. *)
Definition Error (msg : payload) (code : Z) : Written :=
  mkWritten code (Some "text/plain; charset=utf-8") msg.

End http.

(** ** [expirable.LRU], specialised to the keys and values of the program *)

Module expirable.

Record entry := mkEntry { key : string; value : path; expiresAt : Time }.

Global Instance entry_eq_dec : EqDecision entry.
Proof. solve_decision. Defined.

(** The eviction list, most recently used entry first. *)
Record LRU := mkLRU { size : nat; ttl : Z; evictList : list entry }.

Definition NewLRU (size : nat) (ttl : Z) : LRU := mkLRU size ttl [].

Definition hasKey (k : string) (e : entry) : bool := bool_decide (key e = k).

(** [Add]: an existing key is renewed in place and moved to the front; a
    new key is pushed at the front and, if the list then exceeds the size,
    the oldest entry is removed.  The removed entry is returned for the
    eviction callback. *)
Definition Add (now : Time) (k : string) (v : path) (c : LRU)
  : LRU * option entry :=
  let ent := mkEntry k v (now + ttl c) in
  if existsb (hasKey k) (evictList c) then
    (mkLRU (size c) (ttl c)
       (ent :: filter (λ e, key e ≠ k) (evictList c)), None)
  else
    let l := ent :: evictList c in
    if bool_decide (0 < size c)%nat && bool_decide (size c < length l)%nat
    then (mkLRU (size c) (ttl c) (removelast l), last l)
    else (mkLRU (size c) (ttl c) l, None).

Definition expired (now : Time) (e : entry) : bool :=
  bool_decide (expiresAt e < now).

(** [deleteExpired], the janitor run by the cache in the background: the
    entries whose time has passed are removed and returned for the
    eviction callback. *)
Definition deleteExpired (now : Time) (c : LRU) : LRU * list entry :=
  (mkLRU (size c) (ttl c)
     (filter (λ e, expired now e = false) (evictList c)),
   filter (λ e, expired now e = true) (evictList c)).

End expirable.

(** ** [catalogd]: the cluster resource a catalog belongs to *)

Module catalogd.

Definition PhaseUnpacked : string := "Unpacked".

Record ClusterCatalog := mkClusterCatalog { GetName : string; Phase : string }.

End catalogd.

(** ** The caching client *)

(** What surrounds one call: the operating system, the remote source
    answering the request ([httpClient.Do]), and the cluster API answering
    [getClusterCatalog]. *)
Record Env := mkEnv {
  sys : os.Sys;
  Do : http.Request → error + http.Response;
  cluster : string → string → error + catalogd.ClusterCatalog
}.

Record cachingClient := mkClient {
  baseURL : string;
  cacheDir : string;
  lru : expirable.LRU
}.

(** The eviction callback given to [expirable.NewLRU]. *)
Definition onEvict (s : os.Sys) (_ : string) (value : path) (w : os.World)
  : os.World :=
  os.RemoveAll s value w.

Definition newCachingClient (cacheDir : string) (baseURL : string)
  : cachingClient :=
  mkClient baseURL cacheDir (expirable.NewLRU 100 (24 * 3600)).

(** [c.lru.Add(key, value)] together with the callback it may trigger. *)
Definition lruAdd (s : os.Sys) (key : string) (value : path)
    (c : cachingClient) (w : os.World) : cachingClient * os.World :=
  let '(l, evicted) := expirable.Add (os.now s) key value (lru c) in
  (mkClient (baseURL c) (cacheDir c) l,
   match evicted with
   | Some e => onEvict s (expirable.key e) (expirable.value e) w
   | None => w
   end).

(** The background janitor of the LRU together with the callbacks it
    triggers. *)
Definition lruDeleteExpired (s : os.Sys) (c : cachingClient) (w : os.World)
  : cachingClient * os.World :=
  let '(l, evicted) := expirable.deleteExpired (os.now s) (lru c) in
  (mkClient (baseURL c) (cacheDir c) l,
   fold_left (λ w e, onEvict s (expirable.key e) (expirable.value e) w)
     evicted w).

(** The filing path of a record below [catalogDir]. *)
Definition packageNameOf (m : declcfg.Meta) : string :=
  let packageName := declcfg.Package m in
  let packageName :=
    if bool_decide (declcfg.Schema m = declcfg.SchemaPackage)
    then declcfg.Name m else packageName in
  let packageName :=
    if bool_decide (packageName = "") then "__global" else packageName in
  packageName.

Definition filingPath (catalogDir : path) (m : declcfg.Meta) : path :=
  filepath.Join catalogDir
    [packageNameOf m; declcfg.Schema m; declcfg.Name m +:+ ".json"].

(** The function [writeCatalog] hands to [WalkMetasReader]. *)
Definition writeCatalog_walkFn (s : os.Sys) (catalogDir : path)
    (item : error + declcfg.Meta) (w : os.World) : option error * os.World :=
  match item with
  | inl err => (Some err, w)
  | inr m =>
      let path := filingPath catalogDir m in
      match os.MkdirAll s (filepath.Dir path) w with
      | (Some err, w) => (Some err, w)
      | (None, w) =>
          match os.WriteFile s path (declcfg.Blob m) w with
          | (Some err, w) => (Some err, w)
          | (None, w) => (None, w)
          end
      end
  end.

Definition writeCatalog (s : os.Sys) (catalogDir : path) (r : declcfg.stream)
  : os.World → option error * os.World :=
  declcfg.WalkMetasReader r (writeCatalog_walkFn s catalogDir).

(** What a call of [getCatalogFS] returns, [(fs.FS, error)], and, as a
    record of the negotiation, the request it has sent (if it got that
    far). *)
Record Outcome := mkOutcome {
  fsys : option FS;
  err : option error;
  sent : option http.Request
}.

Section Client.

(** [http.ParseTime]. *)
Variable ParseTime : string → error + Time.

Definition catalogPathOf (c : cachingClient) (name : string) : path :=
  filepath.Join [] [cacheDir c; "clustercatalogs"; name].

Definition getCatalogFS (env : Env) (c : cachingClient)
    (clusterCatalog : catalogd.ClusterCatalog) (w : os.World)
  : Outcome * cachingClient * os.World :=
  let name := catalogd.GetName clusterCatalog in
  let catalogPath := catalogPathOf c name in
  let '(c, w) := lruAdd (sys env) name catalogPath c w in

  let activeSymlinkPath := filepath.Join catalogPath ["active"] in
  let '(st, w) := os.Stat (sys env) activeSymlinkPath w in
  let fatal :=
    match st with
    | inl err => if os.IsNotExist err then None else Some err
    | inr _ => None
    end in
  match fatal with
  | Some err => (mkOutcome None (Some err) None, c, w)
  | None =>
  let catalogStat := match st with inr i => Some i | inl _ => None end in

  let req :=
    http.mkRequest (baseURL c +:+ "/catalogs/" +:+ name +:+ "/all.json") ∅ in
  let req :=
    match catalogStat with
    | Some i =>
        if os.IsDir i then
          let modTime := time.FormatHTTP (os.ModTime i) in
          http.mkRequest (http.URL req)
            (<["If-Modified-Since" := modTime]> (http.ReqHeader req))
        else req
    | None => req
    end in

  match Do env req with
  | inl err => (mkOutcome None (Some err) (Some req), c, w)
  | inr resp =>
  let err : option error := None in
  if bool_decide (http.StatusCode resp = http.StatusNotModified) then
    (mkOutcome (Some (DirFS activeSymlinkPath)) None (Some req), c, w)
  else if bool_decide (http.StatusCode resp ≠ http.StatusOK) then
    (mkOutcome None err (Some req), c, w)
  else
  match ParseTime (http.Get (http.RespHeader resp) "Last-Modified") with
  | inl err => (mkOutcome None (Some err) (Some req), c, w)
  | inr modTime =>
  let realCatalogPath :=
    filepath.Join catalogPath [time.FormatStamp modTime] in
  match writeCatalog (sys env) realCatalogPath (http.Body resp) w with
  | (Some err, w) => (mkOutcome None (Some err) (Some req), c, w)
  | (None, w) =>
  match os.Chtimes (sys env) realCatalogPath modTime modTime w with
  | (Some err, w) => (mkOutcome None (Some err) (Some req), c, w)
  | (None, w) =>
  let nextSymlinkPath := filepath.Join catalogPath ["next"] in
  match os.Symlink (sys env) [filepath.Base realCatalogPath]
          (filepath.Join catalogPath ["next"]) w with
  | (Some err, w) => (mkOutcome None (Some err) (Some req), c, w)
  | (None, w) =>
  match os.Rename (sys env) nextSymlinkPath activeSymlinkPath w with
  | (Some err, w) => (mkOutcome None (Some err) (Some req), c, w)
  | (None, w) =>
    (mkOutcome (Some (DirFS activeSymlinkPath)) None (Some req), c, w)
  end end end end end end end.

End Client.

(** ** The query handlers *)

(** [sort.Strings]: ascending in Go's string order, which compares byte by
    byte as [String.le] does. *)
Definition sort_Strings (l : list string) : list string :=
  merge_sort String.le l.

(** What a handler leaves behind: the response it wrote, or a panic (a
    method call on a nil [fs.FS]), which the server turns into a dropped
    connection. *)
Inductive served :=
  | Wrote (w : http.Written)
  | Panic.

Definition internalError (e : error) : served :=
  Wrote (http.Error (http.ErrorText e) http.StatusInternalServerError).

(** [toHTTPError] and the part of [http.ServeFileFS] that concerns a named
    file: a regular file is served with its bytes, a directory is answered
    by a redirect, an open error by its status. *)
Definition ServeFileFS (s : os.Sys) (fsys : FS) (name : path) (w : os.World)
  : served * os.World :=
  match fs.ReadFile s fsys name w with
  | (inr data, w) =>
      (Wrote (http.mkWritten http.StatusOK None (http.Raw data)), w)
  | (inl e, w) =>
      (Wrote
         (if os.IsNotExist e then
            http.Error (http.Text "404 page not found") http.StatusNotFound
          else if bool_decide (e = EACCES) then
            http.Error (http.Text "403 Forbidden") http.StatusForbidden
          else if bool_decide (e = EISDIR) then
            http.mkWritten http.StatusMovedPermanently None (http.Text "")
          else
            http.Error (http.Text "500 Internal Server Error")
              http.StatusInternalServerError), w)
  end.

(** The names a listing handler collects from the entries before sorting. *)
Definition dirNames (entries : list fs.DirEntry) : list string :=
  fs.Name <$> filter (λ e, fs.IsDir e = true) entries.

Definition objectNames (entries : list fs.DirEntry) : list string :=
  (λ e, TrimSuffix (fs.Name e) ".json")
    <$> filter (λ e, fs.IsDir e = false) entries.

Definition okJSON (names : list string) : served :=
  Wrote (http.mkWritten http.StatusOK None (http.JSONStrings names)).

Section Handlers.

(** [http.ParseTime] and [json.Unmarshal] into a [declcfg.Package]. *)
Variable ParseTime : string → error + Time.
Variable Unmarshal : bytes → error + declcfg.PackageT.

(** The opening every handler shares: look the catalog up, require it to
    be unpacked, obtain its view.  [inl] is the response of a handler that
    stops here; [inr None] is the nil view of a call that returned neither
    a view nor an error. *)
Definition openCatalog (env : Env) (resource catalogName : string)
    (cc : cachingClient) (w : os.World)
  : (served + option FS) * cachingClient * os.World :=
  match cluster env resource catalogName with
  | inl err => (inl (internalError err), cc, w)
  | inr cat =>
      if bool_decide (catalogd.Phase cat ≠ catalogd.PhaseUnpacked) then
        (inl (Wrote (http.Error (http.Text "catalog not unpacked")
                       http.StatusServiceUnavailable)), cc, w)
      else
        let '(out, cc, w) := getCatalogFS ParseTime env cc cat w in
        match err out with
        | Some err => (inl (internalError err), cc, w)
        | None => (inr (fsys out), cc, w)
        end
  end.

Definition listPackagesHandler (env : Env) (resource catalogName : string)
    (cc : cachingClient) (w : os.World)
  : served * cachingClient * os.World :=
  match openCatalog env resource catalogName cc w with
  | (inl stop, cc, w) => (stop, cc, w)
  | (inr None, cc, w) => (Panic, cc, w)
  | (inr (Some fsys), cc, w) =>
      match fs.ReadDir (sys env) fsys (fs.elements ".") w with
      | (inl err, w) => (internalError err, cc, w)
      | (inr entries, w) =>
          let packageNames := dirNames entries in
          (okJSON (sort_Strings packageNames), cc, w)
      end
  end.

Definition listPackageSchemasHandler (env : Env)
    (resource catalogName packageName : string)
    (cc : cachingClient) (w : os.World)
  : served * cachingClient * os.World :=
  match openCatalog env resource catalogName cc w with
  | (inl stop, cc, w) => (stop, cc, w)
  | (inr None, cc, w) => (Panic, cc, w)
  | (inr (Some fsys), cc, w) =>
      match fs.ReadDir (sys env) fsys (fs.elements packageName) w with
      | (inl err, w) => (internalError err, cc, w)
      | (inr entries, w) =>
          let schemaNames := dirNames entries in
          (okJSON (sort_Strings schemaNames), cc, w)
      end
  end.

Definition listObjectsHandler (env : Env)
    (resource catalogName packageName schema : string)
    (cc : cachingClient) (w : os.World)
  : served * cachingClient * os.World :=
  match openCatalog env resource catalogName cc w with
  | (inl stop, cc, w) => (stop, cc, w)
  | (inr None, cc, w) => (Panic, cc, w)
  | (inr (Some fsys), cc, w) =>
      match fs.ReadDir (sys env) fsys
              (filepath.Join [] [packageName; schema]) w with
      | (inl err, w) => (internalError err, cc, w)
      | (inr entries, w) =>
          let objectNames := objectNames entries in
          (okJSON (sort_Strings objectNames), cc, w)
      end
  end.

Definition getObjectHandler (env : Env)
    (resource catalogName packageName schema objectName : string)
    (cc : cachingClient) (w : os.World)
  : served * cachingClient * os.World :=
  match openCatalog env resource catalogName cc w with
  | (inl stop, cc, w) => (stop, cc, w)
  | (inr None, cc, w) => (Panic, cc, w)
  | (inr (Some fsys), cc, w) =>
      let '(res, w) :=
        ServeFileFS (sys env) fsys
          (filepath.Join [] [packageName; schema; objectName +:+ ".json"]) w in
      (res, cc, w)
  end.

Definition getPackageIconHandler (env : Env)
    (resource catalogName packageName : string)
    (cc : cachingClient) (w : os.World)
  : served * cachingClient * os.World :=
  match openCatalog env resource catalogName cc w with
  | (inl stop, cc, w) => (stop, cc, w)
  | (inr None, cc, w) => (Panic, cc, w)
  | (inr (Some fsys), cc, w) =>
      match fs.ReadFile (sys env) fsys
              (filepath.Join []
                 [packageName; declcfg.SchemaPackage;
                  packageName +:+ ".json"]) w with
      | (inl err, w) =>
          if os.IsNotExist err then
            (Wrote (http.Error (http.Text "package not found")
                      http.StatusNotFound), cc, w)
          else (internalError err, cc, w)
      | (inr pkgData, w) =>
          match Unmarshal pkgData with
          | inl err => (internalError err, cc, w)
          | inr pkg =>
              match declcfg.PackageIcon pkg with
              | None =>
                  (Wrote (http.Error (http.Text "icon not found")
                            http.StatusNotFound), cc, w)
              | Some icon =>
                  (Wrote (http.mkWritten http.StatusOK
                            (Some (declcfg.MediaType icon))
                            (http.Raw (declcfg.Data icon))), cc, w)
              end
          end
      end
  end.

End Handlers.

(** ** Notions used by the statements *)

(** A name that [filepath.Join] keeps as one element: not empty, not [.]
    or [..], without a separator.  The names of cluster resources are of
    this kind. *)
Fixpoint noSlash (s : string) : bool :=
  match s with
  | EmptyString => true
  | String c s' => negb (bool_decide (c = "/"%char)) && noSlash s'
  end.

Definition plainName (s : string) : bool :=
  noSlash s && negb (bool_decide (s = "")) && negb (bool_decide (s = "."))
  && negb (bool_decide (s = "..")).

(** The LRU of a client holds what [getCatalogFS] has put there: each key
    is a catalog name and its value that catalog's directory. *)
Definition tracks (c : cachingClient) : bool :=
  forallb (λ e, plainName (expirable.key e)
                && bool_decide (expirable.value e
                                = catalogPathOf c (expirable.key e)))
    (expirable.evictList (lru c)).

(** The pointer and snapshot paths of a catalog. *)
Definition activePathOf (c : cachingClient) (name : string) : path :=
  filepath.Join (catalogPathOf c name) ["active"].

Definition snapshotPathOf (c : cachingClient) (name : string) (t : Time) : path :=
  filepath.Join (catalogPathOf c name) [time.FormatStamp t].

(** The trees an observer could have seen while the world went from [w] to
    [w'], latest first, the tree of [w'] excluded. *)
Definition observedBetween (w w' : os.World) : list tree :=
  take (length (os.past w') - length (os.past w)) (os.past w').

(** The file a path leads to, a link at its end being followed. *)
Definition contentAt (t : tree) (p : path) : option bytes :=
  match t !! os.deref t p with
  | Some (NFile _ d) => Some d
  | _ => None
  end.

(** The entries of a directory in the order the tree enumerates them. *)
Definition children (t : tree) (q : path) : list fs.DirEntry :=
  omap (fs.childEntry q) (map_to_list t).

(** Every link of [t] is still there, with its target, in [t']. *)
Definition keepsLinks (t t' : tree) : Prop :=
  ∀ p tgt, t !! p = Some (NLink tgt) → t' !! p = Some (NLink tgt).

(** No link of [t'] is new: each was in [t] already, with its target. *)
Definition noNewLinks (t t' : tree) : Prop :=
  ∀ q tgt, t' !! q = Some (NLink tgt) → t !! q = Some (NLink tgt).

(** [t'] differs from [t] at most at the paths of [X]; [t'] agrees with
    [t] at [q]. *)
Definition changesOnly (X : path → Prop) (t t' : tree) : Prop :=
  ∀ q, ¬ X q → t' !! q = t !! q.

Definition sameAt (q : path) (t t' : tree) : Prop := t' !! q = t !! q.

(** There is no link at or below [p]; there is nothing at or below [p]. *)
Definition noLinksBelow (p : path) (t : tree) : Prop :=
  ∀ q tgt, p `prefix_of` q → t !! q ≠ Some (NLink tgt).

Definition goneBelow (p : path) (t : tree) : Prop :=
  map_Forall (λ q _, ¬ p `prefix_of` q) t.

Global Instance goneBelow_dec (p : path) (t : tree) : Decision (goneBelow p t).
Proof. unfold goneBelow. apply _. Defined.

(** The branch of [p]: its ancestors, [p] itself and what is below it. *)
Definition branch (p q : path) : Prop := q `prefix_of` p ∨ p `prefix_of` q.

(** A record whose bucket, schema and file name are plain names, so that
    its filing path stays inside the snapshot directory. *)
Definition contained (m : declcfg.Meta) : bool :=
  plainName (packageNameOf m) && plainName (declcfg.Schema m)
  && plainName (declcfg.Name m +:+ ".json").

(** What the filling of directory [dir] does to a tree that has no link
    below [dir]: it makes none, and it stays on the branch of [dir]. *)
Definition fills (dir : path) (t t' : tree) : Prop :=
  noLinksBelow dir t →
  noLinksBelow dir t' ∧ changesOnly (branch dir) t t'.

(** [R] relates the tree of [w] to the tree of [w'] and to every tree the
    disk has gone through in between. *)
Definition during (R : relation tree) (w w' : os.World) : Prop :=
  R (os.files w) (os.files w')
  ∧ ∃ l, os.past w' = l ++ os.past w ∧ Forall (R (os.files w)) l.

(** Every path of [t] is a path of [t']. *)
Definition keepsPaths (t t' : tree) : Prop :=
  ∀ q, is_Some (t !! q) → is_Some (t' !! q).

(** What the client keeps true of its LRU: the entries are those of
    [tracks], no catalog is entered twice, and the list is within its
    (positive) size. *)
Definition bounded (c : cachingClient) : Prop :=
  tracks c = true
  ∧ NoDup (expirable.key <$> expirable.evictList (lru c))
  ∧ (0 < expirable.size (lru c))%nat
  ∧ (length (expirable.evictList (lru c)) ≤ expirable.size (lru c))%nat.

(** Below [dir], whatever is on disk sits in a directory. *)
Definition wfBelow (dir : path) (t : tree) : Prop :=
  ∀ q x, dir `prefix_of` q → is_Some (t !! (q ++ [x])) →
         ∃ m, t !! q = Some (NDir m).

(** Directories stay directories and files stay files. *)
Definition keepsKinds (t t' : tree) : Prop :=
  (∀ q m, t !! q = Some (NDir m) → ∃ m', t' !! q = Some (NDir m'))
  ∧ (∀ q m d, t !! q = Some (NFile m d) → ∃ m' d', t' !! q = Some (NFile m' d')).

(** The filing of records under [dir] at the paths of [X], on a tree that
    has no link below [dir] and is well formed there. *)
Definition filing (dir : path) (X : path → Prop) (t t' : tree) : Prop :=
  noLinksBelow dir t → wfBelow dir t →
  noLinksBelow dir t' ∧ wfBelow dir t' ∧ changesOnly X t t' ∧ keepsKinds t t'.

(** The paths [writeCatalog] goes through for a body: the filing paths of
    its records and what leads to them. *)
Definition filedAt (dir : path) (body : declcfg.stream) (q : path) : Prop :=
  ∃ m, inr m ∈ body ∧ q `prefix_of` filingPath dir m.

(** The tree holds under [dir] the body as [writeCatalog] files it, and
    nothing else: what is at or below [dir] leads to the file of a record,
    what leads to one is a directory, each record has its file, and a
    file has the bytes of the last record of the body filed there. *)
Definition snapshotOf (dir : path) (body : declcfg.stream) (t : tree) : Prop :=
  noLinksBelow dir t
  ∧ (∀ q, dir `prefix_of` q → is_Some (t !! q) → filedAt dir body q)
  ∧ (∀ m q, inr m ∈ body → dir `prefix_of` q →
            q `prefix_of` filingPath dir m → q ≠ filingPath dir m →
            ∃ mt, t !! q = Some (NDir mt))
  ∧ (∀ m, inr m ∈ body →
          ∃ mt d, t !! filingPath dir m = Some (NFile mt d))
  ∧ (∀ r1 m r2, body = r1 ++ inr m :: r2 →
       (∀ m', inr m' ∈ r2 → filingPath dir m' ≠ filingPath dir m) →
       ∃ mt, t !! filingPath dir m = Some (NFile mt (declcfg.Blob m))).

(** The entry an eviction removes, and the disk it leaves: by capacity,
    inside [c.lru.Add]; by age, inside the janitor. *)
Inductive evicts (s : os.Sys) (c : cachingClient) (w : os.World)
    (e : expirable.entry) (c' : cachingClient) (w' : os.World) : Prop :=
  | evicts_capacity (k : string) (v : path) (l : expirable.LRU) :
      expirable.Add (os.now s) k v (lru c) = (l, Some e) →
      lruAdd s k v c w = (c', w') →
      evicts s c w e c' w'
  | evicts_ttl :
      e ∈ expirable.evictList (lru c) →
      expirable.expired (os.now s) e = true →
      lruDeleteExpired s c w = (c', w') →
      evicts s c w e c' w'.

(** The bucket of a record as the specification words it: the name for a
    package descriptor, otherwise the package field, [__global] when that
    field is empty. *)
Definition spec_bucket (m : declcfg.Meta) : string :=
  if bool_decide (declcfg.Schema m = declcfg.SchemaPackage)
  then declcfg.Name m
  else if bool_decide (declcfg.Package m = "") then "__global"
       else declcfg.Package m.

(** The stages of [getCatalogFS], named for the statements: the request
    that follows the [Stat] of the active pointer, the publication of a new
    snapshot, and the answer to a response. *)
Definition negotiationRequest (c : cachingClient) (name : string)
    (catalogStat : option os.FileInfo) : http.Request :=
  let req :=
    http.mkRequest (baseURL c +:+ "/catalogs/" +:+ name +:+ "/all.json") ∅ in
  match catalogStat with
  | Some i =>
      if os.IsDir i then
        http.mkRequest (http.URL req)
          (<["If-Modified-Since" := time.FormatHTTP (os.ModTime i)]>
             (http.ReqHeader req))
      else req
  | None => req
  end.

Definition publish (s : os.Sys) (catalogPath : path) (req : http.Request)
    (body : declcfg.stream) (modTime : Time) (w : os.World)
  : Outcome * os.World :=
  let activeSymlinkPath := filepath.Join catalogPath ["active"] in
  let realCatalogPath := filepath.Join catalogPath [time.FormatStamp modTime] in
  let nextSymlinkPath := filepath.Join catalogPath ["next"] in
  match writeCatalog s realCatalogPath body w with
  | (Some err, w) => (mkOutcome None (Some err) (Some req), w)
  | (None, w) =>
  match os.Chtimes s realCatalogPath modTime modTime w with
  | (Some err, w) => (mkOutcome None (Some err) (Some req), w)
  | (None, w) =>
  match os.Symlink s [filepath.Base realCatalogPath] nextSymlinkPath w with
  | (Some err, w) => (mkOutcome None (Some err) (Some req), w)
  | (None, w) =>
  match os.Rename s nextSymlinkPath activeSymlinkPath w with
  | (Some err, w) => (mkOutcome None (Some err) (Some req), w)
  | (None, w) =>
      (mkOutcome (Some (DirFS activeSymlinkPath)) None (Some req), w)
  end end end end.

Definition answer (ParseTime : string → error + Time) (s : os.Sys)
    (catalogPath : path) (req : http.Request) (resp : http.Response)
    (w : os.World) : Outcome * os.World :=
  if bool_decide (http.StatusCode resp = http.StatusNotModified) then
    (mkOutcome (Some (DirFS (filepath.Join catalogPath ["active"]))) None
       (Some req), w)
  else if bool_decide (http.StatusCode resp ≠ http.StatusOK) then
    (mkOutcome None None (Some req), w)
  else
    match ParseTime (http.Get (http.RespHeader resp) "Last-Modified") with
    | inl err => (mkOutcome None (Some err) (Some req), w)
    | inr modTime => publish s catalogPath req (http.Body resp) modTime w
    end.

Definition negotiate (ParseTime : string → error + Time) (env : Env)
    (c : cachingClient) (name : string) (w : os.World) : Outcome * os.World :=
  let catalogPath := catalogPathOf c name in
  let '(st, w) := os.Stat (sys env) (filepath.Join catalogPath ["active"]) w in
  let go (catalogStat : option os.FileInfo) :=
    let req := negotiationRequest c name catalogStat in
    match Do env req with
    | inl err => (mkOutcome None (Some err) (Some req), w)
    | inr resp => answer ParseTime (sys env) catalogPath req resp w
    end in
  match st with
  | inl err =>
      if os.IsNotExist err then go None
      else (mkOutcome None (Some err) None, w)
  | inr i => go (Some i)
  end.

(** ** A sample catalog, for running the program *)

Module Sample.

(** 2024-03-01 15:04:05 UTC, and a wall clock well after it. *)
Definition T0 : Time := 1709305445.
Definition wallClock : Time := 1800000000.

(** A stand-in for [http.ParseTime] that knows the one date used here. *)
Definition ParseTime (s : string) : error + Time :=
  if bool_decide (s = time.FormatHTTP T0) then inr T0 else inl ErrParseTime.

Definition blob (s : string) : bytes := list_byte_of_string s.

(** A stand-in for [json.Unmarshal] on the descriptors used here. *)
Definition Unmarshal (b : bytes) : error + declcfg.PackageT :=
  if bool_decide (b = blob "{icon}") then
    inr (declcfg.mkPackage
           (Some (declcfg.mkIcon (blob "<svg/>") "image/svg+xml")))
  else if bool_decide (b = blob "{}") then inr (declcfg.mkPackage None)
  else inl ErrUnmarshal.

Definition noFaults : os.Sys := os.mkSys wallClock (λ _, None).

(** An empty working directory. *)
Definition emptyDisk : os.World := os.mkWorld {[ [] := NDir 0 ]} [].

Definition cluster (resource name : string)
  : error + catalogd.ClusterCatalog :=
  inr (catalogd.mkClusterCatalog name catalogd.PhaseUnpacked).

Definition envOf (s : os.Sys)
    (remote : http.Request → error + http.Response) : Env :=
  mkEnv s remote cluster.

Definition ok (body : declcfg.stream) : http.Request → error + http.Response :=
  λ _, inr (http.mkResponse http.StatusOK
              {[ "Last-Modified" := time.FormatHTTP T0 ]} body).

Definition status (code : Z) : http.Request → error + http.Response :=
  λ _, inr (http.mkResponse code ∅ []).

Definition client : cachingClient :=
  newCachingClient "cache" "https://localhost:8443".

Definition cat : catalogd.ClusterCatalog :=
  catalogd.mkClusterCatalog "operatorhub" catalogd.PhaseUnpacked.

Definition foo : declcfg.Meta :=
  declcfg.mkMeta declcfg.SchemaPackage "" "foo" (blob "{icon}").
Definition foo' : declcfg.Meta :=
  declcfg.mkMeta declcfg.SchemaPackage "" "foo" (blob "{}").
Definition foo_v1 : declcfg.Meta :=
  declcfg.mkMeta "olm.bundle" "foo" "foo.v1" (blob "{v1}").
Definition foo_v2 : declcfg.Meta :=
  declcfg.mkMeta "olm.bundle" "foo" "foo.v2" (blob "{v2}").
Definition bar : declcfg.Meta :=
  declcfg.mkMeta declcfg.SchemaPackage "" "bar" (blob "{}").
Definition nameless : declcfg.Meta :=
  declcfg.mkMeta declcfg.SchemaPackage "" "" (blob "{}").

Definition catalogPath : path := ["cache"; "clustercatalogs"; "operatorhub"].
Definition active : path := catalogPath ++ ["active"].
Definition snapshot : path := catalogPath ++ ["20240301_150405"].

(** The first negotiation for the catalog: a 200 that is published. *)
Definition first :=
  getCatalogFS ParseTime (envOf noFaults (ok [inr foo; inr bar; inr foo_v1]))
    client cat emptyDisk.
Definition client1 : cachingClient := first.1.2.
Definition disk1 : os.World := first.2.

(** A second one that is answered with a 200 of the same date. *)
Definition again :=
  getCatalogFS ParseTime (envOf noFaults (ok [inr foo'; inr foo_v2]))
    client1 cat disk1.

(** The process restarted on the same disk, 100 other catalogs touched
    (the first of them published), then the catalog asked for again. *)
Definition others : list string :=
  (λ n : nat, "catalog-" +:+ pretty n) <$> seq 0 100.

Definition touch (env : Env) (st : cachingClient * os.World) (name : string)
  : cachingClient * os.World :=
  let r :=
    getCatalogFS ParseTime env st.1
      (catalogd.mkClusterCatalog name catalogd.PhaseUnpacked) st.2 in
  (r.1.2, r.2).

Definition restarted : cachingClient * os.World :=
  fold_left (touch (envOf noFaults (λ _, inl ErrTransport))) (tail others)
    (touch (envOf noFaults (ok [inr bar])) (client, disk1) "catalog-0").

End Sample.

(** ** A second date, for a renewal of the sample catalog *)

Module Renewal.

(** The day after [Sample.T0]. *)
Definition T1 : Time := Sample.T0 + 86400.

Definition ParseTime (s : string) : error + Time :=
  if bool_decide (s = time.FormatHTTP T1) then inr T1 else Sample.ParseTime s.

Definition okAt (T : Time) (body : declcfg.stream)
  : http.Request → error + http.Response :=
  λ _, inr (http.mkResponse http.StatusOK
              {[ "Last-Modified" := time.FormatHTTP T ]} body).

Definition body : declcfg.stream := [inr Sample.foo'; inr Sample.foo_v2].

Definition env : Env := Sample.envOf Sample.noFaults (okAt T1 body).

(** The catalog of the sample, published once, is answered with a 200 of
    the next day. *)
Definition renewed :=
  getCatalogFS ParseTime env Sample.client1 Sample.cat Sample.disk1.

End Renewal.

(** A system whose [n]-th call fails with [e]. *)
Definition faultAt (n : nat) (e : error) : os.Sys :=
  os.mkSys Sample.wallClock (λ k, if bool_decide (k = n) then Some e else None).

Module Stale.

Definition body : declcfg.stream :=
  [inr Sample.foo; inr Sample.bar; inr Sample.foo_v1].

(** The first publication of the sample, cut short by an I/O error in
    the last of its 27 system calls, the [Rename]. *)
Definition interrupted :=
  getCatalogFS Sample.ParseTime
    (Sample.envOf (faultAt 26 EIO) (Sample.ok body))
    Sample.client Sample.cat Sample.emptyDisk.

(** The next call, on a system without faults. *)
Definition retry :=
  getCatalogFS Sample.ParseTime (Sample.envOf Sample.noFaults (Sample.ok body))
    interrupted.1.2 Sample.cat interrupted.2.

End Stale.

(** ** A body that files a record twice *)

Module Twice.

Definition baz_v1 : declcfg.Meta :=
  declcfg.mkMeta "olm.bundle" "baz" "baz.v1" (Sample.blob "{b1}").

(** The descriptor of [foo] comes twice, first without an icon; [baz] has
    a bundle and no descriptor. *)
Definition body : declcfg.stream :=
  [inr Sample.foo'; inr Sample.foo_v1; inr Sample.foo; inr baz_v1].

Definition env : Env := Sample.envOf Sample.noFaults (Sample.ok body).

Definition resp : http.Response :=
  http.mkResponse http.StatusOK
    {[ "Last-Modified" := time.FormatHTTP Sample.T0 ]} body.

(** The first negotiation for the sample catalog, answered with [body]. *)
Definition published :=
  getCatalogFS Sample.ParseTime env Sample.client Sample.cat Sample.emptyDisk.

End Twice.

(** * Properties *)

(** ** System calls *)

Lemma sysW_ok s k w w' :
  os.sysW s k w = (None, w') →
  os.fault s (os.ticks w) = None
  ∧ k (os.files w) = inr (os.files w')
  ∧ os.past w' = os.files w :: os.past w.
Proof.
  unfold os.sysW. intros H.
  destruct (os.fault s (os.ticks w)); [discriminate|].
  destruct (k (os.files w)) as [e|t] eqn:Hk; [discriminate|].
  by simplify_eq/=.
Qed.

Lemma sysW_err s k w w' e :
  os.sysW s k w = (Some e, w') →
  os.files w' = os.files w ∧ os.past w' = os.files w :: os.past w.
Proof.
  unfold os.sysW. intros H.
  destruct (os.fault s (os.ticks w)); [by simplify_eq/=|].
  destruct (k (os.files w)); by simplify_eq/=.
Qed.

Lemma sysR_world {A} (s : os.Sys) (k : tree → error + A) w r w' :
  os.sysR s k w = (r, w') →
  os.files w' = os.files w ∧ os.past w' = os.files w :: os.past w.
Proof.
  unfold os.sysR. intros H.
  destruct (os.fault s (os.ticks w)); by simplify_eq/=.
Qed.

Lemma sysR_nofault {A} (s : os.Sys) (k : tree → error + A) w :
  os.fault s (os.ticks w) = None →
  (os.sysR s k w).1 = k (os.files w).
Proof. unfold os.sysR. by intros ->. Qed.

(** ** The stages of [getCatalogFS] *)

Lemma lruAdd_config (s : os.Sys) (k : string) (v : path)
    (c c' : cachingClient) (w w' : os.World) :
  lruAdd s k v c w = (c', w') →
  baseURL c' = baseURL c ∧ cacheDir c' = cacheDir c.
Proof.
  unfold lruAdd. destruct (expirable.Add _ _ _ _) as [l ev].
  intros H. by simplify_eq/=.
Qed.

Lemma catalogPathOf_config (c c' : cachingClient) (name : string) :
  cacheDir c' = cacheDir c → catalogPathOf c' name = catalogPathOf c name.
Proof. unfold catalogPathOf. by intros ->. Qed.

Lemma getCatalogFS_stages (ParseTime : string → error + Time) (env : Env)
    (c : cachingClient) (cat : catalogd.ClusterCatalog) (w : os.World) :
  getCatalogFS ParseTime env c cat w
  = let name := catalogd.GetName cat in
    let '(c1, w1) := lruAdd (sys env) name (catalogPathOf c name) c w in
    let '(out, w2) := negotiate ParseTime env c1 name w1 in
    (out, c1, w2).
Proof.
  unfold getCatalogFS, negotiate, answer, publish, negotiationRequest. simpl.
  destruct (lruAdd _ _ _ c w) as [c1 w1] eqn:Hadd.
  apply lruAdd_config in Hadd as [Hb Hc].
  rewrite (catalogPathOf_config c c1 _ Hc).
  repeat (case_match; simplify_eq/=); try reflexivity; try congruence.
Qed.

(** ** Paths *)

Lemma string_app_cons (c : ascii) (s t : string) :
  String c s +:+ t = String c (s +:+ t).
Proof. reflexivity. Qed.

Lemma string_app_nil_r (s : string) : s +:+ "" = s.
Proof.
  induction s as [|c s IH]; [done|]. by rewrite string_app_cons, IH.
Qed.

Lemma rev_app_rev_app (s a b : string) :
  String.rev_app (String.rev_app s a) b = String.rev_app a (s +:+ b).
Proof.
  revert a b. induction s as [|c s IH]; intros a b; simpl; [done|].
  by rewrite IH, string_app_cons.
Qed.

Lemma string_rev_involutive (s : string) : String.rev (String.rev s) = s.
Proof.
  unfold String.rev. rewrite rev_app_rev_app. simpl.
  apply string_app_nil_r.
Qed.

Lemma splitSlash_go_noSlash (cur s : string) :
  noSlash s = true →
  filepath.splitSlash_go cur s = [String.rev (String.rev_app s cur)].
Proof.
  revert cur. induction s as [|c s IH]; intros cur H; simpl in *; [done|].
  apply andb_prop in H as [Hc Hs].
  case_bool_decide; [done|]. by apply IH.
Qed.

Lemma splitSlash_noSlash (s : string) :
  noSlash s = true → filepath.splitSlash s = [s].
Proof.
  intros H. unfold filepath.splitSlash.
  rewrite splitSlash_go_noSlash by done.
  by rewrite <-(string_rev_involutive s) at 2.
Qed.

Lemma plainName_inv (s : string) :
  plainName s = true → noSlash s = true ∧ s ≠ "" ∧ s ≠ "." ∧ s ≠ "..".
Proof.
  unfold plainName. rewrite !andb_true_iff, !negb_true_iff.
  rewrite !bool_decide_eq_false. tauto.
Qed.

Lemma cleanStep_plain (acc : path) (s : string) :
  plainName s = true → filepath.cleanStep acc s = acc ++ [s].
Proof.
  intros (_ & H1 & H2 & H3)%plainName_inv. unfold filepath.cleanStep.
  by rewrite !bool_decide_eq_false_2 by done.
Qed.

Lemma Join_snoc (base : path) (elems : list string) (s : string) :
  plainName s = true →
  filepath.Join base (elems ++ [s]) = filepath.Join base elems ++ [s].
Proof.
  intros H. unfold filepath.Join.
  rewrite flat_map_app, fold_left_app. simpl.
  rewrite app_nil_r, splitSlash_noSlash by (by apply plainName_inv). simpl.
  by rewrite cleanStep_plain.
Qed.

Lemma Join_plain1 (base : path) (s : string) :
  plainName s = true → filepath.Join base [s] = base ++ [s].
Proof. intros H. apply (Join_snoc base [] s H). Qed.

Lemma Dir_snoc (p : path) (s : string) : filepath.Dir (p ++ [s]) = p.
Proof. unfold filepath.Dir. apply removelast_last. Qed.

Lemma Base_snoc (p : path) (s : string) : filepath.Base (p ++ [s]) = s.
Proof. unfold filepath.Base. by rewrite last_snoc. Qed.

Lemma catalogPathOf_plain (c : cachingClient) (name : string) :
  plainName name = true →
  catalogPathOf c name
  = filepath.Join [] [cacheDir c] ++ ["clustercatalogs"; name].
Proof.
  intros H. unfold catalogPathOf.
  change [cacheDir c; "clustercatalogs"; name]
    with (([cacheDir c] ++ ["clustercatalogs"]) ++ [name]).
  rewrite Join_snoc, Join_snoc by done. by rewrite <-app_assoc.
Qed.

Lemma activePathOf_eq (c : cachingClient) (name : string) :
  activePathOf c name = catalogPathOf c name ++ ["active"].
Proof. unfold activePathOf. by rewrite Join_plain1. Qed.

(** ** Removal and eviction *)

Lemma touchDir_lookup_ne (now : Time) (d q : path) (t : tree) :
  q ≠ d → os.touchDir now d t !! q = t !! q.
Proof.
  intros Hne. unfold os.touchDir.
  destruct (t !! d) as [[]|]; try done. by rewrite lookup_insert_ne.
Qed.

Lemma touchDir_lookup_None (now : Time) (d q : path) (t : tree) :
  t !! q = None → os.touchDir now d t !! q = None.
Proof.
  intros Hq. destruct (decide (q = d)) as [->|Hne].
  - unfold os.touchDir. by rewrite Hq.
  - by rewrite touchDir_lookup_ne.
Qed.

Lemma removeAll_lookup_under (now : Time) (p q : path) (t : tree) :
  p `prefix_of` q → os.removeAll_k now p t !! q = None.
Proof.
  intros Hpq. unfold os.removeAll_k.
  assert (filter (λ kv : path * node, ¬ p `prefix_of` kv.1) t !! q = None) as Hf.
  { apply map_lookup_filter_None. right. intros n _. simpl. tauto. }
  destruct (t !! p); [by apply touchDir_lookup_None|done].
Qed.

Lemma removeAll_lookup_other (now : Time) (p q : path) (t : tree) :
  ¬ p `prefix_of` q → q ≠ filepath.Dir p →
  os.removeAll_k now p t !! q = t !! q.
Proof.
  intros Hpq Hne. unfold os.removeAll_k.
  assert (filter (λ kv : path * node, ¬ p `prefix_of` kv.1) t !! q = t !! q) as Hf.
  { destruct (t !! q) as [n|] eqn:Hq.
    - by apply map_lookup_filter_Some.
    - apply map_lookup_filter_None. by left. }
  destruct (t !! p); [by rewrite touchDir_lookup_ne|done].
Qed.

Lemma touchDir_lookup_Some (now : Time) (d q : path) (t : tree) (n : node) :
  os.touchDir now d t !! q = Some n → is_Some (t !! q).
Proof.
  unfold os.touchDir. destruct (t !! d) as [[]|] eqn:Hd; eauto.
  destruct (decide (d = q)) as [->|Hne]; [eauto|].
  rewrite lookup_insert_ne by done. eauto.
Qed.

Lemma touchDir_lookup_notdir (now : Time) (d q : path) (t : tree) (n : node) :
  os.isDirNode n = false →
  os.touchDir now d t !! q = Some n → t !! q = Some n.
Proof.
  unfold os.touchDir. intros Hn. destruct (t !! d) as [[]|] eqn:Hd; eauto.
  destruct (decide (d = q)) as [->|Hne].
  - rewrite lookup_insert_eq. intros ?; simplify_eq/=.
  - by rewrite lookup_insert_ne.
Qed.

Lemma removeAll_lookup_Some (now : Time) (p q : path) (t : tree) (n : node) :
  os.removeAll_k now p t !! q = Some n → is_Some (t !! q).
Proof.
  unfold os.removeAll_k. intros H.
  assert (is_Some (filter (λ kv : path * node, ¬ p `prefix_of` kv.1) t !! q))
    as [n' [Hn' _]%map_lookup_filter_Some]; [|eauto].
  destruct (t !! p); [by eapply touchDir_lookup_Some|eauto].
Qed.

Lemma removeAll_lookup_notdir (now : Time) (p q : path) (t : tree) (n : node) :
  os.isDirNode n = false →
  os.removeAll_k now p t !! q = Some n → t !! q = Some n.
Proof.
  unfold os.removeAll_k. intros Hn H.
  assert (filter (λ kv : path * node, ¬ p `prefix_of` kv.1) t !! q = Some n)
    as [Hn' _]%map_lookup_filter_Some; [|done].
  destruct (t !! p); [by eapply touchDir_lookup_notdir|done].
Qed.

(** ** The LRU *)

Lemma Add_evicted (now : Time) (k : string) (v : path) (c l : expirable.LRU)
    (e : expirable.entry) :
  expirable.Add now k v c = (l, Some e) →
  existsb (expirable.hasKey k) (expirable.evictList c) = false
  ∧ last (expirable.evictList c) = Some e
  ∧ (expirable.size c ≤ length (expirable.evictList c))%nat.
Proof.
  unfold expirable.Add.
  destruct (existsb _ _) eqn:Hex; [by intros ?; simplify_eq|].
  destruct (bool_decide (0 < expirable.size c)%nat && _) eqn:Hfull;
    [|by intros ?; simplify_eq].
  apply andb_prop in Hfull as [Hpos%bool_decide_eq_true Hlen%bool_decide_eq_true].
  intros ?; simplify_eq/=.
  destruct (expirable.evictList c) as [|e0 l0] eqn:Hl; simpl in *; [lia|].
  split_and!; [done| |lia].
  done.
Qed.

Lemma Add_existing (now : Time) (k : string) (v : path) (c : expirable.LRU) :
  existsb (expirable.hasKey k) (expirable.evictList c) = true →
  (expirable.Add now k v c).2 = None.
Proof. unfold expirable.Add. by intros ->. Qed.

Lemma Add_hasKey (now : Time) (k : string) (v : path) (c : expirable.LRU) :
  (0 < expirable.size c)%nat →
  existsb (expirable.hasKey k)
    (expirable.evictList (expirable.Add now k v c).1) = true.
Proof.
  intros Hsz. unfold expirable.Add.
  destruct (existsb (expirable.hasKey k) (expirable.evictList c)) eqn:Hex; simpl.
  { unfold expirable.hasKey. simpl. by rewrite bool_decide_eq_true_2. }
  rewrite (bool_decide_eq_true_2 _ Hsz). simpl.
  case_bool_decide as Hlen; simpl.
  - destruct (expirable.evictList c) as [|e0 l0]; simpl in *; [lia|].
    unfold expirable.hasKey. simpl. by rewrite bool_decide_eq_true_2.
  - unfold expirable.hasKey. simpl. by rewrite bool_decide_eq_true_2.
Qed.

Lemma existsb_hasKey_false (k : string) (l : list expirable.entry)
    (e : expirable.entry) :
  existsb (expirable.hasKey k) l = false → e ∈ l → expirable.key e ≠ k.
Proof.
  intros Hex He Hk.
  assert (existsb (expirable.hasKey k) l = true); [|congruence].
  apply existsb_exists. exists e. split; [by apply list_elem_of_In|].
  unfold expirable.hasKey. by apply bool_decide_eq_true.
Qed.

Lemma last_elem_of {A} (l : list A) (x : A) : last l = Some x → x ∈ l.
Proof.
  intros H. apply last_Some in H as [l' ->]. set_solver.
Qed.

(** What [c.lru.Add] does to the disk: nothing, or the removal of the
    directory of another tracked catalog. *)
Lemma lruAdd_world (s : os.Sys) (k : string) (v : path)
    (c c' : cachingClient) (w w' : os.World) :
  lruAdd s k v c w = (c', w') →
  w' = w
  ∨ ∃ e, last (expirable.evictList (lru c)) = Some e
         ∧ expirable.key e ≠ k
         ∧ (expirable.size (lru c) ≤ length (expirable.evictList (lru c)))%nat
         ∧ w' = os.RemoveAll s (expirable.value e) w.
Proof.
  unfold lruAdd.
  destruct (expirable.Add _ _ _ _) as [l [e|]] eqn:Hadd;
    intros ?; simplify_eq/=; [|by left].
  apply Add_evicted in Hadd as (Hex & Hlast & Hsz).
  right. exists e. split_and!; try done.
  eapply existsb_hasKey_false; [done|]. by apply last_elem_of.
Qed.

Lemma lruAdd_tracked (s : os.Sys) (k : string) (v : path)
    (c : cachingClient) (w : os.World) :
  existsb (expirable.hasKey k) (expirable.evictList (lru c)) = true →
  (lruAdd s k v c w).2 = w.
Proof.
  intros H. unfold lruAdd.
  pose proof (Add_existing (os.now s) k v (lru c) H) as Hn.
  destruct (expirable.Add _ _ _ _) as [l ev]. simpl in *. by subst.
Qed.

Lemma tracks_elem (c : cachingClient) (e : expirable.entry) :
  tracks c = true → e ∈ expirable.evictList (lru c) →
  plainName (expirable.key e) = true
  ∧ expirable.value e = catalogPathOf c (expirable.key e).
Proof.
  unfold tracks. rewrite forallb_forall. intros H He%list_elem_of_In.
  specialize (H e He). apply andb_prop in H as [? ?%bool_decide_eq_true]. done.
Qed.

(** Catalogs with different names have disjoint directories. *)
Lemma catalogPathOf_disjoint (c : cachingClient) (k k' : string) (q : path) :
  plainName k = true → plainName k' = true → k ≠ k' →
  catalogPathOf c k `prefix_of` q → ¬ catalogPathOf c k' `prefix_of` q.
Proof.
  intros Hk Hk' Hne [r ->] [r' Hr'].
  rewrite !catalogPathOf_plain in Hr' by done.
  rewrite <-!app_assoc in Hr'. apply app_inv_head in Hr'.
  simpl in Hr'. congruence.
Qed.

Lemma catalogPathOf_not_parent (c : cachingClient) (k k' : string) (q : path) :
  plainName k = true → plainName k' = true →
  catalogPathOf c k `prefix_of` q → q ≠ filepath.Dir (catalogPathOf c k').
Proof.
  intros Hk Hk' [r ->] Heq.
  rewrite !catalogPathOf_plain in Heq by done.
  change ["clustercatalogs"; k'] with (["clustercatalogs"] ++ [k']) in Heq.
  rewrite app_assoc, Dir_snoc in Heq.
  apply (f_equal length) in Heq. rewrite !length_app in Heq. simpl in Heq. lia.
Qed.

(** Touching a catalog leaves the directory of that catalog as it is. *)
Lemma lruAdd_subtree (s : os.Sys) (name : string)
    (c c' : cachingClient) (w w' : os.World) (q : path) :
  tracks c = true → plainName name = true →
  lruAdd s name (catalogPathOf c name) c w = (c', w') →
  catalogPathOf c name `prefix_of` q →
  os.files w' !! q = os.files w !! q.
Proof.
  intros Htr Hname Hadd Hq.
  apply lruAdd_world in Hadd as [->|(e & Hlast & Hne & _ & ->)]; [done|].
  apply last_elem_of in Hlast.
  destruct (tracks_elem c e Htr Hlast) as [Hplain Hval].
  simpl. rewrite Hval. apply removeAll_lookup_other.
  - apply (catalogPathOf_disjoint c name (expirable.key e) q); auto.
  - by apply (catalogPathOf_not_parent c name (expirable.key e) q).
Qed.

(** ** The negotiation *)

Lemma negotiate_answered (ParseTime : string → error + Time) (env : Env)
    (c : cachingClient) (name : string) (w w' : os.World) (out : Outcome)
    (req : http.Request) (resp : http.Response) :
  negotiate ParseTime env c name w = (out, w') →
  sent out = Some req →
  Do env req = inr resp →
  ∃ w1, os.files w1 = os.files w
        ∧ answer ParseTime (sys env) (catalogPathOf c name) req resp w1
          = (out, w').
Proof.
  unfold negotiate.
  destruct (os.Stat _ _ w) as [st w1] eqn:Hst.
  apply sysR_world in Hst as [Hf _].
  intros H Hs Hd. exists w1. split; [done|].
  assert (∀ cs,
    match Do env (negotiationRequest c name cs) with
    | inl err => (mkOutcome None (Some err) (Some (negotiationRequest c name cs)), w1)
    | inr resp0 => answer ParseTime (sys env) (catalogPathOf c name)
                     (negotiationRequest c name cs) resp0 w1
    end = (out, w') →
    answer ParseTime (sys env) (catalogPathOf c name) req resp w1 = (out, w'))
    as Hgo.
  { intros cs Hcs.
    destruct (Do env (negotiationRequest c name cs)) as [e|resp0] eqn:Hdo.
    - simplify_eq/=. congruence.
    - assert (sent out = Some (negotiationRequest c name cs)) as Hsent.
      { revert Hcs. unfold answer, publish.
        repeat case_match; intros ?; by simplify_eq/=. }
      rewrite Hs in Hsent. simplify_eq. by rewrite Hd in Hdo; simplify_eq. }
  destruct st as [e|i]; [|by eapply Hgo].
  destruct (os.IsNotExist e); [by eapply Hgo|].
  by simplify_eq/=.
Qed.

Lemma getCatalogFS_answered (ParseTime : string → error + Time) (env : Env)
    (c c' : cachingClient) (cat : catalogd.ClusterCatalog) (w w' : os.World)
    (out : Outcome) (req : http.Request) (resp : http.Response) :
  getCatalogFS ParseTime env c cat w = (out, c', w') →
  sent out = Some req →
  Do env req = inr resp →
  ∃ w0 w1,
    lruAdd (sys env) (catalogd.GetName cat)
      (catalogPathOf c (catalogd.GetName cat)) c w = (c', w0)
    ∧ os.files w1 = os.files w0
    ∧ answer ParseTime (sys env) (catalogPathOf c (catalogd.GetName cat))
        req resp w1 = (out, w').
Proof.
  rewrite getCatalogFS_stages. simpl.
  destruct (lruAdd _ _ _ c w) as [c1 w0] eqn:Hadd.
  destruct (negotiate _ _ _ _ _) as [out1 w2] eqn:Hneg.
  intros ? Hs Hd; simplify_eq.
  eapply negotiate_answered in Hneg as (w1 & Hf & Hans); [|done..].
  exists w0, w1. split_and!; [done..|].
  apply lruAdd_config in Hadd as [_ Hc].
  by rewrite <-(catalogPathOf_config c c' _ Hc).
Qed.

Lemma lruAdd_files (s : os.Sys) (k : string) (v : path)
    (c c' : cachingClient) (w w' : os.World) :
  lruAdd s k v c w = (c', w') →
  os.files w' = os.files w
  ∨ ∃ e, last (expirable.evictList (lru c)) = Some e
         ∧ expirable.key e ≠ k
         ∧ (expirable.size (lru c) ≤ length (expirable.evictList (lru c)))%nat
         ∧ os.files w' = os.removeAll_k (os.now s) (expirable.value e) (os.files w).
Proof.
  intros [->|(e & ? & ? & ? & ->)]%lruAdd_world; [by left|].
  right. by exists e.
Qed.

Lemma lruAdd_creates_nothing (s : os.Sys) (k : string) (v : path)
    (c c' : cachingClient) (w w' : os.World) :
  lruAdd s k v c w = (c', w') →
  (∀ q, is_Some (os.files w' !! q) → is_Some (os.files w !! q))
  ∧ (∀ q n, os.isDirNode n = false →
            os.files w' !! q = Some n → os.files w !! q = Some n).
Proof.
  intros [->|(e & _ & _ & _ & ->)]%lruAdd_files; [done|].
  split.
  - intros q [n Hn]. by eapply removeAll_lookup_Some.
  - intros q n Hn. by apply removeAll_lookup_notdir.
Qed.

(** C3.  When the remote source answers with a status that is neither 200
    nor 304, [getCatalogFS] returns no view and no error: the [err] it
    returns is the nil error of the successful [httpClient.Do].  From the
    response on, nothing on disk is changed: the tree is the one the touch
    of the LRU has left. *)
Theorem getCatalogFS_unexpected_status
    (ParseTime : string → error + Time) (env : Env) (c c' : cachingClient)
    (cat : catalogd.ClusterCatalog) (w w' : os.World) (out : Outcome)
    (req : http.Request) (resp : http.Response) :
  getCatalogFS ParseTime env c cat w = (out, c', w') →
  sent out = Some req →
  Do env req = inr resp →
  http.StatusCode resp ≠ http.StatusNotModified →
  http.StatusCode resp ≠ http.StatusOK →
  fsys out = None ∧ err out = None
  ∧ os.files w'
    = os.files (lruAdd (sys env) (catalogd.GetName cat)
                  (catalogPathOf c (catalogd.GetName cat)) c w).2.
Proof.
  intros H Hs Hd H304 H200.
  eapply getCatalogFS_answered in H as (w0 & w1 & Hadd & Hf & Hans); [|done..].
  rewrite Hadd. simpl. unfold answer in Hans.
  rewrite bool_decide_eq_false_2, bool_decide_eq_true_2 in Hans by done.
  by simplify_eq/=.
Qed.

(** C5, as amended.  A call that receives a 304 returns the view rooted at
    the active pointer and no error.  The only change of the disk during
    the call is the one the eviction callback makes when the touch of the
    LRU displaces the oldest entry, the directory of another catalog being
    removed; nothing is created, no file is altered, and the directory of
    the catalog itself, the active snapshot included, is unchanged.  When
    the catalog is already tracked the disk is not changed at all. *)
Theorem getCatalogFS_not_modified
    (ParseTime : string → error + Time) (env : Env) (c c' : cachingClient)
    (cat : catalogd.ClusterCatalog) (w w' : os.World) (out : Outcome)
    (req : http.Request) (resp : http.Response) :
  tracks c = true →
  plainName (catalogd.GetName cat) = true →
  getCatalogFS ParseTime env c cat w = (out, c', w') →
  sent out = Some req →
  Do env req = inr resp →
  http.StatusCode resp = http.StatusNotModified →
  fsys out = Some (DirFS (activePathOf c (catalogd.GetName cat)))
  ∧ err out = None
  ∧ (os.files w' = os.files w
     ∨ ∃ e, last (expirable.evictList (lru c)) = Some e
            ∧ expirable.key e ≠ catalogd.GetName cat
            ∧ (expirable.size (lru c)
               ≤ length (expirable.evictList (lru c)))%nat
            ∧ os.files w'
              = os.removeAll_k (os.now (sys env)) (expirable.value e)
                  (os.files w))
  ∧ (existsb (expirable.hasKey (catalogd.GetName cat))
       (expirable.evictList (lru c)) = true →
     os.files w' = os.files w)
  ∧ (∀ q, is_Some (os.files w' !! q) → is_Some (os.files w !! q))
  ∧ (∀ q m d, os.files w' !! q = Some (NFile m d) →
              os.files w !! q = Some (NFile m d))
  ∧ (∀ q, catalogPathOf c (catalogd.GetName cat) `prefix_of` q →
          os.files w' !! q = os.files w !! q).
Proof.
  intros Htr Hname H Hs Hd H304.
  eapply getCatalogFS_answered in H as (w0 & w1 & Hadd & Hf & Hans); [|done..].
  unfold answer in Hans. rewrite bool_decide_eq_true_2 in Hans by done.
  simplify_eq/=. rewrite Hf.
  split_and!; try done.
  - by eapply lruAdd_files.
  - intros Hex. by rewrite (surjective_pairing (lruAdd _ _ _ _ _)) in Hadd;
      simplify_eq; rewrite lruAdd_tracked.
  - by eapply lruAdd_creates_nothing.
  - intros q m d. by eapply lruAdd_creates_nothing.
  - intros q Hq. by eapply lruAdd_subtree.
Qed.

(** C10.  A 200 response without a parseable [Last-Modified] makes
    [getCatalogFS] return the parse error and no view, before anything is
    written: no path is created, no file is altered, and the active
    pointer of the catalog is as it was. *)
Theorem getCatalogFS_bad_last_modified
    (ParseTime : string → error + Time) (env : Env) (c c' : cachingClient)
    (cat : catalogd.ClusterCatalog) (w w' : os.World) (out : Outcome)
    (req : http.Request) (resp : http.Response) (e : error) :
  tracks c = true →
  plainName (catalogd.GetName cat) = true →
  getCatalogFS ParseTime env c cat w = (out, c', w') →
  sent out = Some req →
  Do env req = inr resp →
  http.StatusCode resp = http.StatusOK →
  ParseTime (http.Get (http.RespHeader resp) "Last-Modified") = inl e →
  err out = Some e
  ∧ fsys out = None
  ∧ (∀ q, is_Some (os.files w' !! q) → is_Some (os.files w !! q))
  ∧ (∀ q m d, os.files w' !! q = Some (NFile m d) →
              os.files w !! q = Some (NFile m d))
  ∧ os.files w' !! activePathOf c (catalogd.GetName cat)
    = os.files w !! activePathOf c (catalogd.GetName cat).
Proof.
  intros Htr Hname H Hs Hd H200 Hparse.
  eapply getCatalogFS_answered in H as (w0 & w1 & Hadd & Hf & Hans); [|done..].
  unfold answer in Hans. rewrite H200 in Hans. simpl in Hans.
  rewrite Hparse in Hans. simplify_eq/=. rewrite Hf.
  split_and!; try done.
  - by eapply lruAdd_creates_nothing.
  - intros q m d. by eapply lruAdd_creates_nothing.
  - eapply lruAdd_subtree; [done..|]. rewrite activePathOf_eq.
    by apply prefix_app_r.
Qed.

(** ** What the writing calls preserve *)

Lemma WalkMetasReader_preserves {S : Type} (P : S → S → Prop)
    (r : declcfg.stream) (walkFn : error + declcfg.Meta → S → option error * S)
    (s s' : S) (o : option error) :
  (∀ x, P x x) →
  (∀ x y z, P x y → P y z → P x z) →
  (∀ item x o y, item ∈ r → walkFn item x = (o, y) → P x y) →
  declcfg.WalkMetasReader r walkFn s = (o, s') → P s s'.
Proof.
  intros Hrefl Htrans. revert s.
  induction r as [|[e|m] r IH]; intros s Hfn; simpl.
  - intros ?; by simplify_eq.
  - apply Hfn. set_solver.
  - destruct (walkFn (inr m) s) as [[e|] s1] eqn:H1.
    + intros ?; simplify_eq. eapply Hfn; [|done]. set_solver.
    + intros H2. eapply Htrans.
      * eapply Hfn; [|done]. set_solver.
      * apply IH; [|done]. intros item x o' y ?. apply Hfn. set_solver.
Qed.

Section Preserve.

(** A relation between the tree before and after, closed under doing
    nothing and under composition. *)
Context (R : relation tree) `{!PreOrder R}.

Lemma sysW_preserves (s : os.Sys) (k : tree → error + tree)
    (w w' : os.World) (r : option error) :
  (∀ t t', k t = inr t' → R t t') →
  os.sysW s k w = (r, w') → R (os.files w) (os.files w').
Proof.
  intros Hk H. destruct r as [e|].
  - apply sysW_err in H as [-> _]. reflexivity.
  - apply sysW_ok in H as (_ & H & _). by apply Hk.
Qed.

Lemma sysR_preserves {A} (s : os.Sys) (k : tree → error + A)
    (w w' : os.World) (r : error + A) :
  os.sysR s k w = (r, w') → R (os.files w) (os.files w').
Proof. intros [-> _]%sysR_world. reflexivity. Qed.

Lemma MkdirAll_rev_preserves (s : os.Sys) (rp : list string)
    (w w' : os.World) (r : option error) :
  (∀ p, p `prefix_of` rev rp →
        ∀ t t', os.mkdir_k (os.now s) p t = inr t' → R t t') →
  os.MkdirAll_rev s rp w = (r, w') → R (os.files w) (os.files w').
Proof.
  revert w w' r. induction rp as [|x rp IH]; intros w w' r Hk; simpl.
  - destruct (os.Stat s [] w) as [[e|dir] w1] eqn:Hst;
      apply sysR_preserves in Hst.
    + destruct (os.Mkdir s [] w1) as [[e1|] w3] eqn:Hmk.
      * apply (sysW_preserves s _ _ _ _ (Hk [] ltac:(done))) in Hmk.
        destruct (os.Lstat s [] w3) as [[e2|dir] w4] eqn:Hl;
          apply sysR_preserves in Hl;
          repeat case_match; intros ?; simplify_eq;
          (etrans; [done|]); by etrans.
      * apply (sysW_preserves s _ _ _ _ (Hk [] ltac:(done))) in Hmk.
        intros ?; simplify_eq. by etrans.
    + case_match; intros ?; by simplify_eq.
  - destruct (os.Stat s (rev rp ++ [x]) w) as [[e|dir] w1] eqn:Hst;
      apply sysR_preserves in Hst;
      [|case_match; intros ?; by simplify_eq].
    assert (∃ perr w2,
      match rp with
      | [] => (None, w1)
      | _ :: _ => os.MkdirAll_rev s rp w1
      end = (perr, w2) ∧ R (os.files w1) (os.files w2))
      as (perr & w2 & -> & Hpar).
    { destruct rp as [|y rp'] eqn:Hrp; [by eexists _, _|].
      rewrite <-Hrp in *.
      destruct (os.MkdirAll_rev s rp w1) as [perr w2] eqn:Hrec.
      exists perr, w2. split; [done|].
      eapply IH; [|done]. intros p Hp. apply Hk.
      simpl. by apply prefix_app_r. }
    destruct perr as [e1|]; [intros ?; simplify_eq; by etrans|].
    destruct (os.Mkdir s (rev rp ++ [x]) w2) as [[e1|] w3] eqn:Hmk;
      apply (sysW_preserves s _ _ _ _ (Hk _ ltac:(done))) in Hmk.
    + destruct (os.Lstat s (rev rp ++ [x]) w3) as [[e2|dir] w4] eqn:Hl;
        apply sysR_preserves in Hl;
        repeat case_match; intros ?; simplify_eq;
        (etrans; [done|]); (etrans; [done|]); by etrans.
    + intros ?; simplify_eq. (etrans; [done|]); by etrans.
Qed.

Lemma MkdirAll_preserves (s : os.Sys) (p : path)
    (w w' : os.World) (r : option error) :
  (∀ q, q `prefix_of` p →
        ∀ t t', os.mkdir_k (os.now s) q t = inr t' → R t t') →
  os.MkdirAll s p w = (r, w') → R (os.files w) (os.files w').
Proof.
  intros Hk. apply MkdirAll_rev_preserves. by rewrite rev_involutive.
Qed.

Lemma walkFn_preserves (s : os.Sys) (dir : path)
    (item : error + declcfg.Meta) (w w' : os.World) (r : option error) :
  (∀ m q, item = inr m → q `prefix_of` filepath.Dir (filingPath dir m) →
          ∀ t t', os.mkdir_k (os.now s) q t = inr t' → R t t') →
  (∀ m, item = inr m →
        ∀ t t', os.writeFile_k (os.now s) (filingPath dir m)
                  (declcfg.Blob m) t = inr t' → R t t') →
  writeCatalog_walkFn s dir item w = (r, w') → R (os.files w) (os.files w').
Proof.
  intros Hmk Hwr. unfold writeCatalog_walkFn.
  destruct item as [e|m]; [intros ?; simplify_eq; reflexivity|].
  destruct (os.MkdirAll _ _ w) as [[e|] w1] eqn:Hm;
    apply (MkdirAll_preserves _ _ _ _ _ (λ q, Hmk m q eq_refl)) in Hm;
    [intros ?; by simplify_eq|].
  destruct (os.WriteFile _ _ _ w1) as [[e|] w2] eqn:Hw;
    apply (sysW_preserves _ _ _ _ _ (Hwr m eq_refl)) in Hw;
    intros ?; simplify_eq; by etrans.
Qed.

Lemma writeCatalog_preserves (s : os.Sys) (dir : path)
    (body : declcfg.stream) (w w' : os.World) (r : option error) :
  (∀ m q, inr m ∈ body → q `prefix_of` filepath.Dir (filingPath dir m) →
          ∀ t t', os.mkdir_k (os.now s) q t = inr t' → R t t') →
  (∀ m, inr m ∈ body →
        ∀ t t', os.writeFile_k (os.now s) (filingPath dir m)
                  (declcfg.Blob m) t = inr t' → R t t') →
  writeCatalog s dir body w = (r, w') → R (os.files w) (os.files w').
Proof.
  intros Hmk Hwr. unfold writeCatalog.
  apply (WalkMetasReader_preserves (λ w w', R (os.files w) (os.files w'))).
  - intros x. reflexivity.
  - intros x y z ??. by etrans.
  - intros item w0 o w0' Hin. apply walkFn_preserves.
    + intros m q ->. by apply Hmk.
    + intros m ->. by apply Hwr.
Qed.

End Preserve.

(** *** Links are left alone by everything but [Rename] and [RemoveAll] *)

Global Instance keepsLinks_preorder : PreOrder keepsLinks.
Proof.
  split; [by intros t p tgt ?|]. intros t1 t2 t3 H1 H2 p tgt ?. eauto.
Qed.

Lemma touchDir_keepsLinks (now : Time) (d : path) (t : tree) :
  keepsLinks t (os.touchDir now d t).
Proof.
  intros p tgt Hp. destruct (decide (p = d)) as [<-|Hne].
  - unfold os.touchDir. by rewrite Hp.
  - by rewrite touchDir_lookup_ne.
Qed.

Lemma insert_keepsLinks (t : tree) (q : path) (n : node) :
  (∀ tgt, t !! q ≠ Some (NLink tgt)) → keepsLinks t (<[q := n]> t).
Proof.
  intros Hq p tgt Hp. destruct (decide (q = p)) as [->|Hne].
  - by destruct (Hq tgt).
  - by rewrite lookup_insert_ne.
Qed.

Lemma mkdir_keepsLinks (now : Time) (p : path) (t t' : tree) :
  os.mkdir_k now p t = inr t' → keepsLinks t t'.
Proof.
  unfold os.mkdir_k. destruct (t !! p) eqn:Hp; [done|].
  destruct (os.parentCheck t p); [done|]. intros ?; simplify_eq.
  etrans; [apply touchDir_keepsLinks|]. apply insert_keepsLinks.
  intros tgt. by rewrite touchDir_lookup_None.
Qed.

Lemma writeFile_keepsLinks (now : Time) (p : path) (d : bytes) (t t' : tree) :
  os.writeFile_k now p d t = inr t' → keepsLinks t t'.
Proof.
  unfold os.writeFile_k.
  destruct (t !! os.deref t p) as [[]|] eqn:Hq; try done.
  - intros ?; simplify_eq. apply insert_keepsLinks. by rewrite Hq.
  - destruct (os.parentCheck t _); [done|]. intros ?; simplify_eq.
    etrans; [apply touchDir_keepsLinks|]. apply insert_keepsLinks.
    intros tgt. by rewrite touchDir_lookup_None.
Qed.

Lemma chtimes_keepsLinks (p : path) (m : Time) (t t' : tree) :
  os.chtimes_k p m t = inr t' → keepsLinks t t'.
Proof.
  unfold os.chtimes_k.
  destruct (t !! os.deref t p) as [[]|] eqn:Hq; try done;
    intros ?; simplify_eq; apply insert_keepsLinks; by rewrite Hq.
Qed.

Lemma symlink_keepsLinks (now : Time) (tgt link : path) (t t' : tree) :
  os.symlink_k now tgt link t = inr t' → keepsLinks t t'.
Proof.
  unfold os.symlink_k. destruct (t !! link) eqn:Hp; [done|].
  destruct (os.parentCheck t link); [done|]. intros ?; simplify_eq.
  etrans; [apply touchDir_keepsLinks|]. apply insert_keepsLinks.
  intros tgt'. by rewrite touchDir_lookup_None.
Qed.

Lemma writeCatalog_keepsLinks (s : os.Sys) (dir : path)
    (body : declcfg.stream) (w w' : os.World) (r : option error) :
  writeCatalog s dir body w = (r, w') → keepsLinks (os.files w) (os.files w').
Proof.
  apply writeCatalog_preserves; [apply _|..].
  - intros m q _ _ t t'. apply mkdir_keepsLinks.
  - intros m _ t t'. apply writeFile_keepsLinks.
Qed.

Lemma Chtimes_keepsLinks (s : os.Sys) (p : path) (a m : Time)
    (w w' : os.World) (r : option error) :
  os.Chtimes s p a m w = (r, w') → keepsLinks (os.files w) (os.files w').
Proof.
  apply (sysW_preserves keepsLinks). intros t t'. apply chtimes_keepsLinks.
Qed.

Lemma Symlink_keepsLinks (s : os.Sys) (tgt link : path)
    (w w' : os.World) (r : option error) :
  os.Symlink s tgt link w = (r, w') → keepsLinks (os.files w) (os.files w').
Proof.
  apply (sysW_preserves keepsLinks). intros t t'. apply symlink_keepsLinks.
Qed.

(** ** Publication *)

(** The two ways [publish] ends: with an error, no view and every link
    where it was; or with the view, after the four steps have succeeded in
    order. *)
Lemma publish_inv (s : os.Sys) (catalogPath : path) (req : http.Request)
    (body : declcfg.stream) (modTime : Time) (w w' : os.World)
    (out : Outcome) :
  publish s catalogPath req body modTime w = (out, w') →
  let real := filepath.Join catalogPath [time.FormatStamp modTime] in
  let next := filepath.Join catalogPath ["next"] in
  let active := filepath.Join catalogPath ["active"] in
  sent out = Some req
  ∧ ((∃ e, err out = Some e) ∧ fsys out = None
     ∧ keepsLinks (os.files w) (os.files w')
     ∨ err out = None ∧ fsys out = Some (DirFS active)
       ∧ ∃ wc wd we,
           writeCatalog s real body w = (None, wc)
           ∧ os.Chtimes s real modTime modTime wc = (None, wd)
           ∧ os.Symlink s [filepath.Base real] next wd = (None, we)
           ∧ os.Rename s next active we = (None, w')).
Proof.
  unfold publish. intros H. simpl.
  destruct (writeCatalog _ _ _ w) as [[e|] wc] eqn:Hwc.
  { simplify_eq/=. split; [done|]. left. split_and!; eauto.
    by eapply writeCatalog_keepsLinks. }
  apply writeCatalog_keepsLinks in Hwc as Hk1.
  destruct (os.Chtimes _ _ _ _ wc) as [[e|] wd] eqn:Hwd.
  { simplify_eq/=. split; [done|]. left. split_and!; eauto.
    apply sysW_err in Hwd as [-> _]. done. }
  apply Chtimes_keepsLinks in Hwd as Hk2.
  destruct (os.Symlink _ _ _ wd) as [[e|] we] eqn:Hwe.
  { simplify_eq/=. split; [done|]. left. split_and!; eauto.
    apply sysW_err in Hwe as [-> _]. by etrans. }
  apply Symlink_keepsLinks in Hwe as Hk3.
  destruct (os.Rename _ _ _ we) as [[e|] wf] eqn:Hwf.
  { simplify_eq/=. split; [done|]. left. split_and!; eauto.
    apply sysW_err in Hwf as [-> _]. etrans; [done|]. by etrans. }
  simplify_eq/=. split; [done|]. right. split_and!; eauto 10.
Qed.

Lemma answer_sent (ParseTime : string → error + Time) (s : os.Sys)
    (catalogPath : path) (req : http.Request) (resp : http.Response)
    (w w' : os.World) (out : Outcome) :
  answer ParseTime s catalogPath req resp w = (out, w') → sent out = Some req.
Proof.
  unfold answer. repeat case_match; try (intros ?; by simplify_eq/=).
  by intros [? _]%publish_inv.
Qed.

Lemma answer_failed (ParseTime : string → error + Time) (s : os.Sys)
    (catalogPath : path) (req : http.Request) (resp : http.Response)
    (w w' : os.World) (out : Outcome) :
  answer ParseTime s catalogPath req resp w = (out, w') →
  err out ≠ None
  ∨ http.StatusCode resp ≠ http.StatusNotModified
    ∧ http.StatusCode resp ≠ http.StatusOK →
  fsys out = None ∧ keepsLinks (os.files w) (os.files w').
Proof.
  unfold answer. intros H Hfail.
  case_bool_decide as H304.
  { simplify_eq/=. by destruct Hfail as [?|[? ?]]. }
  case_bool_decide as H200; [simplify_eq/=; split; [done|reflexivity]|].
  destruct (ParseTime _) as [e|modTime];
    [simplify_eq/=; split; [done|reflexivity]|].
  apply publish_inv in H as (Hsent & [(_ & ? & ?)|(Herr & _)]); [done|].
  by destruct Hfail as [?|[? ?]].
Qed.

(** C2, as amended.  A call whose refresh fails, be it by an error or by a
    response that is neither 200 nor 304, returns no view, also when an
    active pointer exists; that pointer is left where it was. *)
Theorem getCatalogFS_failed_refresh
    (ParseTime : string → error + Time) (env : Env) (c c' : cachingClient)
    (cat : catalogd.ClusterCatalog) (w w' : os.World) (out : Outcome) :
  tracks c = true →
  plainName (catalogd.GetName cat) = true →
  getCatalogFS ParseTime env c cat w = (out, c', w') →
  (err out ≠ None
   ∨ ∃ req resp, sent out = Some req ∧ Do env req = inr resp
                 ∧ http.StatusCode resp ≠ http.StatusNotModified
                 ∧ http.StatusCode resp ≠ http.StatusOK) →
  fsys out = None
  ∧ ∀ tgt, os.files w !! activePathOf c (catalogd.GetName cat)
           = Some (NLink tgt) →
           os.files w' !! activePathOf c (catalogd.GetName cat)
           = Some (NLink tgt).
Proof.
  intros Htr Hname H Hfail.
  rewrite getCatalogFS_stages in H. simpl in H.
  destruct (lruAdd _ _ _ c w) as [c1 w0] eqn:Hadd.
  destruct (negotiate _ _ _ _ _) as [out1 w2] eqn:Hneg. simplify_eq.
  assert (os.files w0 !! activePathOf c (catalogd.GetName cat)
          = os.files w !! activePathOf c (catalogd.GetName cat)) as <-.
  { eapply lruAdd_subtree; [done..|]. rewrite activePathOf_eq.
    by apply prefix_app_r. }
  cut (fsys out = None ∧ keepsLinks (os.files w0) (os.files w')).
  { intros [? Hk]. split; [done|]. intros tgt. apply Hk. }
  unfold negotiate in Hneg.
  destruct (os.Stat _ _ w0) as [st w1] eqn:Hst.
  apply sysR_world in Hst as [Hf _]. rewrite <-Hf.
  assert (∀ cs,
    match Do env (negotiationRequest c' (catalogd.GetName cat) cs) with
    | inl err =>
        (mkOutcome None (Some err)
           (Some (negotiationRequest c' (catalogd.GetName cat) cs)), w1)
    | inr resp0 =>
        answer ParseTime (sys env) (catalogPathOf c' (catalogd.GetName cat))
          (negotiationRequest c' (catalogd.GetName cat) cs) resp0 w1
    end = (out, w') →
    fsys out = None ∧ keepsLinks (os.files w1) (os.files w')) as Hgo.
  { clear Hneg. intros cs Hcs.
    destruct (Do env (negotiationRequest c' (catalogd.GetName cat) cs))
      as [e|resp0] eqn:Hdo.
    { simplify_eq. split; [done|reflexivity]. }
    eapply answer_failed; [done|].
    destruct Hfail as [?|(req & resp & Hs & Hd & ? & ?)]; [by left|right].
    apply answer_sent in Hcs. rewrite Hs in Hcs. simplify_eq.
    rewrite Hd in Hdo. by simplify_eq. }
  destruct st as [e|i]; [|by apply Hgo in Hneg].
  destruct (os.IsNotExist e); [by apply Hgo in Hneg|].
  simplify_eq. split; [done|reflexivity].
Qed.

(** ** Snapshot names *)

Lemma noSlash_app (a b : string) :
  noSlash (a +:+ b) = noSlash a && noSlash b.
Proof.
  induction a as [|c a IH]; [done|].
  rewrite string_app_cons. simpl. rewrite IH. by rewrite andb_assoc.
Qed.

Lemma string_length_app (a b : string) :
  String.length (a +:+ b) = (String.length a + String.length b)%nat.
Proof.
  induction a as [|c a IH]; [done|].
  rewrite string_app_cons. simpl. by rewrite IH.
Qed.

Lemma digit_noSlash (n : Z) : time.digit n ≠ "/"%char.
Proof.
  unfold time.digit.
  assert (0 ≤ n mod 10 < 10) as Hr by (apply Z.mod_pos_bound; lia).
  assert (Z.to_nat (n mod 10) < 10)%nat as Hk by lia.
  destruct (Z.to_nat (n mod 10)) as [|[|[|[|[|[|[|[|[|[|k]]]]]]]]]];
    try done; lia.
Qed.

Lemma zpad_S (w : nat) (n : Z) :
  time.zpad (S w) n = time.zpad w (n / 10) +:+ String (time.digit n) "".
Proof. reflexivity. Qed.

Lemma zpad_noSlash (w : nat) (n : Z) : noSlash (time.zpad w n) = true.
Proof.
  revert n. induction w as [|w IH]; intros n; [done|].
  rewrite zpad_S, noSlash_app, IH.
  change (noSlash (String (time.digit n) ""))
    with (negb (bool_decide (time.digit n = "/"%char)) && true).
  rewrite bool_decide_eq_false_2; [done|]. apply digit_noSlash.
Qed.

Lemma zpad_length (w : nat) (n : Z) : String.length (time.zpad w n) = w.
Proof.
  revert n. induction w as [|w IH]; intros n; [done|].
  rewrite zpad_S, string_length_app, IH.
  change (String.length (String (time.digit n) "")) with 1%nat. lia.
Qed.

Lemma FormatStamp_plain (t : Time) : plainName (time.FormatStamp t) = true.
Proof.
  unfold time.FormatStamp, time.clock.
  destruct (time.civil (t / 86400)) as [[y m] d].
  assert (∀ s, noSlash s = true → String.length s = 15%nat →
               plainName s = true) as Hplain.
  { intros s Hs Hl. unfold plainName. rewrite Hs. simpl.
    rewrite !bool_decide_eq_false_2; [done|..]; intros ->; done. }
  apply Hplain.
  - rewrite !noSlash_app, !zpad_noSlash. reflexivity.
  - rewrite !string_length_app, !zpad_length. reflexivity.
Qed.

Lemma snapshotPathOf_eq (c : cachingClient) (name : string) (t : Time) :
  snapshotPathOf c name t = catalogPathOf c name ++ [time.FormatStamp t].
Proof. unfold snapshotPathOf. apply Join_plain1, FormatStamp_plain. Qed.

(** ** The request of a negotiation *)

Lemma negotiate_request (ParseTime : string → error + Time) (env : Env)
    (c : cachingClient) (name : string) (w w' : os.World) (out : Outcome) :
  os.fault (sys env) (os.ticks w) = None →
  negotiate ParseTime env c name w = (out, w') →
  match os.stat_k (os.files w) (activePathOf c name) with
  | inr i => sent out = Some (negotiationRequest c name (Some i))
  | inl e =>
      if os.IsNotExist e
      then sent out = Some (negotiationRequest c name None)
      else sent out = None
  end.
Proof.
  intros Hfault. unfold negotiate, activePathOf.
  pose proof (sysR_nofault (sys env)
    (λ t, os.stat_k t (filepath.Join (catalogPathOf c name) ["active"]))
    w Hfault) as Hst.
  fold (os.Stat (sys env) (filepath.Join (catalogPathOf c name) ["active"]))
    in Hst.
  destruct (os.Stat _ _ w) as [st w1]. simpl in Hst. subst st.
  assert (∀ cs,
    match Do env (negotiationRequest c name cs) with
    | inl err =>
        (mkOutcome None (Some err) (Some (negotiationRequest c name cs)), w1)
    | inr resp =>
        answer ParseTime (sys env) (catalogPathOf c name)
          (negotiationRequest c name cs) resp w1
    end = (out, w') → sent out = Some (negotiationRequest c name cs)) as Hgo.
  { intros cs. destruct (Do env (negotiationRequest c name cs)).
    - intros ?; by simplify_eq.
    - apply answer_sent. }
  destruct (os.stat_k _ _) as [e|i]; [|by apply Hgo].
  destruct (os.IsNotExist e); [by apply Hgo|]. intros ?; by simplify_eq.
Qed.

Lemma Add_keeps_key (now : Time) (k : string) (v : path) (c : expirable.LRU) :
  existsb (expirable.hasKey k)
    (expirable.evictList (expirable.Add now k v c).1) = true.
Proof.
  assert (∀ l, existsb (expirable.hasKey k)
                 (expirable.mkEntry k v (now + expirable.ttl c) :: l) = true)
    as Hfront.
  { intros l. simpl. unfold expirable.hasKey at 1. simpl.
    by rewrite bool_decide_eq_true_2. }
  unfold expirable.Add.
  destruct (existsb (expirable.hasKey k) (expirable.evictList c)) eqn:Hex;
    [apply Hfront|].
  destruct (bool_decide (0 < expirable.size c)%nat && _) eqn:Hfull;
    [|apply Hfront].
  apply andb_prop in Hfull
    as [Hpos%bool_decide_eq_true Hlen%bool_decide_eq_true].
  destruct (expirable.evictList c) as [|e0 l0]; simpl in Hlen; [lia|].
  apply Hfront.
Qed.

Lemma lruAdd_keeps_key (s : os.Sys) (k : string) (v : path)
    (c c' : cachingClient) (w w' : os.World) :
  lruAdd s k v c w = (c', w') →
  existsb (expirable.hasKey k) (expirable.evictList (lru c')) = true.
Proof.
  unfold lruAdd.
  pose proof (Add_keeps_key (os.now s) k v (lru c)) as H.
  destruct (expirable.Add _ _ _ _) as [l ev]. intros ?; by simplify_eq/=.
Qed.

Lemma FormatStamp_length (t : Time) :
  String.length (time.FormatStamp t) = 15%nat.
Proof.
  unfold time.FormatStamp, time.clock.
  destruct (time.civil _) as [[y m] d].
  rewrite !string_length_app, !zpad_length. reflexivity.
Qed.

Lemma snoc_inj {A} (p : list A) (x y : A) : p ++ [x] = p ++ [y] → x = y.
Proof. intros H%app_inv_head. congruence. Qed.

Lemma FormatStamp_ne (t : Time) (x : string) :
  String.length x ≠ 15%nat → time.FormatStamp t ≠ x.
Proof. intros Hx <-. by rewrite FormatStamp_length in Hx. Qed.

Lemma stamp_ne_catalogPath (cp : path) (x : string) : cp ++ [x] ≠ cp.
Proof.
  intros H. apply (f_equal length) in H. rewrite length_app in H.
  simpl in H. lia.
Qed.

Lemma chtimes_dir_mtime (p : path) (T m : Time) (t t' : tree) :
  os.chtimes_k p T t = inr t' → t' !! p = Some (NDir m) → m = T.
Proof.
  unfold os.chtimes_k, os.deref.
  destruct (t !! p) as [[mt d|mt|tgt]|] eqn:Hp; rewrite ?Hp.
  - intros ?; simplify_eq. rewrite lookup_insert_eq. by intros ?.
  - intros ?; simplify_eq. rewrite lookup_insert_eq. by intros ?; simplify_eq.
  - destruct (t !! (filepath.Dir p ++ tgt)) as [[]|] eqn:Hq; try done;
      intros ?; simplify_eq;
      (rewrite lookup_insert_ne by (intros Heq; rewrite Heq in Hq; congruence));
      congruence.
  - done.
Qed.

(** What a publication that succeeds leaves on disk: the active pointer
    is a link to the snapshot directory, whose node is the one [Chtimes]
    wrote. *)
Lemma publish_success (s : os.Sys) (cp : path) (req : http.Request)
    (body : declcfg.stream) (T : Time) (w w' : os.World) (out : Outcome) :
  publish s cp req body T w = (out, w') →
  err out = None →
  let real := cp ++ [time.FormatStamp T] in
  os.files w' !! (cp ++ ["active"]) = Some (NLink [time.FormatStamp T])
  ∧ ∀ m, os.files w' !! real = Some (NDir m) → m = T.
Proof.
  intros Hpub Herr. simpl.
  apply publish_inv in Hpub as (_ & [([e He] & _)|(_ & _ & Hsteps)]);
    [congruence|].
  destruct Hsteps as (wc & wd & we & _ & Hch & Hsy & Hre).
  rewrite !Join_plain1 in * by (done || apply FormatStamp_plain).
  rewrite Base_snoc in Hsy.
  apply sysW_ok in Hch as (_ & Hch & _).
  apply sysW_ok in Hsy as (_ & Hsy & _).
  apply sysW_ok in Hre as (_ & Hre & _).
  set (real := cp ++ [time.FormatStamp T]) in *.
  set (next := cp ++ ["next"]) in *.
  set (active := cp ++ ["active"]) in *.
  assert (filepath.Dir next = cp) as Hdn by apply Dir_snoc.
  assert (filepath.Dir active = cp) as Hda by apply Dir_snoc.
  assert (next ≠ active) as Hna.
  { intros H%app_inv_head. discriminate. }
  assert (real ≠ cp) as Hrc by apply stamp_ne_catalogPath.
  assert (real ≠ next) as Hrn.
  { intros H%snoc_inj. revert H. by apply FormatStamp_ne; vm_compute. }
  assert (real ≠ active) as Hra.
  { intros H%snoc_inj. revert H. by apply FormatStamp_ne; vm_compute. }
  (* the link made by Symlink *)
  assert (os.files wd !! next = None
          ∧ os.files we = <[next:=NLink [time.FormatStamp T]]>
                            (os.touchDir (os.now s) cp (os.files wd)))
    as [Hnext Hwe].
  { revert Hsy. unfold os.symlink_k. rewrite Hdn.
    destruct (os.files wd !! next); [by intros ?; simplify_eq/=|].
    destruct (os.parentCheck (os.files wd) next);
      [by intros ?; simplify_eq/=|].
    by intros ?; simplify_eq/=. }
  (* the rename *)
  assert (os.files w' = <[active:=NLink [time.FormatStamp T]]>
                          (delete next
                             (os.touchDir (os.now s) cp
                                (os.touchDir (os.now s) cp (os.files we)))))
    as Hw'.
  { revert Hre. unfold os.rename_k. rewrite Hdn, Hda.
    rewrite Hwe at 1. rewrite lookup_insert_eq.
    destruct (os.files we !! active) as [[]|];
      try (by intros ?; simplify_eq/=);
      (destruct (os.parentCheck _ active); [by intros ?; simplify_eq/=|]);
      by intros ?; simplify_eq/=. }
  rewrite Hw'. split; [by rewrite lookup_insert_eq|].
  intros m. rewrite lookup_insert_ne, lookup_delete_ne by done.
  rewrite !touchDir_lookup_ne by done.
  rewrite Hwe, lookup_insert_ne, touchDir_lookup_ne by done.
  by eapply chtimes_dir_mtime.
Qed.

(** C4.  When a negotiation has ended with a 200 response whose
    [Last-Modified] parses to [T] and has published, the snapshot directory
    named after [T] has modification time [T], whatever the wall clock, and
    the next negotiation for that catalog sends [If-Modified-Since] with
    [T] formatted as an HTTP date. *)
Theorem freshness_round_trip
    (ParseTime : string → error + Time) (env1 env2 : Env)
    (c c1 c2 : cachingClient) (cat : catalogd.ClusterCatalog)
    (w w1 w2 : os.World) (out1 out2 : Outcome)
    (req1 : http.Request) (resp : http.Response) (T m : Time) :
  getCatalogFS ParseTime env1 c cat w = (out1, c1, w1) →
  sent out1 = Some req1 →
  Do env1 req1 = inr resp →
  http.StatusCode resp = http.StatusOK →
  ParseTime (http.Get (http.RespHeader resp) "Last-Modified") = inr T →
  err out1 = None →
  os.files w1 !! snapshotPathOf c (catalogd.GetName cat) T = Some (NDir m) →
  os.fault (sys env2) (os.ticks w1) = None →
  getCatalogFS ParseTime env2 c1 cat w1 = (out2, c2, w2) →
  m = T
  ∧ ∃ req2, sent out2 = Some req2
            ∧ http.ReqHeader req2 !! "If-Modified-Since"
              = Some (time.FormatHTTP T).
Proof.
  intros H1 Hs Hd H200 Hparse Herr Hdir Hfault H2.
  eapply getCatalogFS_answered in H1 as (w0 & wa & Hadd & _ & Hans); [|done..].
  unfold answer in Hans. rewrite H200 in Hans. simpl in Hans.
  rewrite Hparse in Hans.
  apply publish_success in Hans as [Hactive Hmtime]; [|done].
  rewrite snapshotPathOf_eq in Hdir.
  specialize (Hmtime m Hdir). subst m. split; [done|].
  (* the next call *)
  rewrite getCatalogFS_stages in H2. simpl in H2.
  pose proof (lruAdd_keeps_key _ _ _ _ _ _ _ Hadd) as Hkey.
  pose proof (lruAdd_config _ _ _ _ _ _ _ Hadd) as [_ Hcd].
  pose proof (lruAdd_tracked (sys env2) (catalogd.GetName cat)
                (catalogPathOf c1 (catalogd.GetName cat)) c1 w1
                Hkey) as Hsame.
  destruct (lruAdd (sys env2) _ _ c1 w1) as [c1' w1'] eqn:Hadd2.
  simpl in Hsame. subst w1'.
  pose proof (lruAdd_config _ _ _ _ _ _ _ Hadd2) as [_ Hcd2].
  destruct (negotiate _ _ _ _ _) as [o w2'] eqn:Hneg. simplify_eq.
  apply negotiate_request in Hneg; [|done].
  rewrite activePathOf_eq in Hneg.
  rewrite (catalogPathOf_config c c2 (catalogd.GetName cat)) in Hneg
    by congruence.
  assert (os.stat_k (os.files w1) (catalogPathOf c (catalogd.GetName cat) ++ ["active"])
          = inr (os.mkInfo true T)) as Hstat.
  { unfold os.stat_k, os.deref. rewrite Hactive, Dir_snoc. by rewrite Hdir. }
  rewrite Hstat in Hneg. eexists. split; [done|].
  unfold negotiationRequest. simpl. by rewrite lookup_insert_eq.
Qed.

(** ** Eviction *)

Lemma removeAll_absent_stays (now : Time) (p q : path) (t : tree) :
  t !! q = None → os.removeAll_k now p t !! q = None.
Proof.
  intros Hq. destruct (os.removeAll_k now p t !! q) as [n|] eqn:Hn; [|done].
  apply removeAll_lookup_Some in Hn as [n' Hn']. congruence.
Qed.

Lemma onEvict_gone (s : os.Sys) (k : string) (v q : path) (w : os.World) :
  v `prefix_of` q → os.files (onEvict s k v w) !! q = None.
Proof. intros Hq. simpl. by apply removeAll_lookup_under. Qed.

Lemma onEvict_absent_stays (s : os.Sys) (k : string) (v q : path)
    (w : os.World) :
  os.files w !! q = None → os.files (onEvict s k v w) !! q = None.
Proof. intros Hq. simpl. by apply removeAll_absent_stays. Qed.

Lemma fold_onEvict_absent_stays (s : os.Sys) (l : list expirable.entry)
    (q : path) (w : os.World) :
  os.files w !! q = None →
  os.files (fold_left (λ w e, onEvict s (expirable.key e) (expirable.value e) w)
              l w) !! q = None.
Proof.
  revert w. induction l as [|e l IH]; intros w Hq; [done|].
  simpl. apply IH. by apply removeAll_absent_stays.
Qed.

Lemma fold_onEvict_gone (s : os.Sys) (l : list expirable.entry)
    (e : expirable.entry) (q : path) (w : os.World) :
  e ∈ l → expirable.value e `prefix_of` q →
  os.files (fold_left (λ w e, onEvict s (expirable.key e) (expirable.value e) w)
              l w) !! q = None.
Proof.
  revert w. induction l as [|e0 l IH]; intros w He Hq; [by inversion He|].
  simpl. apply elem_of_cons in He as [<-|He].
  - apply fold_onEvict_absent_stays. by apply removeAll_lookup_under.
  - by apply IH.
Qed.

Lemma lruAdd_absent_stays (s : os.Sys) (k : string) (v q : path)
    (c c' : cachingClient) (w w' : os.World) :
  lruAdd s k v c w = (c', w') →
  os.files w !! q = None → os.files w' !! q = None.
Proof.
  intros [->|(e & _ & _ & _ & ->)]%lruAdd_world Hq; [done|].
  by apply removeAll_absent_stays.
Qed.

Lemma evicts_inv (s : os.Sys) (c c' : cachingClient) (w w' : os.World)
    (e : expirable.entry) :
  evicts s c w e c' w' →
  e ∈ expirable.evictList (lru c)
  ∧ cacheDir c' = cacheDir c
  ∧ ∀ q, expirable.value e `prefix_of` q → os.files w' !! q = None.
Proof.
  intros [k v l Hadd Hl|He Hexp Hdel].
  - pose proof (lruAdd_config _ _ _ _ _ _ _ Hl) as [_ Hcd].
    apply Add_evicted in Hadd as Hev. destruct Hev as (_ & Hlast & _).
    split_and!; [by apply last_elem_of|done|].
    intros q Hq. unfold lruAdd in Hl. rewrite Hadd in Hl. simplify_eq.
    by apply onEvict_gone.
  - unfold lruDeleteExpired, expirable.deleteExpired in Hdel. simplify_eq.
    split_and!; [done..|].
    intros q Hq. eapply fold_onEvict_gone; [|done].
    apply list_elem_of_filter. done.
Qed.

(** C7.  When an entry is evicted, by the capacity bound of 100 (the oldest
    entry, when a new key is added to a full list) or by its age (24 hours
    after its last touch), the callback removes everything at and below the
    directory of that catalog; the next negotiation for the catalog finds
    no active pointer and sends its request without [If-Modified-Since]. *)
Theorem eviction_forces_full_fetch
    (ParseTime : string → error + Time) (s : os.Sys) (env : Env)
    (c c1 c2 : cachingClient) (w w1 w2 : os.World) (e : expirable.entry)
    (cat : catalogd.ClusterCatalog) (out : Outcome) :
  tracks c = true →
  evicts s c w e c1 w1 →
  catalogd.GetName cat = expirable.key e →
  getCatalogFS ParseTime env c1 cat w1 = (out, c2, w2) →
  (∀ q, catalogPathOf c (expirable.key e) `prefix_of` q →
        os.files w1 !! q = None)
  ∧ (∀ req, sent out = Some req →
            http.ReqHeader req !! "If-Modified-Since" = None)
  ∧ (os.fault (sys env)
       (os.ticks (lruAdd (sys env) (expirable.key e)
                    (catalogPathOf c1 (expirable.key e)) c1 w1).2) = None →
     ∃ req, sent out = Some req
            ∧ http.ReqHeader req !! "If-Modified-Since" = None)
  ∧ expirable.size (lru (newCachingClient (cacheDir c) (baseURL c))) = 100%nat
  ∧ expirable.ttl (lru (newCachingClient (cacheDir c) (baseURL c)))
    = 24 * 3600.
Proof.
  intros Htr Hev Hname Hcall.
  apply evicts_inv in Hev as (He & Hcd & Hgone).
  destruct (tracks_elem c e Htr He) as [Hplain Hval].
  rewrite Hval in Hgone.
  split; [done|].
  rewrite getCatalogFS_stages in Hcall. simpl in Hcall. rewrite Hname in Hcall.
  destruct (lruAdd (sys env) _ _ c1 w1) as [c1' w1'] eqn:Hadd.
  destruct (negotiate _ _ _ _ _) as [o w2'] eqn:Hneg. simplify_eq.
  pose proof (lruAdd_config _ _ _ _ _ _ _ Hadd) as [_ Hcd'].
  assert (os.files w1' !! activePathOf c2 (expirable.key e) = None) as Habs.
  { eapply lruAdd_absent_stays; [done|]. apply Hgone.
    rewrite activePathOf_eq, (catalogPathOf_config c c2) by congruence.
    by apply prefix_app_r. }
  assert (os.stat_k (os.files w1') (activePathOf c2 (expirable.key e))
          = inl ENOENT) as Hstat.
  { unfold os.stat_k, os.deref. by rewrite Habs, Habs. }
  assert (∀ cs, http.ReqHeader
                  (negotiationRequest c2 (expirable.key e) cs)
                  !! "If-Modified-Since" = None
                ∨ ∃ i, cs = Some i) as Hreq.
  { intros [i|]; [right; eauto|by left]. }
  split_and!; [| |done..].
  - intros req Hsent. unfold negotiate in Hneg.
    fold (activePathOf c2 (expirable.key e)) in Hneg.
    destruct (os.Stat _ _ w1') as [st wst] eqn:Hst.
    unfold os.Stat, os.sysR in Hst.
    assert (∀ cs,
      match Do env (negotiationRequest c2 (expirable.key e) cs) with
      | inl err =>
          (mkOutcome None (Some err)
             (Some (negotiationRequest c2 (expirable.key e) cs)), wst)
      | inr resp =>
          answer ParseTime (sys env) (catalogPathOf c2 (expirable.key e))
            (negotiationRequest c2 (expirable.key e) cs) resp wst
      end = (out, w2) →
      req = negotiationRequest c2 (expirable.key e) cs) as Hgo.
    { intros cs.
      destruct (Do env (negotiationRequest c2 (expirable.key e) cs)).
      - intros Heq. injection Heq as <- _. simpl in Hsent. congruence.
      - intros Hs%answer_sent. congruence. }
    destruct (os.fault (sys env) (os.ticks w1')) as [err|] eqn:Hf;
      simplify_eq/=.
    + destruct (os.IsNotExist err); [|by simplify_eq/=].
      by rewrite (Hgo None Hneg).
    + rewrite Hstat in Hneg. simpl in Hneg. by rewrite (Hgo None Hneg).
  - simpl. intros Hfault.
    apply negotiate_request in Hneg; [|done].
    rewrite Hstat in Hneg. simpl in Hneg. eauto.
Qed.

(** ** Filing *)

Lemma WalkMetasReader_snoc {S : Type} (r : declcfg.stream) (m : declcfg.Meta)
    (walkFn : error + declcfg.Meta → S → option error * S)
    (r' : declcfg.stream) (s s' : S) :
  (∀ e x, (walkFn (inl e) x).1 ≠ None) →
  declcfg.WalkMetasReader (r ++ inr m :: r') walkFn s = (None, s') →
  ∃ s0 s1,
    declcfg.WalkMetasReader r walkFn s = (None, s0)
    ∧ walkFn (inr m) s0 = (None, s1)
    ∧ declcfg.WalkMetasReader (r ++ [inr m]) walkFn s = (None, s1).
Proof.
  intros Hinl. revert s. induction r as [|[e|m0] r IH]; intros s; simpl.
  - destruct (walkFn (inr m) s) as [[e|] s1] eqn:H1; [done|].
    intros _. by exists s, s1.
  - intros H1. destruct (Hinl e s). by rewrite H1.
  - destruct (walkFn (inr m0) s) as [[e|] s1] eqn:H1; [done|]. apply IH.
Qed.

Lemma contentAt_insert (t : tree) (p q : path) (now : Time) (d : bytes) :
  os.deref t p = q →
  (q ≠ p → ∃ tgt, t !! p = Some (NLink tgt)) →
  contentAt (<[q := NFile now d]> t) p = Some d.
Proof.
  intros Hq Hp. unfold contentAt.
  assert (os.deref (<[q:=NFile now d]> t) p = q) as ->;
    [|by rewrite lookup_insert_eq].
  unfold os.deref. destruct (decide (q = p)) as [->|Hne].
  - by rewrite lookup_insert_eq.
  - rewrite lookup_insert_ne by done. done.
Qed.

Lemma deref_touchDir (now : Time) (d p : path) (t : tree) :
  os.deref (os.touchDir now d t) p = os.deref t p.
Proof.
  unfold os.deref. destruct (decide (p = d)) as [->|Hne].
  - unfold os.touchDir. destruct (t !! d) as [[]|] eqn:Hd; rewrite ?Hd; try done.
    by rewrite lookup_insert_eq.
  - by rewrite touchDir_lookup_ne.
Qed.

Lemma touchDir_lookup_link (now : Time) (d p : path) (t : tree) (tgt : path) :
  t !! p = Some (NLink tgt) → os.touchDir now d t !! p = Some (NLink tgt).
Proof. apply touchDir_keepsLinks. Qed.

Lemma writeFile_contentAt (now : Time) (p : path) (d : bytes) (t t' : tree) :
  os.writeFile_k now p d t = inr t' → contentAt t' p = Some d.
Proof.
  unfold os.writeFile_k.
  assert (os.deref t p ≠ p → ∃ tgt, t !! p = Some (NLink tgt)) as Hlink.
  { unfold os.deref. destruct (t !! p) as [[]|]; eauto; done. }
  destruct (t !! os.deref t p) as [[]|] eqn:Hq; try done.
  - intros ?; simplify_eq. by apply contentAt_insert.
  - destruct (os.parentCheck t _) eqn:Hpar; [done|]. intros ?; simplify_eq.
    apply contentAt_insert; [by rewrite deref_touchDir|].
    intros [tgt Htgt]%Hlink. exists tgt. by apply touchDir_lookup_link.
Qed.

Lemma walkFn_files (s : os.Sys) (dir : path) (m : declcfg.Meta)
    (w w' : os.World) :
  writeCatalog_walkFn s dir (inr m) w = (None, w') →
  contentAt (os.files w') (filingPath dir m) = Some (declcfg.Blob m).
Proof.
  unfold writeCatalog_walkFn.
  destruct (os.MkdirAll _ _ w) as [[e|] w1]; [done|].
  destruct (os.WriteFile _ _ _ w1) as [[e|] w2] eqn:Hw; [done|].
  intros ?; simplify_eq. apply sysW_ok in Hw as (_ & Hw & _).
  by eapply writeFile_contentAt.
Qed.

(** C6, as amended.  Every record of the stream that [writeCatalog] gets
    through is filed, at the moment it is processed, under
    [{snapshot}/{bucket}/{schema}/{name}.json] with its content, whatever
    was there before; the bucket is the name of a package descriptor and
    the package field of any other record, and [__global] whenever the
    bucket so chosen is empty. *)
Theorem writeCatalog_files_record (s : os.Sys) (catalogDir : path)
    (body : declcfg.stream) (w w' : os.World) (i : nat) (m : declcfg.Meta) :
  writeCatalog s catalogDir body w = (None, w') →
  body !! i = Some (inr m) →
  let chosen :=
    if bool_decide (declcfg.Schema m = declcfg.SchemaPackage)
    then declcfg.Name m else declcfg.Package m in
  let bucket := if bool_decide (chosen = "") then "__global" else chosen in
  ∃ wi,
    writeCatalog s catalogDir (take (S i) body) w = (None, wi)
    ∧ contentAt (os.files wi)
        (filepath.Join catalogDir
           [bucket; declcfg.Schema m; declcfg.Name m +:+ ".json"])
      = Some (declcfg.Blob m).
Proof.
  intros Hall Hi. simpl.
  apply take_drop_middle in Hi as Hsplit.
  rewrite <-Hsplit in Hall. unfold writeCatalog in *.
  apply WalkMetasReader_snoc in Hall as (w0 & wi & _ & Hfn & Hpre).
  - exists wi. split.
    + rewrite <-Hpre. f_equal. by erewrite take_S_r.
    + by apply walkFn_files in Hfn.
  - intros e x. done.
Qed.

(** ** Listings *)

Lemma sort_Strings_sorted (l : list string) : Sorted String.le (sort_Strings l).
Proof. apply (Sorted_merge_sort String.le). Qed.

Lemma sort_Strings_perm (l : list string) : sort_Strings l ≡ₚ l.
Proof. apply (merge_sort_Permutation String.le). Qed.

(** The result of sorting depends on the names only, not on their order. *)
Lemma sort_Strings_order (l l' : list string) :
  l ≡ₚ l' → sort_Strings l = sort_Strings l'.
Proof.
  intros Hp. apply (Sorted_unique String.le); try apply sort_Strings_sorted.
  by rewrite !sort_Strings_perm.
Qed.

Lemma dirNames_perm (l l' : list fs.DirEntry) :
  l ≡ₚ l' → dirNames l ≡ₚ dirNames l'.
Proof. intros Hp. unfold dirNames. by rewrite Hp. Qed.

Lemma objectNames_perm (l l' : list fs.DirEntry) :
  l ≡ₚ l' → objectNames l ≡ₚ objectNames l'.
Proof. intros Hp. unfold objectNames. by rewrite Hp. Qed.

Lemma children_elem (t : tree) (q : path) (x : string) (d : bool) :
  fs.mkEntry x d ∈ children t q
  ↔ ∃ n, t !! (q ++ [x]) = Some n ∧ os.isDirNode n = d.
Proof.
  unfold children. rewrite list_elem_of_omap. split.
  - intros ([p n] & Hin%elem_of_map_to_list & Hc).
    unfold fs.childEntry in Hc. simpl in Hc.
    destruct (last p) as [c|]; [|done].
    case_bool_decide as Hp; [|done]. simplify_eq. eauto.
  - intros (n & Hn & <-). exists (q ++ [x], n). split.
    + by apply elem_of_map_to_list.
    + unfold fs.childEntry. simpl. rewrite last_snoc.
      by rewrite bool_decide_eq_true_2.
Qed.

Lemma dirNames_elem (t : tree) (q : path) (x : string) :
  x ∈ dirNames (children t q) ↔ ∃ m, t !! (q ++ [x]) = Some (NDir m).
Proof.
  unfold dirNames. rewrite list_elem_of_fmap. split.
  - intros ([y d] & -> & [Hd Hin]%list_elem_of_filter). simpl in *. subst d.
    apply children_elem in Hin as ([] & Hn & ?); try done. eauto.
  - intros (m & Hm). exists (fs.mkEntry x true). split; [done|].
    apply list_elem_of_filter. split; [done|].
    apply children_elem. eauto.
Qed.

Lemma objectNames_elem (t : tree) (q : path) (x : string) :
  x ∈ objectNames (children t q)
  ↔ ∃ f n, t !! (q ++ [f]) = Some n ∧ os.isDirNode n = false
           ∧ x = TrimSuffix f ".json".
Proof.
  unfold objectNames. rewrite list_elem_of_fmap. split.
  - intros ([y d] & -> & [Hd Hin]%list_elem_of_filter). simpl in *. subst d.
    apply children_elem in Hin as (n & Hn & ?). eauto.
  - intros (f & n & Hn & Hd & ->). exists (fs.mkEntry f false). split; [done|].
    apply list_elem_of_filter. split; [done|].
    apply children_elem. eauto.
Qed.

Lemma ReadDir_ok (s : os.Sys) (fsys : FS) (name : path) (w : os.World)
    (m : Time) :
  os.fault s (os.ticks w) = None →
  fs.ValidPath name = true →
  os.files w !! fs.locate (os.files w) fsys name = Some (NDir m) →
  (fs.ReadDir s fsys name w).1
  = inr (children (os.files w) (fs.locate (os.files w) fsys name)).
Proof.
  intros Hf Hv Hd. unfold fs.ReadDir. rewrite sysR_nofault by done.
  rewrite Hv. unfold fs.readDir_k. by rewrite Hd.
Qed.

(** C9.  On a resolved view, [list packages] answers with the names of
    the directories directly below the snapshot root, and [list objects]
    with the names of the entries of [{package}/{schema}] that are not
    directories, their [.json] suffix removed; both in ascending order, and
    the same whatever order the directory is enumerated in. *)
Theorem listings_sorted
    (ParseTime : string → error + Time) (env : Env)
    (resource catalogName packageName schema : string)
    (cc cc1 : cachingClient) (w w1 : os.World) (fsys : FS) :
  openCatalog ParseTime env resource catalogName cc w
  = (inr (Some fsys), cc1, w1) →
  os.fault (sys env) (os.ticks w1) = None →
  let t := os.files w1 in
  let root := fs.locate t fsys [] in
  let objdir := fs.locate t fsys (filepath.Join [] [packageName; schema]) in
  (∀ m, t !! root = Some (NDir m) →
     ∃ names w2,
       listPackagesHandler ParseTime env resource catalogName cc w
       = (okJSON names, cc1, w2)
       ∧ Sorted String.le names
       ∧ names ≡ₚ dirNames (children t root)
       ∧ (∀ x, x ∈ names ↔ ∃ m', t !! (root ++ [x]) = Some (NDir m'))
       ∧ (∀ entries, entries ≡ₚ children t root →
                     sort_Strings (dirNames entries) = names))
  ∧ (∀ m, fs.ValidPath (filepath.Join [] [packageName; schema]) = true →
          t !! objdir = Some (NDir m) →
     ∃ names w2,
       listObjectsHandler ParseTime env resource catalogName packageName
         schema cc w
       = (okJSON names, cc1, w2)
       ∧ Sorted String.le names
       ∧ names ≡ₚ objectNames (children t objdir)
       ∧ (∀ x, x ∈ names ↔
               ∃ f n, t !! (objdir ++ [f]) = Some n
                      ∧ os.isDirNode n = false
                      ∧ x = TrimSuffix f ".json")
       ∧ (∀ entries, entries ≡ₚ children t objdir →
                     sort_Strings (objectNames entries) = names)).
Proof.
  intros Hopen Hfault. simpl. split.
  - intros m Hroot. unfold listPackagesHandler. rewrite Hopen.
    pose proof (ReadDir_ok (sys env) fsys [] w1 m Hfault eq_refl Hroot) as Hrd.
    change (fs.elements ".") with (@nil string).
    destruct (fs.ReadDir (sys env) fsys [] w1) as [r w2]. simpl in Hrd.
    subst r. eexists _, w2. split_and!; [done|..].
    + apply sort_Strings_sorted.
    + apply sort_Strings_perm.
    + intros x. rewrite sort_Strings_perm. apply dirNames_elem.
    + intros entries Hp. by apply sort_Strings_order, dirNames_perm.
  - intros m Hvalid Hdir. unfold listObjectsHandler. rewrite Hopen.
    pose proof (ReadDir_ok (sys env) fsys _ w1 m Hfault Hvalid Hdir) as Hrd.
    destruct (fs.ReadDir (sys env) fsys _ w1) as [r w2]. simpl in Hrd.
    subst r. eexists _, w2. split_and!; [done|..].
    + apply sort_Strings_sorted.
    + apply sort_Strings_perm.
    + intros x. rewrite sort_Strings_perm. apply objectNames_elem.
    + intros entries Hp. by apply sort_Strings_order, objectNames_perm.
Qed.

(** ** Not found, and the icon *)

Lemma ReadFile_nofault (s : os.Sys) (fsys : FS) (name : path) (w : os.World) :
  os.fault s (os.ticks w) = None →
  fs.ValidPath name = true →
  (fs.ReadFile s fsys name w).1
  = fs.readFile_k (fs.locate (os.files w) fsys name) (os.files w).
Proof.
  intros Hf Hv. unfold fs.ReadFile. rewrite sysR_nofault by done.
  by rewrite Hv.
Qed.

(** What the icon handler answers once the view is resolved: not found
    when the descriptor is absent or carries no icon, an internal error
    when it does not parse, and otherwise the declared media type with the
    icon bytes. *)
Lemma getPackageIconHandler_answers
    (ParseTime : string → error + Time)
    (Unmarshal : bytes → error + declcfg.PackageT) (env : Env)
    (resource catalogName packageName : string)
    (cc cc1 : cachingClient) (w w1 : os.World) (fsys : FS) :
  openCatalog ParseTime env resource catalogName cc w
  = (inr (Some fsys), cc1, w1) →
  os.fault (sys env) (os.ticks w1) = None →
  let name :=
    filepath.Join [] [packageName; declcfg.SchemaPackage;
                      packageName +:+ ".json"] in
  fs.ValidPath name = true →
  let loc := fs.locate (os.files w1) fsys name in
  let code :=
    match (getPackageIconHandler ParseTime Unmarshal env resource catalogName
             packageName cc w).1.1 with
    | Wrote x => Some (http.Code x, http.ContentType x, http.Payload x)
    | Panic => None
    end in
  match os.files w1 !! loc with
  | None =>
      code = Some (http.StatusNotFound, Some "text/plain; charset=utf-8",
                   http.Text "package not found")
  | Some (NFile _ data) =>
      match Unmarshal data with
      | inl e =>
          code = Some (http.StatusInternalServerError,
                       Some "text/plain; charset=utf-8", http.ErrorText e)
      | inr pkg =>
          match declcfg.PackageIcon pkg with
          | None =>
              code = Some (http.StatusNotFound,
                           Some "text/plain; charset=utf-8",
                           http.Text "icon not found")
          | Some icon =>
              code = Some (http.StatusOK, Some (declcfg.MediaType icon),
                           http.Raw (declcfg.Data icon))
          end
      end
  | Some _ => ∃ p, code = Some (http.StatusInternalServerError, p.1, p.2)
  end.
Proof.
  intros Hopen Hfault name Hvalid loc. simpl.
  unfold getPackageIconHandler. rewrite Hopen.
  pose proof (ReadFile_nofault (sys env) fsys name w1 Hfault Hvalid) as Hrd.
  fold name. destruct (fs.ReadFile (sys env) fsys name w1) as [r w2].
  simpl in Hrd. subst r. fold loc. unfold fs.readFile_k.
  destruct (os.files w1 !! loc) as [[mt data|mt|tgt]|]; simpl; try done.
  - destruct (Unmarshal data) as [e|pkg]; [done|].
    by destruct (declcfg.PackageIcon pkg).
  - by eexists (_, _).
  - by eexists (_, _).
Qed.

(** * The disk during a call *)

Section During.

(** What holds of the tree after a writing call holds of every tree the
    disk goes through during the call, for any relation closed under doing
    nothing and under composition. *)
Context (R : relation tree) `{!PreOrder R}.

Global Instance during_preorder : PreOrder (during R).
Proof.
  split.
  - intros w. split; [reflexivity|]. by exists [].
  - intros w1 w2 w3 [H12 (l1 & Hp1 & Hl1)] [H23 (l2 & Hp2 & Hl2)].
    split; [by etrans|]. exists (l2 ++ l1). split.
    + by rewrite Hp2, Hp1, app_assoc.
    + apply Forall_app. split; [|done].
      eapply Forall_impl; [done|]. intros t Ht. by etrans.
Qed.

Lemma during_final (w w' : os.World) :
  during R w w' → R (os.files w) (os.files w').
Proof. by intros [? _]. Qed.

Lemma during_observed (w w' : os.World) (t : tree) :
  during R w w' → t ∈ observedBetween w w' → R (os.files w) t.
Proof.
  intros [_ (l & Hp & Hl)] Ht. unfold observedBetween in Ht.
  rewrite Hp, length_app in Ht.
  replace (length l + length (os.past w) - length (os.past w))%nat
    with (length l) in Ht by lia.
  rewrite take_app_length in Ht.
  rewrite Forall_forall in Hl. by apply Hl.
Qed.

Lemma tick_during (w : os.World) (t : tree) :
  R (os.files w) t → during R w (os.tick w t).
Proof.
  intros Ht. split; [done|]. exists [os.files w]. split; [done|].
  constructor; [reflexivity|constructor].
Qed.

Lemma sysW_during (s : os.Sys) (k : tree → error + tree)
    (w w' : os.World) (r : option error) :
  (∀ t t', k t = inr t' → R t t') →
  os.sysW s k w = (r, w') → during R w w'.
Proof.
  intros Hk. unfold os.sysW.
  destruct (os.fault s (os.ticks w)).
  { intros ?; simplify_eq. apply tick_during. reflexivity. }
  destruct (k (os.files w)) as [e|t] eqn:Hkt; intros ?; simplify_eq.
  - apply tick_during. reflexivity.
  - apply tick_during. by apply Hk.
Qed.

Lemma sysR_during {A} (s : os.Sys) (k : tree → error + A)
    (w w' : os.World) (r : error + A) :
  os.sysR s k w = (r, w') → during R w w'.
Proof.
  unfold os.sysR. destruct (os.fault s (os.ticks w)); intros ?; simplify_eq;
    apply tick_during; reflexivity.
Qed.

Lemma MkdirAll_rev_during (s : os.Sys) (rp : list string)
    (w w' : os.World) (r : option error) :
  (∀ p, p `prefix_of` rev rp →
        ∀ t t', os.mkdir_k (os.now s) p t = inr t' → R t t') →
  os.MkdirAll_rev s rp w = (r, w') → during R w w'.
Proof.
  revert w w' r. induction rp as [|x rp IH]; intros w w' r Hk; simpl.
  - destruct (os.Stat s [] w) as [[e|dir] w1] eqn:Hst;
      apply sysR_during in Hst.
    + destruct (os.Mkdir s [] w1) as [[e1|] w3] eqn:Hmk.
      * apply (sysW_during s _ _ _ _ (Hk [] ltac:(done))) in Hmk.
        destruct (os.Lstat s [] w3) as [[e2|dir] w4] eqn:Hl;
          apply sysR_during in Hl;
          repeat case_match; intros ?; simplify_eq;
          (etrans; [done|]); by etrans.
      * apply (sysW_during s _ _ _ _ (Hk [] ltac:(done))) in Hmk.
        intros ?; simplify_eq. by etrans.
    + case_match; intros ?; by simplify_eq.
  - destruct (os.Stat s (rev rp ++ [x]) w) as [[e|dir] w1] eqn:Hst;
      apply sysR_during in Hst;
      [|case_match; intros ?; by simplify_eq].
    assert (∃ perr w2,
      match rp with
      | [] => (None, w1)
      | _ :: _ => os.MkdirAll_rev s rp w1
      end = (perr, w2) ∧ during R w1 w2)
      as (perr & w2 & -> & Hpar).
    { destruct rp as [|y rp'] eqn:Hrp; [by eexists _, _|].
      rewrite <-Hrp in *.
      destruct (os.MkdirAll_rev s rp w1) as [perr w2] eqn:Hrec.
      exists perr, w2. split; [done|].
      eapply IH; [|done]. intros p Hp. apply Hk.
      simpl. by apply prefix_app_r. }
    destruct perr as [e1|]; [intros ?; simplify_eq; by etrans|].
    destruct (os.Mkdir s (rev rp ++ [x]) w2) as [[e1|] w3] eqn:Hmk;
      apply (sysW_during s _ _ _ _ (Hk _ ltac:(done))) in Hmk.
    + destruct (os.Lstat s (rev rp ++ [x]) w3) as [[e2|dir] w4] eqn:Hl;
        apply sysR_during in Hl;
        repeat case_match; intros ?; simplify_eq;
        (etrans; [done|]); (etrans; [done|]); by etrans.
    + intros ?; simplify_eq. (etrans; [done|]); by etrans.
Qed.

Lemma MkdirAll_during (s : os.Sys) (p : path)
    (w w' : os.World) (r : option error) :
  (∀ q, q `prefix_of` p →
        ∀ t t', os.mkdir_k (os.now s) q t = inr t' → R t t') →
  os.MkdirAll s p w = (r, w') → during R w w'.
Proof.
  intros Hk. apply MkdirAll_rev_during. by rewrite rev_involutive.
Qed.

Lemma walkFn_during (s : os.Sys) (dir : path)
    (item : error + declcfg.Meta) (w w' : os.World) (r : option error) :
  (∀ m q, item = inr m → q `prefix_of` filepath.Dir (filingPath dir m) →
          ∀ t t', os.mkdir_k (os.now s) q t = inr t' → R t t') →
  (∀ m, item = inr m →
        ∀ t t', os.writeFile_k (os.now s) (filingPath dir m)
                  (declcfg.Blob m) t = inr t' → R t t') →
  writeCatalog_walkFn s dir item w = (r, w') → during R w w'.
Proof.
  intros Hmk Hwr. unfold writeCatalog_walkFn.
  destruct item as [e|m]; [intros ?; simplify_eq; reflexivity|].
  destruct (os.MkdirAll _ _ w) as [[e|] w1] eqn:Hm;
    apply (MkdirAll_during _ _ _ _ _ (λ q, Hmk m q eq_refl)) in Hm;
    [intros ?; by simplify_eq|].
  destruct (os.WriteFile _ _ _ w1) as [[e|] w2] eqn:Hw;
    apply (sysW_during _ _ _ _ _ (Hwr m eq_refl)) in Hw;
    intros ?; simplify_eq; by etrans.
Qed.

Lemma writeCatalog_during (s : os.Sys) (dir : path)
    (body : declcfg.stream) (w w' : os.World) (r : option error) :
  (∀ m q, inr m ∈ body → q `prefix_of` filepath.Dir (filingPath dir m) →
          ∀ t t', os.mkdir_k (os.now s) q t = inr t' → R t t') →
  (∀ m, inr m ∈ body →
        ∀ t t', os.writeFile_k (os.now s) (filingPath dir m)
                  (declcfg.Blob m) t = inr t' → R t t') →
  writeCatalog s dir body w = (r, w') → during R w w'.
Proof.
  intros Hmk Hwr. unfold writeCatalog.
  apply (WalkMetasReader_preserves (during R)).
  - intros x. reflexivity.
  - intros x y z ??. by etrans.
  - intros item w0 o w0' Hin. apply walkFn_during.
    + intros m q ->. by apply Hmk.
    + intros m ->. by apply Hwr.
Qed.

End During.

(** ** Where the writing calls write *)

Global Instance changesOnly_preorder (X : path → Prop) : PreOrder (changesOnly X).
Proof.
  split; [by intros t q ?|].
  intros t1 t2 t3 H1 H2 q Hq. by rewrite H2, H1.
Qed.

Global Instance fills_preorder (dir : path) : PreOrder (fills dir).
Proof.
  split; [by intros t ?|].
  intros t1 t2 t3 H1 H2 Hn. destruct (H1 Hn) as [Hn2 Hc1].
  destruct (H2 Hn2) as [Hn3 Hc2]. split; [done|]. by etrans.
Qed.

Lemma changesOnly_mono (X Y : path → Prop) (t t' : tree) :
  (∀ q, X q → Y q) → changesOnly X t t' → changesOnly Y t t'.
Proof. intros HXY H q Hq. apply H. auto. Qed.

Lemma touchDir_changesOnly (now : Time) (d : path) (t : tree) :
  changesOnly (eq d) t (os.touchDir now d t).
Proof. intros q Hq. by apply touchDir_lookup_ne. Qed.

Lemma insert_changesOnly (p : path) (n : node) (t : tree) :
  changesOnly (eq p) t (<[p := n]> t).
Proof. intros q Hq. by rewrite lookup_insert_ne. Qed.

Lemma created_changesOnly (now : Time) (p : path) (n : node) (t : tree) :
  changesOnly (λ q, q = p ∨ q = filepath.Dir p) t
    (<[p := n]> (os.touchDir now (filepath.Dir p) t)).
Proof.
  intros q Hq. rewrite lookup_insert_ne by (intros ->; auto).
  apply touchDir_lookup_ne. intros ->. auto.
Qed.

Lemma mkdir_changesOnly (now : Time) (p : path) (t t' : tree) :
  os.mkdir_k now p t = inr t' →
  changesOnly (λ q, q = p ∨ q = filepath.Dir p) t t'.
Proof.
  unfold os.mkdir_k. destruct (t !! p); [done|].
  destruct (os.parentCheck t p); [done|]. intros ?; simplify_eq.
  apply created_changesOnly.
Qed.

Lemma writeFile_changesOnly (now : Time) (p : path) (d : bytes) (t t' : tree) :
  (∀ tgt, t !! p ≠ Some (NLink tgt)) →
  os.writeFile_k now p d t = inr t' →
  changesOnly (λ q, q = p ∨ q = filepath.Dir p) t t'.
Proof.
  intros Hp. unfold os.writeFile_k.
  assert (os.deref t p = p) as ->.
  { unfold os.deref. destruct (t !! p) as [[]|] eqn:E; try done.
    by destruct (Hp target). }
  destruct (t !! p) as [[]|]; try done.
  - intros ?; simplify_eq. eapply changesOnly_mono; [|apply insert_changesOnly].
    intros q <-. auto.
  - destruct (os.parentCheck t p); [done|]. intros ?; simplify_eq.
    apply created_changesOnly.
Qed.

Lemma chtimes_changesOnly (p : path) (m : Time) (t t' : tree) :
  (∀ tgt, t !! p ≠ Some (NLink tgt)) →
  os.chtimes_k p m t = inr t' → changesOnly (eq p) t t'.
Proof.
  intros Hp. unfold os.chtimes_k.
  assert (os.deref t p = p) as ->.
  { unfold os.deref. destruct (t !! p) as [[]|] eqn:E; try done.
    by destruct (Hp target). }
  destruct (t !! p) as [[]|]; try done; intros ?; simplify_eq;
    apply insert_changesOnly.
Qed.

Lemma symlink_changesOnly (now : Time) (tgt link : path) (t t' : tree) :
  os.symlink_k now tgt link t = inr t' →
  changesOnly (λ q, q = link ∨ q = filepath.Dir link) t t'.
Proof.
  unfold os.symlink_k. destruct (t !! link); [done|].
  destruct (os.parentCheck t link); [done|]. intros ?; simplify_eq.
  apply created_changesOnly.
Qed.

Lemma rename_changesOnly (now : Time) (old new : path) (t t' : tree) :
  os.rename_k now old new t = inr t' →
  changesOnly (λ q, q = old ∨ q = new ∨ q = filepath.Dir old
                    ∨ q = filepath.Dir new) t t'.
Proof.
  unfold os.rename_k. intros H q Hq.
  assert (t' = <[new := default (NDir 0) (t !! old)]>
                 (delete old
                    (os.touchDir now (filepath.Dir new)
                       (os.touchDir now (filepath.Dir old) t)))) as ->.
  { destruct (t !! old) as [[]|]; try done;
      (destruct (t !! new) as [[]|]; try done);
      (destruct (os.parentCheck t new); [done|]); by simplify_eq. }
  rewrite lookup_insert_ne by (intros ->; auto).
  rewrite lookup_delete_ne by (intros ->; auto).
  rewrite !touchDir_lookup_ne by (intros ->; auto 10). done.
Qed.

(** The calls that make no link. *)
Global Instance noNewLinks_preorder : PreOrder noNewLinks.
Proof.
  split; [by intros t q tgt ?|]. intros t1 t2 t3 H1 H2 q tgt ?. eauto.
Qed.

Lemma touchDir_noNewLinks (now : Time) (d : path) (t : tree) :
  noNewLinks t (os.touchDir now d t).
Proof. intros q tgt. by apply touchDir_lookup_notdir. Qed.

Lemma insert_noNewLinks (p : path) (n : node) (t : tree) :
  (∀ tgt, n ≠ NLink tgt) → noNewLinks t (<[p := n]> t).
Proof.
  intros Hn q tgt. destruct (decide (p = q)) as [->|Hne].
  - rewrite lookup_insert_eq. intros ?; simplify_eq. by destruct (Hn tgt).
  - by rewrite lookup_insert_ne.
Qed.

Lemma mkdir_noNewLinks (now : Time) (p : path) (t t' : tree) :
  os.mkdir_k now p t = inr t' → noNewLinks t t'.
Proof.
  unfold os.mkdir_k. destruct (t !! p); [done|].
  destruct (os.parentCheck t p); [done|]. intros ?; simplify_eq.
  etrans; [apply touchDir_noNewLinks|]. by apply insert_noNewLinks.
Qed.

Lemma writeFile_noNewLinks (now : Time) (p : path) (d : bytes) (t t' : tree) :
  os.writeFile_k now p d t = inr t' → noNewLinks t t'.
Proof.
  unfold os.writeFile_k. destruct (t !! os.deref t p) as [[]|]; try done.
  - intros ?; simplify_eq. by apply insert_noNewLinks.
  - destruct (os.parentCheck t _); [done|]. intros ?; simplify_eq.
    etrans; [apply touchDir_noNewLinks|]. by apply insert_noNewLinks.
Qed.

Lemma chtimes_noNewLinks (p : path) (m : Time) (t t' : tree) :
  os.chtimes_k p m t = inr t' → noNewLinks t t'.
Proof.
  unfold os.chtimes_k. destruct (t !! os.deref t p) as [[]|]; try done;
    intros ?; simplify_eq; by apply insert_noNewLinks.
Qed.

Lemma noLinksBelow_noNewLinks (dir : path) (t t' : tree) :
  noNewLinks t t' → noLinksBelow dir t → noLinksBelow dir t'.
Proof. intros Hn Hl q tgt Hq Hq'. apply (Hl q tgt Hq). by apply Hn. Qed.

(** *** The branch of a directory: its ancestors and what is below it *)

Lemma branch_refl (p : path) : branch p p.
Proof. by left. Qed.

Lemma Dir_prefix (q : path) : filepath.Dir q `prefix_of` q.
Proof.
  unfold filepath.Dir. destruct q as [|x q _] using rev_ind; [done|].
  rewrite removelast_last. by apply prefix_app_r.
Qed.

Lemma branch_Dir (p q : path) : branch p q → branch p (filepath.Dir q).
Proof.
  intros [Hq|[r ->]].
  - left. etrans; [apply Dir_prefix|done].
  - destruct r as [|x r _] using rev_ind.
    + left. rewrite app_nil_r. apply Dir_prefix.
    + right. rewrite app_assoc, Dir_snoc. by apply prefix_app_r.
Qed.

Lemma branch_prefix (p q r : path) : q `prefix_of` p ++ r → branch p q.
Proof.
  intros Hq. unfold branch.
  destruct (prefix_weak_total q p (p ++ r)); auto. by apply prefix_app_r.
Qed.

Lemma mkdir_fills (now : Time) (dir p : path) (t t' : tree) :
  branch dir p → os.mkdir_k now p t = inr t' → fills dir t t'.
Proof.
  intros Hp Hk Hn. split.
  - eapply noLinksBelow_noNewLinks; [|done]. by eapply mkdir_noNewLinks.
  - eapply changesOnly_mono; [|by eapply mkdir_changesOnly].
    intros q [->| ->]; [done|by apply branch_Dir].
Qed.

Lemma writeFile_fills (now : Time) (dir p : path) (d : bytes) (t t' : tree) :
  dir `prefix_of` p → os.writeFile_k now p d t = inr t' → fills dir t t'.
Proof.
  intros Hp Hk Hn. split.
  - eapply noLinksBelow_noNewLinks; [|done]. by eapply writeFile_noNewLinks.
  - eapply changesOnly_mono; [|eapply writeFile_changesOnly; [|done]].
    + intros q [->| ->]; [by right|]. apply branch_Dir. by right.
    + intros tgt. by apply Hn.
Qed.

Lemma chtimes_fills (dir : path) (m : Time) (t t' : tree) :
  os.chtimes_k dir m t = inr t' → fills dir t t'.
Proof.
  intros Hk Hn. split.
  - eapply noLinksBelow_noNewLinks; [|done]. by eapply chtimes_noNewLinks.
  - eapply changesOnly_mono; [|eapply chtimes_changesOnly; [|done]].
    + intros q <-. apply branch_refl.
    + intros tgt. by apply Hn.
Qed.

Lemma filingPath_contained (dir : path) (m : declcfg.Meta) :
  contained m = true →
  filingPath dir m
  = dir ++ [packageNameOf m; declcfg.Schema m; declcfg.Name m +:+ ".json"].
Proof.
  unfold contained. rewrite !andb_true_iff. intros [[H1 H2] H3].
  unfold filingPath.
  change [packageNameOf m; declcfg.Schema m; declcfg.Name m +:+ ".json"]
    with (([packageNameOf m] ++ [declcfg.Schema m])
            ++ [declcfg.Name m +:+ ".json"]) at 1.
  rewrite !Join_snoc by done. rewrite Join_plain1 by done.
  by rewrite <-!app_assoc.
Qed.

Lemma writeCatalog_fills (s : os.Sys) (dir : path)
    (body : declcfg.stream) (w w' : os.World) (r : option error) :
  (∀ m, inr m ∈ body → contained m = true) →
  writeCatalog s dir body w = (r, w') → during (fills dir) w w'.
Proof.
  intros Hc. apply writeCatalog_during; [apply _|..].
  - intros m q Hm Hq t t'. apply mkdir_fills.
    rewrite filingPath_contained in Hq by auto.
    eapply branch_prefix. etrans; [done|]. apply Dir_prefix.
  - intros m Hm t t'. apply writeFile_fills.
    rewrite filingPath_contained by auto. by apply prefix_app_r.
Qed.

Lemma during_impl (R R' : relation tree) (w w' : os.World) :
  (∀ t, R (os.files w) t → R' (os.files w) t) →
  during R w w' → during R' w w'.
Proof.
  intros H [Hf (l & Hp & Hl)]. split; [auto|]. exists l. split; [done|].
  eapply Forall_impl; [done|]. auto.
Qed.

(** The trees seen up to and including a last call, which may do anything. *)
Lemma during_then_sysW (R : relation tree) (s : os.Sys)
    (k : tree → error + tree) (w w1 w' : os.World) (r : option error) (t : tree) :
  during R w w1 → os.sysW s k w1 = (r, w') →
  t ∈ observedBetween w w' → R (os.files w) t.
Proof.
  intros [Hf (l & Hp & Hl)] Hk.
  assert (os.past w' = os.files w1 :: os.past w1) as Hp'.
  { destruct r; [by apply sysW_err in Hk as [_ ?]|by apply sysW_ok in Hk as (_&_&?)]. }
  unfold observedBetween. rewrite Hp', Hp.
  change (os.files w1 :: l ++ os.past w) with ((os.files w1 :: l) ++ os.past w).
  rewrite length_app.
  replace (length (os.files w1 :: l) + length (os.past w) - length (os.past w))%nat
    with (length (os.files w1 :: l)) by lia.
  rewrite take_app_length. intros [->|Ht]%elem_of_cons; [done|].
  rewrite Forall_forall in Hl. by apply Hl.
Qed.

Lemma symlink_next (now : Time) (cp : path) (x : string) (tgt : path)
    (t t' : tree) :
  os.symlink_k now tgt (cp ++ ["next"]) t = inr t' →
  changesOnly (λ q, branch (cp ++ [x]) q ∨ q = cp ++ ["next"]) t t'.
Proof.
  intros H. eapply changesOnly_mono; [|by eapply symlink_changesOnly].
  intros q [->| ->]; [by right|]. left. rewrite Dir_snoc. left.
  by apply prefix_app_r.
Qed.

Lemma rename_next_active (now : Time) (cp : path) (x : string) (t t' : tree) :
  os.rename_k now (cp ++ ["next"]) (cp ++ ["active"]) t = inr t' →
  changesOnly (λ q, branch (cp ++ [x]) q ∨ q = cp ++ ["next"]
                    ∨ q = cp ++ ["active"]) t t'.
Proof.
  intros H. eapply changesOnly_mono; [|by eapply rename_changesOnly].
  intros q [->|[->|[->| ->]]]; auto; left; rewrite Dir_snoc; left;
    by apply prefix_app_r.
Qed.

(** Where a publication writes: on the branch of the new snapshot and at
    [next], until the final [Rename], which alone touches [active]. *)
Lemma publish_during (s : os.Sys) (cp : path) (req : http.Request)
    (body : declcfg.stream) (T : Time) (w w' : os.World) (out : Outcome) :
  (∀ m, inr m ∈ body → contained m = true) →
  publish s cp req body T w = (out, w') →
  noLinksBelow (cp ++ [time.FormatStamp T]) (os.files w) →
  (∀ t, t ∈ observedBetween w w' →
        changesOnly (λ q, branch (cp ++ [time.FormatStamp T]) q
                          ∨ q = cp ++ ["next"]) (os.files w) t)
  ∧ during (changesOnly (λ q, branch (cp ++ [time.FormatStamp T]) q
                              ∨ q = cp ++ ["next"] ∨ q = cp ++ ["active"]))
      w w'.
Proof.
  intros Hc Hpub Hn. unfold publish in Hpub.
  rewrite !Join_plain1 in Hpub by (done || apply FormatStamp_plain).
  set (real := cp ++ [time.FormatStamp T]) in *.
  set (R1 := changesOnly (λ q, branch real q ∨ q = cp ++ ["next"])).
  set (R2 := changesOnly (λ q, branch real q ∨ q = cp ++ ["next"]
                               ∨ q = cp ++ ["active"])).
  assert (∀ t, R1 (os.files w) t → R2 (os.files w) t) as H12.
  { intros t. apply changesOnly_mono. tauto. }
  assert (∀ w1, during R1 w w1 →
            (∀ t, t ∈ observedBetween w w1 → R1 (os.files w) t)
            ∧ during R2 w w1) as Hstop.
  { intros w1 Hd. split.
    - intros t. by apply during_observed.
    - by eapply during_impl. }
  destruct (writeCatalog _ _ _ w) as [r1 wc] eqn:Hwc.
  assert (during R1 w wc) as Hd1.
  { apply writeCatalog_fills in Hwc; [|done].
    eapply during_impl; [|done]. intros t Ht. destruct (Ht Hn) as [_ Hch].
    eapply changesOnly_mono; [|done]. tauto. }
  destruct r1 as [e|]; [simplify_eq; by apply Hstop|].
  destruct (os.Chtimes _ _ _ _ wc) as [r2 wd] eqn:Hwd.
  assert (during R1 w wd) as Hd2.
  { apply writeCatalog_fills in Hwc; [|done].
    apply (sysW_during (fills real)) in Hwd;
      [|intros t t'; apply chtimes_fills].
    assert (during (fills real) w wd) as Hd by (by etrans).
    eapply during_impl; [|done]. intros t Ht. destruct (Ht Hn) as [_ Hch].
    eapply changesOnly_mono; [|done]. tauto. }
  destruct r2 as [e|]; [simplify_eq; by apply Hstop|].
  destruct (os.Symlink _ _ _ wd) as [r3 we] eqn:Hwe.
  assert (during R1 w we) as Hd3.
  { etrans; [done|]. eapply sysW_during; [apply _| |done].
    intros t t'. apply symlink_next. }
  destruct r3 as [e|]; [simplify_eq; by apply Hstop|].
  destruct (os.Rename _ _ _ we) as [r4 wf] eqn:Hwf.
  assert ((∀ t, t ∈ observedBetween w wf → R1 (os.files w) t)
          ∧ during R2 w wf) as Hend.
  { split.
    - intros t. by eapply during_then_sysW.
    - transitivity we; [by eapply during_impl|].
      eapply sysW_during; [apply _| |done].
      intros t t'. apply rename_next_active. }
  destruct r4; by simplify_eq.
Qed.

(** ** The call as a whole *)

Global Instance sameAt_preorder (q : path) : PreOrder (sameAt q).
Proof.
  split; [by intros t|]. intros t1 t2 t3 H1 H2. unfold sameAt in *. congruence.
Qed.

Lemma during_past (R : relation tree) (w w' : os.World) :
  during R w w' →
  ∃ l, os.past w' = l ++ os.past w ∧ observedBetween w w' = l.
Proof.
  intros [_ (l & Hp & _)]. exists l. split; [done|].
  unfold observedBetween. rewrite Hp, length_app.
  replace (length l + length (os.past w) - length (os.past w))%nat
    with (length l) by lia.
  by rewrite take_app_length.
Qed.

Lemma observedBetween_app (R R' : relation tree) (w w1 w' : os.World) :
  during R w w1 → during R' w1 w' →
  observedBetween w w' = observedBetween w1 w' ++ observedBetween w w1.
Proof.
  intros (l1 & Hp1 & ->)%during_past (l2 & Hp2 & ->)%during_past.
  unfold observedBetween. rewrite Hp2, Hp1, app_assoc, length_app.
  replace (length (l2 ++ l1) + length (os.past w) - length (os.past w))%nat
    with (length (l2 ++ l1)) by lia.
  by rewrite take_app_length.
Qed.

Lemma negotiate_answered_at (ParseTime : string → error + Time) (env : Env)
    (c : cachingClient) (name : string) (w w' : os.World) (out : Outcome)
    (req : http.Request) (resp : http.Response) :
  negotiate ParseTime env c name w = (out, w') →
  sent out = Some req →
  Do env req = inr resp →
  answer ParseTime (sys env) (catalogPathOf c name) req resp
    (os.tick w (os.files w)) = (out, w').
Proof.
  intros H Hs Hd.
  destruct (negotiate_answered _ _ _ _ _ _ _ _ _ H Hs Hd) as (w1 & _ & Hans).
  revert H. unfold negotiate.
  destruct (os.Stat _ _ w) as [st w0] eqn:Hst.
  assert (w0 = os.tick w (os.files w)) as ->.
  { revert Hst. unfold os.Stat, os.sysR.
    destruct (os.fault _ _); intros ?; by simplify_eq. }
  intros H.
  assert (∀ cs,
    match Do env (negotiationRequest c name cs) with
    | inl err => (mkOutcome None (Some err) (Some (negotiationRequest c name cs)),
                  os.tick w (os.files w))
    | inr resp0 => answer ParseTime (sys env) (catalogPathOf c name)
                     (negotiationRequest c name cs) resp0 (os.tick w (os.files w))
    end = (out, w') →
    answer ParseTime (sys env) (catalogPathOf c name) req resp
      (os.tick w (os.files w)) = (out, w')) as Hgo.
  { intros cs Hcs.
    destruct (Do env (negotiationRequest c name cs)) as [e|resp0] eqn:Hdo.
    - simplify_eq/=. congruence.
    - assert (sent out = Some (negotiationRequest c name cs)) as Hsent
        by (by eapply answer_sent).
      rewrite Hs in Hsent. simplify_eq. by rewrite Hd in Hdo; simplify_eq. }
  destruct st as [e|i]; [|by eapply Hgo].
  destruct (os.IsNotExist e); [by eapply Hgo|].
  by simplify_eq/=.
Qed.

Lemma lruAdd_during (s : os.Sys) (name : string)
    (c c' : cachingClient) (w w' : os.World) (q : path) :
  tracks c = true → plainName name = true →
  lruAdd s name (catalogPathOf c name) c w = (c', w') →
  catalogPathOf c name `prefix_of` q →
  during (sameAt q) w w'.
Proof.
  intros Htr Hname Hadd Hq.
  apply lruAdd_world in Hadd as [->|(e & Hlast & Hne & _ & ->)]; [done|].
  apply last_elem_of in Hlast.
  destruct (tracks_elem c e Htr Hlast) as [Hplain Hval].
  apply tick_during; [apply _|]. unfold sameAt.
  rewrite Hval. apply removeAll_lookup_other.
  - apply (catalogPathOf_disjoint c name (expirable.key e) q); auto.
  - by apply (catalogPathOf_not_parent c name (expirable.key e) q).
Qed.

(** While a snapshot of a new date is written, the rest of the catalog's
    directory stays as it is: every tree an observer can see during the
    call has the old active pointer and the old snapshots, and the call
    changes the pointer with its last step only. *)
Theorem active_steady_until_rename
    (ParseTime : string → error + Time) (env : Env) (c c' : cachingClient)
    (cat : catalogd.ClusterCatalog) (w w' : os.World) (out : Outcome)
    (req : http.Request) (resp : http.Response) (T : Time) (q : path) :
  tracks c = true →
  plainName (catalogd.GetName cat) = true →
  getCatalogFS ParseTime env c cat w = (out, c', w') →
  sent out = Some req →
  Do env req = inr resp →
  http.StatusCode resp = http.StatusOK →
  ParseTime (http.Get (http.RespHeader resp) "Last-Modified") = inr T →
  (∀ m, inr m ∈ http.Body resp → contained m = true) →
  noLinksBelow (snapshotPathOf c (catalogd.GetName cat) T) (os.files w) →
  catalogPathOf c (catalogd.GetName cat) `prefix_of` q →
  q ≠ catalogPathOf c (catalogd.GetName cat) →
  ¬ snapshotPathOf c (catalogd.GetName cat) T `prefix_of` q →
  q ≠ catalogPathOf c (catalogd.GetName cat) ++ ["next"] →
  (∀ t, t ∈ observedBetween w w' → t !! q = os.files w !! q)
  ∧ (q ≠ activePathOf c (catalogd.GetName cat) →
     os.files w' !! q = os.files w !! q)
  ∧ (err out = None →
     os.files w' !! activePathOf c (catalogd.GetName cat)
     = Some (NLink [time.FormatStamp T])).
Proof.
  intros Htr Hname H Hs Hd H200 Hparse Hc Hn Hq Hqcp Hqreal Hqnext.
  rewrite getCatalogFS_stages in H. simpl in H.
  destruct (lruAdd _ _ _ c w) as [c1 w0] eqn:Hadd.
  destruct (negotiate _ _ _ _ _) as [out1 w2] eqn:Hneg. simplify_eq.
  pose proof (lruAdd_config _ _ _ _ _ _ _ Hadd) as [_ Hcd].
  eapply negotiate_answered_at in Hneg; [|done..].
  rewrite (catalogPathOf_config c c' _ Hcd) in Hneg.
  unfold answer in Hneg. rewrite H200 in Hneg. simpl in Hneg.
  rewrite Hparse in Hneg.
  rewrite snapshotPathOf_eq in *. rewrite activePathOf_eq.
  set (cp := catalogPathOf c (catalogd.GetName cat)) in *.
  set (w1 := os.tick w0 (os.files w0)) in *.
  assert (during (sameAt q) w w1) as Hpre.
  { transitivity w0; [by eapply lruAdd_during|].
    apply tick_during; [apply _|done]. }
  assert (∀ p, cp ++ [time.FormatStamp T] `prefix_of` p →
            os.files w1 !! p = os.files w !! p) as Hsub.
  { intros p Hp. apply (during_final (sameAt p) w w1).
    transitivity w0; [|apply tick_during; [apply _|done]].
    eapply lruAdd_during; [done..|]. etrans; [|done]. by apply prefix_app_r. }
  assert (¬ branch (cp ++ [time.FormatStamp T]) q) as Hnb.
  { intros [Hb|Hb]; [|done]. destruct Hq as [r Hr].
    destruct r as [|x r]; [by rewrite app_nil_r in Hr|].
    apply Hqreal. rewrite Hr in Hb. destruct Hb as [r' Hr'].
    rewrite <-app_assoc in Hr'. apply app_inv_head in Hr'.
    destruct r as [|y r]; [|destruct r'; discriminate].
    by simplify_eq/=. }
  pose proof (publish_success _ _ _ _ _ _ _ _ Hneg) as Hsucc.
  apply publish_during in Hneg as [Hobs Hfin]; [|done|].
  2:{ intros p tgt Hp. rewrite Hsub by done. by apply Hn. }
  split_and!.
  - intros t.
    rewrite (observedBetween_app _ _ w w1 w' Hpre Hfin).
    intros [Ht|Ht]%elem_of_app.
    + rewrite (Hobs t Ht q) by tauto.
      apply (during_final (sameAt q) w w1 Hpre).
    + by apply (during_observed (sameAt q) w w1).
  - intros Hqa. apply during_final in Hfin.
    rewrite (Hfin q) by tauto.
    apply (during_final (sameAt q) w w1 Hpre).
  - intros Herr. by destruct (Hsucc Herr).
Qed.

(** ** Catalogs do not write into each other *)

Lemma goneBelow_lookup (p q : path) (t : tree) :
  goneBelow p t → p `prefix_of` q → t !! q = None.
Proof.
  intros Hg Hq. destruct (t !! q) as [n|] eqn:Hn; [|done].
  by destruct (Hg q n Hn).
Qed.

Lemma goneBelow_intro (p : path) (t : tree) :
  (∀ q, p `prefix_of` q → t !! q = None) → goneBelow p t.
Proof. intros H q n Hn Hq. rewrite (H q Hq) in Hn. done. Qed.

Lemma goneBelow_noLinksBelow (p : path) (t : tree) :
  goneBelow p t → noLinksBelow p t.
Proof. intros Hg q tgt Hq. by rewrite (goneBelow_lookup p q t Hg Hq). Qed.

Lemma negotiate_cases (ParseTime : string → error + Time) (env : Env)
    (c : cachingClient) (name : string) (w w' : os.World) (out : Outcome) :
  negotiate ParseTime env c name w = (out, w') →
  w' = os.tick w (os.files w)
  ∨ ∃ req resp T,
      sent out = Some req ∧ Do env req = inr resp
      ∧ http.StatusCode resp = http.StatusOK
      ∧ ParseTime (http.Get (http.RespHeader resp) "Last-Modified") = inr T
      ∧ publish (sys env) (catalogPathOf c name) req (http.Body resp) T
          (os.tick w (os.files w)) = (out, w').
Proof.
  unfold negotiate.
  destruct (os.Stat _ _ w) as [st w0] eqn:Hst.
  assert (w0 = os.tick w (os.files w)) as ->.
  { revert Hst. unfold os.Stat, os.sysR.
    destruct (os.fault _ _); intros ?; by simplify_eq. }
  assert (∀ cs,
    match Do env (negotiationRequest c name cs) with
    | inl err => (mkOutcome None (Some err) (Some (negotiationRequest c name cs)),
                  os.tick w (os.files w))
    | inr resp0 => answer ParseTime (sys env) (catalogPathOf c name)
                     (negotiationRequest c name cs) resp0 (os.tick w (os.files w))
    end = (out, w') →
    w' = os.tick w (os.files w)
    ∨ ∃ req resp T,
        sent out = Some req ∧ Do env req = inr resp
        ∧ http.StatusCode resp = http.StatusOK
        ∧ ParseTime (http.Get (http.RespHeader resp) "Last-Modified") = inr T
        ∧ publish (sys env) (catalogPathOf c name) req (http.Body resp) T
            (os.tick w (os.files w)) = (out, w')) as Hgo.
  { intros cs.
    destruct (Do env (negotiationRequest c name cs)) as [e|resp] eqn:Hdo.
    { intros ?; simplify_eq. by left. }
    unfold answer. case_bool_decide as H304; [intros ?; simplify_eq; by left|].
    case_bool_decide as H200; [intros ?; simplify_eq; by left|].
    destruct (ParseTime _) as [e|T] eqn:Hparse; [intros ?; simplify_eq; by left|].
    intros Hpub. right. exists (negotiationRequest c name cs), resp, T.
    split_and!; try done. by apply publish_inv in Hpub as [? _]. }
  destruct st as [e|i]; [|by apply Hgo].
  destruct (os.IsNotExist e); [by apply Hgo|].
  intros ?; simplify_eq. by left.
Qed.

(** ** The reach of a call *)

Lemma branch_snoc (p q : path) (x : string) : branch (p ++ [x]) q → branch p q.
Proof.
  intros [Hq|Hq]; [by eapply branch_prefix|].
  right. etrans; [|done]. by apply prefix_app_r.
Qed.

(** The writes of a call stay on the branch of the catalog's own
    directory: whatever is elsewhere on disk, the directories of the other
    catalogs included, is after the call as the touch of the LRU has left
    it. *)
Theorem getCatalogFS_writes_confined
    (ParseTime : string → error + Time) (env : Env)
    (c c' : cachingClient) (cat : catalogd.ClusterCatalog) (w w' : os.World)
    (out : Outcome) :
  plainName (catalogd.GetName cat) = true →
  getCatalogFS ParseTime env c cat w = (out, c', w') →
  (∀ req resp T,
     sent out = Some req → Do env req = inr resp →
     http.StatusCode resp = http.StatusOK →
     ParseTime (http.Get (http.RespHeader resp) "Last-Modified") = inr T →
     (∀ m, inr m ∈ http.Body resp → contained m = true)
     ∧ noLinksBelow (snapshotPathOf c (catalogd.GetName cat) T) (os.files w)) →
  let cp := catalogPathOf c (catalogd.GetName cat) in
  let w0 := (lruAdd (sys env) (catalogd.GetName cat) cp c w).2 in
  (∀ q, ¬ branch cp q → os.files w' !! q = os.files w0 !! q)
  ∧ (∀ name' q,
       plainName name' = true → name' ≠ catalogd.GetName cat →
       catalogPathOf c name' `prefix_of` q →
       os.files w' !! q = os.files w0 !! q).
Proof.
  intros Hcat H Hresp cp w0.
  assert (∀ q, ¬ branch cp q → os.files w' !! q = os.files w0 !! q) as Hframe.
  { subst w0. rewrite getCatalogFS_stages in H. simpl in H. fold cp in H.
    destruct (lruAdd _ _ _ c w) as [c1 w1] eqn:Hadd.
    destruct (negotiate _ _ _ _ _) as [out1 w2] eqn:Hneg. simplify_eq.
    pose proof (lruAdd_config _ _ _ _ _ _ _ Hadd) as [_ Hcd].
    simpl. intros q Hq.
    apply negotiate_cases in Hneg
      as [->|(req & resp & T & Hs & Hd & H200 & Hparse & Hpub)]; [done|].
    destruct (Hresp req resp T Hs Hd H200 Hparse) as [Hc Hn].
    rewrite (catalogPathOf_config c c' _ Hcd) in Hpub. fold cp in Hpub.
    rewrite snapshotPathOf_eq in Hn. fold cp in Hn.
    apply publish_during in Hpub as [_ Hfin]; [|done|].
    2:{ simpl. intros p tgt Hp Hl. apply (Hn p tgt Hp).
        by eapply lruAdd_creates_nothing. }
    apply during_final in Hfin. simpl in Hfin. apply Hfin.
    intros [Hb|[->| ->]].
    - by apply Hq, (branch_snoc cp q (time.FormatStamp T)).
    - apply Hq. right. by apply prefix_app_r.
    - apply Hq. right. by apply prefix_app_r. }
  split; [done|].
  intros name' q Hname' Hne Hq. apply Hframe. intros [Hb|Hb].
  - apply (catalogPathOf_disjoint c name' (catalogd.GetName cat) cp);
      [done..|by etrans|done].
  - by apply (catalogPathOf_disjoint c name' (catalogd.GetName cat) q).
Qed.

(** ** What a refresh leaves in place *)

Global Instance keepsPaths_preorder : PreOrder keepsPaths.
Proof.
  split; [by intros t q ?|]. intros t1 t2 t3 H1 H2 q ?. eauto.
Qed.

Lemma touchDir_keepsPaths (now : Time) (d : path) (t : tree) :
  keepsPaths t (os.touchDir now d t).
Proof.
  intros q Hq. unfold os.touchDir. destruct (t !! d) as [[]|] eqn:Hd; try done.
  destruct (decide (d = q)) as [->|Hne].
  - by rewrite lookup_insert_eq.
  - by rewrite lookup_insert_ne.
Qed.

Lemma insert_keepsPaths (p : path) (n : node) (t : tree) :
  keepsPaths t (<[p := n]> t).
Proof.
  intros q Hq. destruct (decide (p = q)) as [->|Hne].
  - by rewrite lookup_insert_eq.
  - by rewrite lookup_insert_ne.
Qed.

Lemma mkdir_keepsPaths (now : Time) (p : path) (t t' : tree) :
  os.mkdir_k now p t = inr t' → keepsPaths t t'.
Proof.
  unfold os.mkdir_k. destruct (t !! p); [done|].
  destruct (os.parentCheck t p); [done|]. intros ?; simplify_eq.
  etrans; [apply touchDir_keepsPaths|apply insert_keepsPaths].
Qed.

Lemma writeFile_keepsPaths (now : Time) (p : path) (d : bytes) (t t' : tree) :
  os.writeFile_k now p d t = inr t' → keepsPaths t t'.
Proof.
  unfold os.writeFile_k. destruct (t !! os.deref t p) as [[]|]; try done.
  - intros ?; simplify_eq. apply insert_keepsPaths.
  - destruct (os.parentCheck t _); [done|]. intros ?; simplify_eq.
    etrans; [apply touchDir_keepsPaths|apply insert_keepsPaths].
Qed.

Lemma chtimes_keepsPaths (p : path) (m : Time) (t t' : tree) :
  os.chtimes_k p m t = inr t' → keepsPaths t t'.
Proof.
  unfold os.chtimes_k. destruct (t !! os.deref t p) as [[]|]; try done;
    intros ?; simplify_eq; apply insert_keepsPaths.
Qed.

Lemma symlink_keepsPaths (now : Time) (tgt link : path) (t t' : tree) :
  os.symlink_k now tgt link t = inr t' → keepsPaths t t'.
Proof.
  unfold os.symlink_k. destruct (t !! link); [done|].
  destruct (os.parentCheck t link); [done|]. intros ?; simplify_eq.
  etrans; [apply touchDir_keepsPaths|apply insert_keepsPaths].
Qed.

(** [Rename] removes the old name and nothing else. *)
Lemma rename_keepsPaths (now : Time) (old new : path) (t t' : tree) (q : path) :
  os.rename_k now old new t = inr t' →
  q ≠ old → is_Some (t !! q) → is_Some (t' !! q).
Proof.
  unfold os.rename_k. intros H Hq Hs.
  assert (t' = <[new := default (NDir 0) (t !! old)]>
                 (delete old
                    (os.touchDir now (filepath.Dir new)
                       (os.touchDir now (filepath.Dir old) t)))) as ->.
  { destruct (t !! old) as [[]|]; try done;
      (destruct (t !! new) as [[]|]; try done);
      (destruct (os.parentCheck t new); [done|]); by simplify_eq. }
  apply insert_keepsPaths. rewrite lookup_delete_ne by done.
  by do 2 apply touchDir_keepsPaths.
Qed.

Lemma writeCatalog_keepsPaths (s : os.Sys) (dir : path)
    (body : declcfg.stream) (w w' : os.World) (r : option error) :
  writeCatalog s dir body w = (r, w') → keepsPaths (os.files w) (os.files w').
Proof.
  intros H. apply (during_final keepsPaths w w').
  revert H. apply writeCatalog_during; [apply _|..].
  - intros m q _ _ t t'. apply mkdir_keepsPaths.
  - intros m _ t t'. apply writeFile_keepsPaths.
Qed.

(** What a publication leaves in place: every path but [next], which the
    final [Rename] alone takes away. *)
Lemma publish_keepsPaths (s : os.Sys) (cp : path) (req : http.Request)
    (body : declcfg.stream) (T : Time) (w w' : os.World) (out : Outcome)
    (q : path) :
  publish s cp req body T w = (out, w') →
  q ≠ filepath.Join cp ["next"] →
  is_Some (os.files w !! q) → is_Some (os.files w' !! q).
Proof.
  unfold publish. intros H Hq Hs.
  destruct (writeCatalog _ _ _ w) as [r1 wc] eqn:Hwc.
  apply writeCatalog_keepsPaths in Hwc. apply Hwc in Hs.
  destruct r1; [by simplify_eq|].
  destruct (os.Chtimes _ _ _ _ wc) as [r2 wd] eqn:Hwd.
  assert (is_Some (os.files wd !! q)) as Hd.
  { destruct r2 as [e|].
    - apply sysW_err in Hwd as [-> _]. done.
    - apply sysW_ok in Hwd as (_ & Hk & _). by eapply chtimes_keepsPaths. }
  destruct r2; [by simplify_eq|].
  destruct (os.Symlink _ _ _ wd) as [r3 we] eqn:Hwe.
  assert (is_Some (os.files we !! q)) as He.
  { destruct r3 as [e|].
    - apply sysW_err in Hwe as [-> _]. done.
    - apply sysW_ok in Hwe as (_ & Hk & _). by eapply symlink_keepsPaths. }
  destruct r3; [by simplify_eq|].
  destruct (os.Rename _ _ _ we) as [r4 wf] eqn:Hwf.
  assert (is_Some (os.files wf !! q)) as Hf.
  { destruct r4 as [e|].
    - apply sysW_err in Hwf as [-> _]. done.
    - apply sysW_ok in Hwf as (_ & Hk & _). by eapply rename_keepsPaths. }
  destruct r4; by simplify_eq.
Qed.

(** A refresh deletes nothing: whatever path is on disk once the LRU has
    been touched is there after the call, the temporary [next] link
    excepted.  Snapshots of earlier dates stay until the catalog is
    evicted. *)
Theorem refresh_never_deletes
    (ParseTime : string → error + Time) (env : Env)
    (c c' : cachingClient) (cat : catalogd.ClusterCatalog) (w w' : os.World)
    (out : Outcome) (q : path) :
  getCatalogFS ParseTime env c cat w = (out, c', w') →
  q ≠ filepath.Join (catalogPathOf c (catalogd.GetName cat)) ["next"] →
  is_Some (os.files (lruAdd (sys env) (catalogd.GetName cat)
                       (catalogPathOf c (catalogd.GetName cat)) c w).2 !! q) →
  is_Some (os.files w' !! q).
Proof.
  intros H Hq. rewrite getCatalogFS_stages in H. simpl in H.
  destruct (lruAdd _ _ _ c w) as [c1 w0] eqn:Hadd.
  destruct (negotiate _ _ _ _ _) as [out1 w2] eqn:Hneg. simplify_eq.
  pose proof (lruAdd_config _ _ _ _ _ _ _ Hadd) as [_ Hcd].
  simpl. intros Hs.
  apply negotiate_cases in Hneg
    as [->|(req & resp & T & _ & _ & _ & _ & Hpub)]; [done|].
  eapply publish_keepsPaths; [done| |done].
  by rewrite (catalogPathOf_config c c' _ Hcd).
Qed.

Lemma symlink_exists (now : Time) (tgt link : path) (t : tree) :
  is_Some (t !! link) → os.symlink_k now tgt link t = inl EEXIST.
Proof. intros [n Hn]. unfold os.symlink_k. by rewrite Hn. Qed.

(** A [next] link left behind blocks every later publication: the 200 is
    decomposed, but [Symlink] finds the name taken, the call returns an
    error and no view, the link stays, and the active pointer is not
    moved. *)
Theorem stale_next_blocks_publish
    (ParseTime : string → error + Time) (env : Env) (c c' : cachingClient)
    (cat : catalogd.ClusterCatalog) (w w' : os.World) (out : Outcome)
    (req : http.Request) (resp : http.Response) (T : Time) :
  tracks c = true →
  plainName (catalogd.GetName cat) = true →
  is_Some (os.files w !! (catalogPathOf c (catalogd.GetName cat) ++ ["next"])) →
  getCatalogFS ParseTime env c cat w = (out, c', w') →
  sent out = Some req →
  Do env req = inr resp →
  http.StatusCode resp = http.StatusOK →
  ParseTime (http.Get (http.RespHeader resp) "Last-Modified") = inr T →
  fsys out = None
  ∧ (∃ e, err out = Some e)
  ∧ is_Some (os.files w' !! (catalogPathOf c (catalogd.GetName cat) ++ ["next"]))
  ∧ ∀ tgt, os.files w !! activePathOf c (catalogd.GetName cat)
           = Some (NLink tgt) →
           os.files w' !! activePathOf c (catalogd.GetName cat)
           = Some (NLink tgt).
Proof.
  intros Htr Hname Hnext H Hs Hd H200 Hparse.
  eapply getCatalogFS_answered in H as (w0 & w1 & Hadd & Hf & Hans); [|done..].
  set (cp := catalogPathOf c (catalogd.GetName cat)) in *.
  assert (∀ q, cp `prefix_of` q → os.files w1 !! q = os.files w !! q) as Hsub.
  { intros q Hq. rewrite Hf. by eapply lruAdd_subtree. }
  rewrite <-(Hsub (cp ++ ["next"])) in Hnext by (by apply prefix_app_r).
  rewrite activePathOf_eq. fold cp.
  rewrite <-(Hsub (cp ++ ["active"])) by (by apply prefix_app_r).
  clear Hsub Hadd Hf.
  unfold answer in Hans. rewrite H200 in Hans. simpl in Hans.
  rewrite Hparse in Hans.
  assert (is_Some (os.files w' !! (cp ++ ["next"]))
          → (∃ e, err out = Some e) ∧ fsys out = None
            ∧ keepsLinks (os.files w1) (os.files w')
          → fsys out = None ∧ (∃ e, err out = Some e)
            ∧ is_Some (os.files w' !! (cp ++ ["next"]))
            ∧ ∀ tgt, os.files w1 !! (cp ++ ["active"]) = Some (NLink tgt) →
                     os.files w' !! (cp ++ ["active"]) = Some (NLink tgt))
    as Hfin.
  { intros ? (? & ? & Hk). split_and!; try done. intros tgt. apply Hk. }
  unfold publish in Hans. rewrite (Join_plain1 cp "next") in Hans by done.
  destruct (writeCatalog _ _ _ w1) as [r1 wc] eqn:Hwc.
  apply writeCatalog_keepsPaths in Hwc as Hp1.
  apply writeCatalog_keepsLinks in Hwc as Hk1.
  destruct r1 as [e|]; [simplify_eq/=; apply Hfin; eauto|].
  destruct (os.Chtimes _ _ _ _ wc) as [r2 wd] eqn:Hwd.
  apply Chtimes_keepsLinks in Hwd as Hk2.
  assert (keepsPaths (os.files wc) (os.files wd)) as Hp2.
  { destruct r2 as [e|].
    - apply sysW_err in Hwd as [-> _]. done.
    - apply sysW_ok in Hwd as (_ & Hk & _). by eapply chtimes_keepsPaths. }
  destruct r2 as [e|];
    [simplify_eq/=; apply Hfin; [eauto|split_and!; eauto; by etrans]|].
  assert (is_Some (os.files wd !! (cp ++ ["next"]))) as Hnd by eauto.
  destruct (os.Symlink _ _ _ wd) as [r3 we] eqn:Hwe.
  destruct r3 as [e|].
  - apply sysW_err in Hwe as [Hfe _]. simplify_eq/=. apply Hfin.
    + by rewrite Hfe.
    + split_and!; eauto. rewrite Hfe. etrans; [done|]. by etrans.
  - apply sysW_ok in Hwe as (_ & Hk & _).
    by rewrite symlink_exists in Hk.
Qed.

(** ** Edges of the negotiation *)

Lemma sysW_fail (s : os.Sys) (k : tree → error + tree) (w : os.World)
    (e : error) :
  os.fault s (os.ticks w) = None → k (os.files w) = inl e →
  os.sysW s k w = (Some e, os.tick w (os.files w)).
Proof. unfold os.sysW. by intros -> ->. Qed.

(** A 200 whose body holds no record publishes nothing: no directory is
    made for the snapshot, so [Chtimes] fails on it; the call returns that
    error and no view, and leaves the disk as it is. *)
Theorem empty_body_publishes_nothing
    (ParseTime : string → error + Time) (env : Env) (c c' : cachingClient)
    (cat : catalogd.ClusterCatalog) (w w' : os.World) (out : Outcome)
    (req : http.Request) (resp : http.Response) (T : Time) :
  tracks c = true →
  plainName (catalogd.GetName cat) = true →
  getCatalogFS ParseTime env c cat w = (out, c', w') →
  sent out = Some req →
  Do env req = inr resp →
  http.StatusCode resp = http.StatusOK →
  ParseTime (http.Get (http.RespHeader resp) "Last-Modified") = inr T →
  http.Body resp = [] →
  os.files w !! snapshotPathOf c (catalogd.GetName cat) T = None →
  let w0 :=
    (lruAdd (sys env) (catalogd.GetName cat)
       (catalogPathOf c (catalogd.GetName cat)) c w).2 in
  fsys out = None
  ∧ (∃ e, err out = Some e)
  ∧ (os.fault (sys env) (S (os.ticks w0)) = None → err out = Some ENOENT)
  ∧ os.files w' = os.files w0.
Proof.
  intros Htr Hname H Hs Hd H200 Hparse Hbody Hnone w0. subst w0.
  rewrite getCatalogFS_stages in H. cbv zeta in H.
  destruct (lruAdd _ _ _ c w) as [c1 w0] eqn:Hadd.
  destruct (negotiate _ _ _ _ _) as [out1 w2] eqn:Hneg. simplify_eq.
  pose proof (lruAdd_config _ _ _ _ _ _ _ Hadd) as [_ Hcd].
  eapply negotiate_answered_at in Hneg; [|done..].
  rewrite (catalogPathOf_config c c' _ Hcd) in Hneg.
  unfold answer in Hneg.
  rewrite bool_decide_eq_false_2 in Hneg by (by rewrite H200).
  rewrite bool_decide_eq_false_2 in Hneg by (by intros []).
  rewrite Hparse in Hneg. unfold publish in Hneg. rewrite Hbody in Hneg.
  unfold writeCatalog in Hneg. cbn [declcfg.WalkMetasReader] in Hneg.
  rewrite snapshotPathOf_eq in Hnone.
  rewrite (Join_plain1 _ (time.FormatStamp T)) in Hneg
    by apply FormatStamp_plain.
  set (real := catalogPathOf c (catalogd.GetName cat)
               ++ [time.FormatStamp T]) in *.
  set (w1 := os.tick w0 (os.files w0)) in *.
  assert (os.chtimes_k real T (os.files w1) = inl ENOENT) as Hch.
  { assert (os.files w0 !! real = None) as Hnone0.
    { rewrite <-Hnone. eapply lruAdd_subtree; [done..|].
      by apply prefix_app_r. }
    unfold os.chtimes_k, os.deref. change (os.files w1) with (os.files w0).
    by rewrite Hnone0, Hnone0. }
  change (os.files (c', w0).2) with (os.files w1).
  change (S (os.ticks (c', w0).2)) with (os.ticks w1).
  destruct (os.Chtimes (sys env) real T T w1) as [r wd] eqn:Hwd.
  destruct r as [e|].
  - apply sysW_err in Hwd as Hfiles. destruct Hfiles as [Hfiles _].
    injection Hneg as <- <-. split_and!; [done|by exists e| |done].
    intros Hnf. unfold os.Chtimes in Hwd.
    rewrite (sysW_fail _ _ _ ENOENT Hnf Hch) in Hwd. by injection Hwd as <-.
  - apply sysW_ok in Hwd as (_ & Hk & _). congruence.
Qed.

Lemma writeCatalog_app (s : os.Sys) (dir : path) (r r' : declcfg.stream)
    (w : os.World) :
  writeCatalog s dir (r ++ r') w
  = match writeCatalog s dir r w with
    | (Some e', w1) => (Some e', w1)
    | (None, w1) => writeCatalog s dir r' w1
    end.
Proof.
  unfold writeCatalog. revert w.
  induction r as [|[e0|m] r IH]; intros w.
  - done.
  - done.
  - cbn [app declcfg.WalkMetasReader].
    destruct (writeCatalog_walkFn s dir (inr m) w) as [[e1|] w1]; [done|].
    apply IH.
Qed.

(** [writeCatalog] goes through the body in order, so that a body in two
    parts is written as the one part after the other, and it stops at the
    first item that is an error: what came before is filed, what comes
    after is not looked at. *)
Theorem writeCatalog_stops_at_error (s : os.Sys) (dir : path)
    (r r' : declcfg.stream) (e : error) (w : os.World) :
  writeCatalog s dir (r ++ r') w
  = match writeCatalog s dir r w with
    | (Some e', w1) => (Some e', w1)
    | (None, w1) => writeCatalog s dir r' w1
    end
  ∧ writeCatalog s dir (r ++ inl e :: r') w
    = match writeCatalog s dir r w with
      | (Some e', w1) => (Some e', w1)
      | (None, w1) => (Some e, w1)
      end.
Proof.
  split; [apply writeCatalog_app|]. rewrite writeCatalog_app.
  by destruct (writeCatalog s dir r w) as [[e'|] w1].
Qed.

(** What a call returns is one of three things: a view and no error, and
    then the view is rooted at the active pointer of the catalog; an error
    and no view; or neither, and then a request has been answered with a
    status that is neither 200 nor 304. *)
Theorem getCatalogFS_view_xor_error
    (ParseTime : string → error + Time) (env : Env) (c : cachingClient)
    (cat : catalogd.ClusterCatalog) (w : os.World) :
  let out := (getCatalogFS ParseTime env c cat w).1.1 in
  match fsys out, err out with
  | Some v, None =>
      v = DirFS (activePathOf c (catalogd.GetName cat))
      ∧ ∃ req resp, sent out = Some req ∧ Do env req = inr resp
                    ∧ (http.StatusCode resp = http.StatusNotModified
                       ∨ http.StatusCode resp = http.StatusOK)
  | None, Some _ => True
  | None, None =>
      ∃ req resp, sent out = Some req ∧ Do env req = inr resp
                  ∧ http.StatusCode resp ≠ http.StatusNotModified
                  ∧ http.StatusCode resp ≠ http.StatusOK
  | Some _, Some _ => False
  end.
Proof.
  simpl. rewrite getCatalogFS_stages. simpl.
  destruct (lruAdd _ _ _ c w) as [c1 w0] eqn:Hadd.
  pose proof (lruAdd_config _ _ _ _ _ _ _ Hadd) as [_ Hcd].
  destruct (negotiate _ _ _ _ _) as [out w2] eqn:Hneg. simpl.
  unfold activePathOf. rewrite <-(catalogPathOf_config c c1 _ Hcd).
  revert Hneg. unfold negotiate.
  destruct (os.Stat _ _ w0) as [st w1].
  assert (∀ cs,
    match Do env (negotiationRequest c1 (catalogd.GetName cat) cs) with
    | inl err =>
        (mkOutcome None (Some err)
           (Some (negotiationRequest c1 (catalogd.GetName cat) cs)), w1)
    | inr resp0 =>
        answer ParseTime (sys env) (catalogPathOf c1 (catalogd.GetName cat))
          (negotiationRequest c1 (catalogd.GetName cat) cs) resp0 w1
    end = (out, w2) →
    match fsys out, err out with
    | Some v, None =>
        v = DirFS (filepath.Join (catalogPathOf c1 (catalogd.GetName cat))
                     ["active"])
        ∧ ∃ req resp, sent out = Some req ∧ Do env req = inr resp
                      ∧ (http.StatusCode resp = http.StatusNotModified
                         ∨ http.StatusCode resp = http.StatusOK)
    | None, Some _ => True
    | None, None =>
        ∃ req resp, sent out = Some req ∧ Do env req = inr resp
                    ∧ http.StatusCode resp ≠ http.StatusNotModified
                    ∧ http.StatusCode resp ≠ http.StatusOK
    | Some _, Some _ => False
    end) as Hgo.
  { intros cs.
    destruct (Do env (negotiationRequest c1 (catalogd.GetName cat) cs))
      as [e|resp] eqn:Hdo; [by intros ?; simplify_eq/=|].
    unfold answer. case_bool_decide as H304.
    { intros ?; simplify_eq/=. split; [done|]. eauto 10. }
    case_bool_decide as H200.
    { intros ?; simplify_eq/=. eauto 10. }
    destruct (ParseTime _) as [e|T]; [by intros ?; simplify_eq/=|].
    intros Hpub.
    apply publish_inv in Hpub
      as (Hsent & [([e He] & Hfs & _)|(Herr & Hfs & _)]); simpl in *.
    - by rewrite Hfs, He.
    - rewrite Hfs, Herr. split; [done|]. eauto 10. }
  destruct st as [e|i]; [|apply Hgo].
  destruct (os.IsNotExist e); [apply Hgo|].
  by intros ?; simplify_eq/=.
Qed.

(** ** The handlers *)

(** The opening the handlers share lets a request through to the cache
    only for a catalog that is found and unpacked.  Otherwise each of the
    five handlers answers at once, with 500 and the lookup error or with
    503, and neither the client nor the disk is touched. *)
Theorem handlers_require_unpacked
    (ParseTime : string → error + Time)
    (Unmarshal : bytes → error + declcfg.PackageT) (env : Env)
    (resource catalogName packageName schema objectName : string)
    (cc : cachingClient) (w : os.World) (stop : served) :
  match cluster env resource catalogName with
  | inl e => stop = internalError e
  | inr cat =>
      catalogd.Phase cat ≠ catalogd.PhaseUnpacked
      ∧ stop = Wrote (http.Error (http.Text "catalog not unpacked")
                        http.StatusServiceUnavailable)
  end →
  listPackagesHandler ParseTime env resource catalogName cc w = (stop, cc, w)
  ∧ listPackageSchemasHandler ParseTime env resource catalogName packageName
      cc w = (stop, cc, w)
  ∧ listObjectsHandler ParseTime env resource catalogName packageName schema
      cc w = (stop, cc, w)
  ∧ getObjectHandler ParseTime env resource catalogName packageName schema
      objectName cc w = (stop, cc, w)
  ∧ getPackageIconHandler ParseTime Unmarshal env resource catalogName
      packageName cc w = (stop, cc, w).
Proof.
  intros Hstop.
  assert (openCatalog ParseTime env resource catalogName cc w
          = (inl stop, cc, w)) as Hopen.
  { unfold openCatalog.
    destruct (cluster env resource catalogName) as [e|cat]; [by subst|].
    destruct Hstop as [Hph ->]. by rewrite bool_decide_eq_true_2. }
  unfold listPackagesHandler, listPackageSchemasHandler, listObjectsHandler,
    getObjectHandler, getPackageIconHandler.
  by rewrite Hopen.
Qed.



(** The names of the entries of a directory are distinct. *)
Lemma childEntry_Some (q p : path) (n : node) (e : fs.DirEntry) :
  fs.childEntry q (p, n) = Some e → p = q ++ [fs.Name e].
Proof.
  unfold fs.childEntry. simpl. destruct (last p) as [c|]; [|done].
  case_bool_decide; [|done]. by intros ?; simplify_eq.
Qed.

Lemma children_names_NoDup (t : tree) (q : path) :
  NoDup (fs.Name <$> children t q).
Proof.
  unfold children.
  pose proof (NoDup_fst_map_to_list t) as Hnd.
  induction (map_to_list t) as [|[p n] l IH]; [constructor|].
  simpl in Hnd. apply NoDup_cons in Hnd as [Hp Hnd]. simpl.
  destruct (fs.childEntry q (p, n)) as [e|] eqn:He; [|by apply IH].
  simpl. apply NoDup_cons. split; [|by apply IH].
  intros Hin. apply Hp.
  apply list_elem_of_fmap in Hin as (e' & Hname & Hin).
  apply list_elem_of_omap in Hin as ([p' n'] & Hin & He').
  apply childEntry_Some in He. apply childEntry_Some in He'.
  apply list_elem_of_fmap. exists (p', n'). split; [|done].
  simpl. congruence.
Qed.

Lemma dirNames_NoDup (t : tree) (q : path) : NoDup (dirNames (children t q)).
Proof.
  unfold dirNames. eapply sublist_NoDup; [apply children_names_NoDup|].
  apply fmap_sublist, sublist_filter.
Qed.

Lemma ReadDir_nofault (s : os.Sys) (fsys : FS) (name : path) (w : os.World) :
  os.fault s (os.ticks w) = None →
  fs.ValidPath name = true →
  (fs.ReadDir s fsys name w).1
  = fs.readDir_k (fs.locate (os.files w) fsys name) (os.files w).
Proof.
  intros Hf Hv. unfold fs.ReadDir. rewrite sysR_nofault by done.
  by rewrite Hv.
Qed.

(** [list schemas]: on a resolved view, for a package whose directory is
    there, the answer is the list of the names of the directories directly
    below it, in ascending order and without repetition. *)
Theorem schemas_listing_sorted
    (ParseTime : string → error + Time) (env : Env)
    (resource catalogName packageName : string)
    (cc cc1 : cachingClient) (w w1 : os.World) (fsys : FS) (m : Time) :
  openCatalog ParseTime env resource catalogName cc w
  = (inr (Some fsys), cc1, w1) →
  os.fault (sys env) (os.ticks w1) = None →
  fs.ValidPath (fs.elements packageName) = true →
  let t := os.files w1 in
  let pkgdir := fs.locate t fsys (fs.elements packageName) in
  t !! pkgdir = Some (NDir m) →
  ∃ names w2,
    listPackageSchemasHandler ParseTime env resource catalogName packageName
      cc w = (okJSON names, cc1, w2)
    ∧ Sorted String.le names
    ∧ NoDup names
    ∧ ∀ x, x ∈ names ↔ ∃ m', t !! (pkgdir ++ [x]) = Some (NDir m').
Proof.
  intros Hopen Hfault Hvalid t pkgdir Hdir.
  unfold listPackageSchemasHandler. rewrite Hopen.
  pose proof (ReadDir_nofault (sys env) fsys _ w1 Hfault Hvalid) as Hrd.
  destruct (fs.ReadDir (sys env) fsys _ w1) as [r w2]. simpl in Hrd.
  subst r. fold t pkgdir. unfold fs.readDir_k. rewrite Hdir.
  fold (children t pkgdir).
  eexists _, w2. split_and!; [done|..].
  - apply sort_Strings_sorted.
  - rewrite sort_Strings_perm. apply dirNames_NoDup.
  - intros x. rewrite sort_Strings_perm. apply dirNames_elem.
Qed.

(** ** The LRU across calls *)

Lemma tracks_sublist (c c' : cachingClient) :
  cacheDir c' = cacheDir c →
  expirable.evictList (lru c') `sublist_of` expirable.evictList (lru c) →
  tracks c = true → tracks c' = true.
Proof.
  intros Hcd Hsub. unfold tracks. rewrite !forallb_forall.
  intros H e He%list_elem_of_In. rewrite (catalogPathOf_config c c' _ Hcd).
  apply H, list_elem_of_In. by eapply elem_of_sublist.
Qed.

Lemma removelast_sublist {A} (l : list A) : removelast l `sublist_of` l.
Proof.
  destruct l as [|x l _] using rev_ind; [done|].
  rewrite removelast_last. by apply sublist_inserts_r.
Qed.

Lemma filter_hasKey_length (k : string) (l : list expirable.entry) :
  existsb (expirable.hasKey k) l = true →
  (S (length (filter (λ e, expirable.key e ≠ k) l)) ≤ length l)%nat.
Proof.
  induction l as [|e l IH]; [done|]. simpl. rewrite filter_cons.
  unfold expirable.hasKey at 1. case_bool_decide as Hk; simpl.
  - intros _. rewrite decide_False by (by intros []).
    pose proof (length_filter (λ e, expirable.key e ≠ k) l). lia.
  - intros H. rewrite decide_True by done. simpl. specialize (IH H). lia.
Qed.

Lemma removelast_cons_length {A} (x : A) (l : list A) :
  length (removelast (x :: l)) = length l.
Proof.
  pose proof (app_removelast_last x (l:=x :: l) ltac:(discriminate)) as H.
  apply (f_equal length) in H. rewrite length_app in H.
  cbn [length] in H. lia.
Qed.

Lemma lruAdd_bounded (s : os.Sys) (k : string) (c c' : cachingClient)
    (w w' : os.World) :
  plainName k = true →
  lruAdd s k (catalogPathOf c k) c w = (c', w') →
  bounded c →
  bounded c'
  ∧ expirable.size (lru c') = expirable.size (lru c)
  ∧ expirable.ttl (lru c') = expirable.ttl (lru c)
  ∧ head (expirable.evictList (lru c'))
    = Some (expirable.mkEntry k (catalogPathOf c k)
              (os.now s + expirable.ttl (lru c))).
Proof.
  intros Hk Hadd (Htr & Hnd & Hpos & Hlen).
  pose proof (lruAdd_config _ _ _ _ _ _ _ Hadd) as [_ Hcd].
  unfold lruAdd, expirable.Add in Hadd.
  set (ent := expirable.mkEntry k (catalogPathOf c k)
                (os.now s + expirable.ttl (lru c))) in *.
  set (l := expirable.evictList (lru c)) in *.
  assert (∀ l', l' `sublist_of` ent :: l →
    tracks (mkClient (baseURL c) (cacheDir c)
              (expirable.mkLRU (expirable.size (lru c))
                 (expirable.ttl (lru c)) l')) = true) as Htr1.
  { intros l' Hsub. unfold tracks. cbn [lru expirable.evictList].
    apply forallb_forall. intros e He%list_elem_of_In.
    apply (elem_of_sublist _ _ _ He) in Hsub.
    apply elem_of_cons in Hsub as [->|Hin].
    - cbn [expirable.key expirable.value ent]. rewrite Hk.
      by rewrite bool_decide_eq_true_2.
    - unfold tracks in Htr. rewrite forallb_forall in Htr.
      apply Htr. by apply list_elem_of_In. }
  unfold bounded.
  destruct (existsb (expirable.hasKey k) l) eqn:Hex.
  - injection Hadd as <- <-. cbn [lru expirable.evictList expirable.size
                                   expirable.ttl head].
    split_and!; try done.
    + apply Htr1. apply sublist_skip, sublist_filter.
    + rewrite fmap_cons. apply NoDup_cons. split.
      * intros (e & Hke & [Hne _]%list_elem_of_filter)%list_elem_of_fmap.
        by apply Hne.
      * eapply sublist_NoDup; [exact Hnd|]. apply fmap_sublist, sublist_filter.
    + pose proof (filter_hasKey_length k _ Hex). simpl length. lia.
  - assert (NoDup (expirable.key <$> ent :: l)) as Hnd1.
    { rewrite fmap_cons. apply NoDup_cons. split; [|done].
      intros (e & Hke & He)%list_elem_of_fmap.
      by apply (existsb_hasKey_false k _ e Hex He). }
    destruct (bool_decide (0 < expirable.size (lru c))%nat
              && bool_decide (expirable.size (lru c) < length (ent :: l))%nat)
      eqn:Hfull.
    + apply andb_prop in Hfull as [_ Hlt%bool_decide_eq_true].
      simpl length in Hlt.
      assert (l ≠ []) as Hne.
      { intros Hnil. rewrite Hnil in Hlt. simpl in Hlt. lia. }
      assert (head (removelast (ent :: l)) = Some ent) as Hhd.
      { destruct l as [|e0 l0]; [done|]. done. }
      pose proof (removelast_sublist (ent :: l)) as Hsub.
      pose proof (removelast_cons_length ent l) as Hrl.
      set (rl := removelast (ent :: l)) in *.
      injection Hadd as <- <-. cbn [lru expirable.evictList expirable.size
                                     expirable.ttl].
      split_and!; try done.
      * by apply Htr1.
      * eapply sublist_NoDup; [exact Hnd1|]. by apply fmap_sublist.
      * lia.
    + injection Hadd as <- <-. cbn [lru expirable.evictList expirable.size
                                     expirable.ttl head].
      split_and!; try done.
      * by apply Htr1.
      * apply andb_false_iff in Hfull
          as [Hf%bool_decide_eq_false|Hf%bool_decide_eq_false];
          simpl length in *; lia.
Qed.

(** A client of [newCachingClient] starts within its bound of 100, and
    every call keeps it there: the catalog asked for is entered at the
    front, under its own directory and with 24 hours to live from now, no
    catalog is entered twice, and no more than 100 are tracked. *)
Theorem getCatalogFS_keeps_bounded
    (ParseTime : string → error + Time) (env : Env) (c c' : cachingClient)
    (cat : catalogd.ClusterCatalog) (w w' : os.World) (out : Outcome) :
  plainName (catalogd.GetName cat) = true →
  bounded c →
  getCatalogFS ParseTime env c cat w = (out, c', w') →
  bounded c'
  ∧ expirable.size (lru c') = expirable.size (lru c)
  ∧ expirable.ttl (lru c') = expirable.ttl (lru c)
  ∧ head (expirable.evictList (lru c'))
    = Some (expirable.mkEntry (catalogd.GetName cat)
              (catalogPathOf c (catalogd.GetName cat))
              (os.now (sys env) + expirable.ttl (lru c)))
  ∧ ∀ cacheDir baseURL,
      bounded (newCachingClient cacheDir baseURL)
      ∧ expirable.size (lru (newCachingClient cacheDir baseURL)) = 100%nat
      ∧ expirable.ttl (lru (newCachingClient cacheDir baseURL)) = 24 * 3600.
Proof.
  intros Hname Hb H. rewrite getCatalogFS_stages in H. cbv zeta in H.
  destruct (lruAdd _ _ _ c w) as [c1 w0] eqn:Hadd.
  destruct (negotiate _ _ _ _ _) as [out1 w2]. injection H as <- <- <-.
  destruct (lruAdd_bounded _ _ _ _ _ _ Hname Hadd Hb) as (? & ? & ? & ?).
  split_and!; try done.
  intros cd bu. split_and!; try done.
  unfold bounded, newCachingClient, tracks. simpl.
  split_and!; [done|constructor|lia|lia].
Qed.

(** * The snapshot a publication leaves *)

(** ** Filing, step by step *)

Global Instance keepsKinds_preorder : PreOrder keepsKinds.
Proof.
  split.
  - intros t. split; eauto.
  - intros t1 t2 t3 [Hd1 Hf1] [Hd2 Hf2]. split.
    + intros q m Hq. destruct (Hd1 q m Hq) as [m' Hq']. eauto.
    + intros q m d Hq. destruct (Hf1 q m d Hq) as (m' & d' & Hq'). eauto.
Qed.

Global Instance filing_preorder (dir : path) (X : path → Prop) :
  PreOrder (filing dir X).
Proof.
  split.
  - intros t Hn Hw. split_and!; done || reflexivity.
  - intros t1 t2 t3 H1 H2 Hn Hw.
    destruct (H1 Hn Hw) as (Hn2 & Hw2 & Hc1 & Hk1).
    destruct (H2 Hn2 Hw2) as (Hn3 & Hw3 & Hc2 & Hk2).
    split_and!; try done; by etrans.
Qed.

Lemma filing_mono (dir : path) (X Y : path → Prop) (t t' : tree) :
  (∀ q, X q → Y q) → filing dir X t t' → filing dir Y t t'.
Proof.
  intros HXY H Hn Hw. destruct (H Hn Hw) as (? & ? & ? & ?).
  split_and!; try done. by eapply changesOnly_mono.
Qed.

Lemma touchDir_keepsKinds (now : Time) (d : path) (t : tree) :
  keepsKinds t (os.touchDir now d t).
Proof.
  unfold os.touchDir. destruct (t !! d) as [[]|] eqn:Hd; try reflexivity.
  split.
  - intros q m Hq. destruct (decide (d = q)) as [->|Hne].
    + rewrite lookup_insert_eq. eauto.
    + rewrite lookup_insert_ne by done. eauto.
  - intros q m d0 Hq. destruct (decide (d = q)) as [->|Hne]; [congruence|].
    rewrite lookup_insert_ne by done. eauto.
Qed.

(** A new entry, made in a directory. *)
Lemma created_filing (now : Time) (dir p : path) (n : node)
    (X : path → Prop) (t : tree) (m0 : Time) :
  t !! p = None →
  t !! filepath.Dir p = Some (NDir m0) →
  (∀ tgt, n ≠ NLink tgt) →
  X p → X (filepath.Dir p) →
  filing dir X t (<[p := n]> (os.touchDir now (filepath.Dir p) t)).
Proof.
  intros Hp Hpar Hn Xp Xd Hnl Hwf.
  assert (p ≠ filepath.Dir p) as Hpd by congruence.
  assert (os.touchDir now (filepath.Dir p) t !! filepath.Dir p
          = Some (NDir now)) as Htd.
  { unfold os.touchDir. rewrite Hpar. by rewrite lookup_insert_eq. }
  split_and!.
  - eapply noLinksBelow_noNewLinks; [|done].
    etrans; [apply touchDir_noNewLinks|by apply insert_noNewLinks].
  - intros q x Hq Hs. destruct (decide (p = q ++ [x])) as [Heq|Hne].
    + assert (filepath.Dir p = q) as Hdq by (by rewrite Heq, Dir_snoc).
      rewrite lookup_insert_ne by congruence. rewrite <-Hdq. eauto.
    + rewrite lookup_insert_ne in Hs by done.
      destruct Hs as [n' Hs]. apply touchDir_lookup_Some in Hs.
      destruct (Hwf q x Hq Hs) as [m Hm].
      assert (p ≠ q) as Hpq by congruence.
      rewrite lookup_insert_ne by done.
      destruct (touchDir_keepsKinds now (filepath.Dir p) t) as [Hd _].
      by eapply Hd.
  - eapply changesOnly_mono; [|apply created_changesOnly].
    intros q [->| ->]; done.
  - etrans; [apply touchDir_keepsKinds|]. split.
    + intros q m Hq. destruct (decide (p = q)) as [->|Hne].
      * apply touchDir_lookup_Some in Hq. rewrite Hp in Hq.
        by destruct Hq.
      * rewrite lookup_insert_ne by done. eauto.
    + intros q m d Hq. destruct (decide (p = q)) as [->|Hne].
      * apply touchDir_lookup_Some in Hq. rewrite Hp in Hq.
        by destruct Hq.
      * rewrite lookup_insert_ne by done. eauto.
Qed.

(** An entry replaced by one of its kind. *)
Lemma replaced_filing (dir p : path) (n n' : node) (X : path → Prop)
    (t : tree) :
  t !! p = Some n →
  match n, n' with
  | NDir _, NDir _ | NFile _ _, NFile _ _ => True
  | _, _ => False
  end →
  X p →
  filing dir X t (<[p := n']> t).
Proof.
  intros Hp Hkind Xp Hnl Hwf.
  assert (keepsKinds t (<[p := n']> t)) as Hk.
  { split.
    - intros q m Hq. destruct (decide (p = q)) as [->|Hne].
      + rewrite lookup_insert_eq. rewrite Hp in Hq. simplify_eq.
        destruct n'; try done. eauto.
      + rewrite lookup_insert_ne by done. eauto.
    - intros q m d Hq. destruct (decide (p = q)) as [->|Hne].
      + rewrite lookup_insert_eq. rewrite Hp in Hq. simplify_eq.
        destruct n'; try done. eauto.
      + rewrite lookup_insert_ne by done. eauto. }
  split_and!; [| | |done].
  - eapply noLinksBelow_noNewLinks; [|done]. apply insert_noNewLinks.
    intros tgt ->. by destruct n.
  - intros q x Hq Hs.
    assert (is_Some (t !! (q ++ [x]))) as Hs'.
    { destruct (decide (p = q ++ [x])) as [<-|Hne]; [eauto|].
      by rewrite lookup_insert_ne in Hs. }
    destruct (Hwf q x Hq Hs') as [m Hm]. by apply Hk in Hm.
  - eapply changesOnly_mono; [|apply insert_changesOnly]. by intros q <-.
Qed.

Lemma parentCheck_dir (t : tree) (p : path) :
  os.parentCheck t p = None → ∃ m, t !! filepath.Dir p = Some (NDir m).
Proof.
  unfold os.parentCheck. destruct (t !! filepath.Dir p) as [[]|]; eauto; done.
Qed.

Lemma mkdir_filing (now : Time) (dir p : path) (X : path → Prop)
    (t t' : tree) :
  X p → X (filepath.Dir p) →
  os.mkdir_k now p t = inr t' → filing dir X t t'.
Proof.
  intros Xp Xd. unfold os.mkdir_k. destruct (t !! p) eqn:Hp; [done|].
  destruct (os.parentCheck t p) eqn:Hpar; [done|]. intros ?; simplify_eq.
  apply parentCheck_dir in Hpar as [m Hm].
  by eapply created_filing.
Qed.

Lemma writeFile_filing (now : Time) (dir p : path) (d : bytes)
    (X : path → Prop) (t t' : tree) :
  dir `prefix_of` p → X p → X (filepath.Dir p) →
  os.writeFile_k now p d t = inr t' → filing dir X t t'.
Proof.
  intros Hdp Xp Xd Hk Hnl Hwf. revert Hk. unfold os.writeFile_k.
  assert (os.deref t p = p) as ->.
  { unfold os.deref. destruct (t !! p) as [[]|] eqn:E; try done.
    by destruct (Hnl p target Hdp). }
  destruct (t !! p) as [[]|] eqn:Hp; try done.
  - intros ?; simplify_eq. by eapply (replaced_filing dir p).
  - destruct (os.parentCheck t p) eqn:Hpar; [done|]. intros ?; simplify_eq.
    apply parentCheck_dir in Hpar as [m Hm].
    by eapply created_filing.
Qed.

Lemma chtimes_filing (dir : path) (m : Time) (X : path → Prop)
    (t t' : tree) :
  X dir → os.chtimes_k dir m t = inr t' → filing dir X t t'.
Proof.
  intros Xd Hk Hnl Hwf. revert Hk. unfold os.chtimes_k.
  assert (os.deref t dir = dir) as ->.
  { unfold os.deref. destruct (t !! dir) as [[]|] eqn:E; try done.
    by destruct (Hnl dir target). }
  destruct (t !! dir) as [[]|] eqn:Hp; try done;
    intros ?; simplify_eq; by eapply (replaced_filing dir dir).
Qed.

Lemma writeCatalog_filing (s : os.Sys) (dir : path)
    (body : declcfg.stream) (w w' : os.World) (r : option error) :
  (∀ m, inr m ∈ body → contained m = true) →
  writeCatalog s dir body w = (r, w') →
  during (filing dir (filedAt dir body)) w w'.
Proof.
  intros Hc. apply writeCatalog_during; [apply _|..].
  - intros m q Hm Hq t t'.
    assert (q `prefix_of` filingPath dir m) as Hq'.
    { etrans; [done|]. apply Dir_prefix. }
    apply mkdir_filing.
    + by exists m.
    + exists m. split; [done|]. etrans; [apply Dir_prefix|done].
  - intros m Hm t t'. apply writeFile_filing.
    + rewrite filingPath_contained by auto. by apply prefix_app_r.
    + by exists m.
    + exists m. split; [done|]. apply Dir_prefix.
Qed.

Lemma goneBelow_wfBelow (dir : path) (t : tree) :
  goneBelow dir t → wfBelow dir t.
Proof.
  intros Hg q x Hq [n Hn].
  rewrite (goneBelow_lookup dir (q ++ [x]) t) in Hn; [done|done|].
  by apply prefix_app_r.
Qed.

Lemma filedAt_dec (dir : path) (body : declcfg.stream) (q : path) :
  filedAt dir body q ∨ ¬ filedAt dir body q.
Proof.
  induction body as [|[e|m] body IH].
  - right. intros (m & Hm & _). by apply elem_of_nil in Hm.
  - destruct IH as [(m & Hm & Hq)|Hn].
    + left. exists m. split; [by right|done].
    + right. intros (m & Hm & Hq). apply Hn. exists m. split; [|done].
      by apply elem_of_cons in Hm as [?|?].
  - destruct (decide (q `prefix_of` filingPath dir m)) as [Hq|Hnq].
    { left. exists m. split; [by left|done]. }
    destruct IH as [(m' & Hm & Hq)|Hn].
    + left. exists m'. split; [by right|done].
    + right. intros (m' & Hm & Hq). apply elem_of_cons in Hm as [Heq|Hm].
      * by simplify_eq.
      * apply Hn. by exists m'.
Qed.

Lemma prefix_same_length {A} (l k : list A) :
  l `prefix_of` k → length l = length k → l = k.
Proof.
  intros [z ->] Hlen. rewrite length_app in Hlen.
  destruct z; [by rewrite app_nil_r|simpl in Hlen; lia].
Qed.

Lemma filingPath_length (dir : path) (m : declcfg.Meta) :
  contained m = true → length (filingPath dir m) = (length dir + 3)%nat.
Proof. intros H. rewrite filingPath_contained by done. by rewrite length_app. Qed.

(** The file of the record just filed. *)
Lemma walkFn_filed (s : os.Sys) (dir : path) (m : declcfg.Meta)
    (w w' : os.World) :
  contained m = true →
  noLinksBelow dir (os.files w) → wfBelow dir (os.files w) →
  writeCatalog_walkFn s dir (inr m) w = (None, w') →
  noLinksBelow dir (os.files w') ∧ wfBelow dir (os.files w')
  ∧ ∃ mt, os.files w' !! filingPath dir m = Some (NFile mt (declcfg.Blob m)).
Proof.
  intros Hc Hnl Hwf Hfn.
  assert (writeCatalog s dir [inr m] w = (None, w')) as Hwc.
  { unfold writeCatalog. cbn [declcfg.WalkMetasReader]. by rewrite Hfn. }
  apply writeCatalog_filing in Hwc.
  2:{ intros m' ->%list_elem_of_singleton%(inj inr). done. }
  apply during_final in Hwc. destruct (Hwc Hnl Hwf) as (Hnl' & Hwf' & _ & _).
  split_and!; try done.
  apply walkFn_files in Hfn. unfold contentAt, os.deref in Hfn.
  destruct (os.files w' !! filingPath dir m) as [[]|] eqn:E;
    rewrite ?E in Hfn; try done.
  - simplify_eq. eauto.
  - destruct (Hnl' (filingPath dir m) target); [|done].
    rewrite filingPath_contained by done. by apply prefix_app_r.
Qed.

(** What [writeCatalog] leaves in a directory that was not there: the
    entries are the filing paths of the body and what leads to them, each
    record's file holds a record's bytes, and those of the last record
    filed at its path. *)
Lemma writeCatalog_snapshot (s : os.Sys) (dir : path)
    (body : declcfg.stream) (w w' : os.World) :
  (∀ m, inr m ∈ body → contained m = true) →
  goneBelow dir (os.files w) →
  writeCatalog s dir body w = (None, w') →
  noLinksBelow dir (os.files w') ∧ wfBelow dir (os.files w')
  ∧ (∀ q, dir `prefix_of` q → is_Some (os.files w' !! q) →
          filedAt dir body q)
  ∧ (∀ r1 m r2, body = r1 ++ inr m :: r2 →
       (∀ m', inr m' ∈ r2 → filingPath dir m' ≠ filingPath dir m) →
       ∃ mt, os.files w' !! filingPath dir m
             = Some (NFile mt (declcfg.Blob m)))
  ∧ (∀ m, inr m ∈ body →
       ∃ mt d, os.files w' !! filingPath dir m = Some (NFile mt d)).
Proof.
  intros Hc Hg Hwc.
  pose proof (goneBelow_noLinksBelow _ _ Hg) as Hnl.
  pose proof (goneBelow_wfBelow _ _ Hg) as Hwf.
  pose proof (during_final _ _ _ (writeCatalog_filing _ _ _ _ _ _ Hc Hwc))
    as Hfin.
  destruct (Hfin Hnl Hwf) as (Hnl' & Hwf' & Hch & _).
  assert (∀ r1 m r2, body = r1 ++ inr m :: r2 →
    ∃ wi mt, os.files wi !! filingPath dir m
             = Some (NFile mt (declcfg.Blob m))
           ∧ filing dir (filedAt dir r2) (os.files wi) (os.files w')
           ∧ noLinksBelow dir (os.files wi) ∧ wfBelow dir (os.files wi))
    as Hsplit.
  { intros r1 m r2 ->.
    assert (∀ m', inr m' ∈ r1 → contained m' = true) as Hc1.
    { intros m' Hm'. apply Hc, elem_of_app. by left. }
    assert (contained m = true) as Hcm.
    { apply Hc, elem_of_app. right. by left. }
    assert (∀ m', inr m' ∈ r2 → contained m' = true) as Hc2.
    { intros m' Hm'. apply Hc, elem_of_app. right. by right. }
    rewrite writeCatalog_app in Hwc.
    destruct (writeCatalog s dir r1 w) as [[e|] w1] eqn:H1; [done|].
    pose proof (during_final _ _ _ (writeCatalog_filing _ _ _ _ _ _ Hc1 H1))
      as Hf1.
    destruct (Hf1 Hnl Hwf) as (Hnl1 & Hwf1 & _ & _).
    unfold writeCatalog in Hwc. cbn [declcfg.WalkMetasReader] in Hwc.
    destruct (writeCatalog_walkFn s dir (inr m) w1) as [[e|] wi] eqn:Hfn;
      [done|].
    destruct (walkFn_filed _ _ _ _ _ Hcm Hnl1 Hwf1 Hfn)
      as (Hnli & Hwfi & mt & Hmt).
    exists wi, mt. split_and!; try done.
    apply (during_final _ wi w').
    by apply (writeCatalog_filing s dir r2 wi w' None). }
  split_and!; try done.
  - intros q Hq Hs. destruct (filedAt_dec dir body q) as [|Hn]; [done|].
    rewrite (Hch q Hn), (goneBelow_lookup dir q _ Hg Hq) in Hs.
    by destruct Hs.
  - intros r1 m r2 Hb Hlast.
    destruct (Hsplit r1 m r2 Hb) as (wi & mt & Hmt & Hf & Hnli & Hwfi).
    destruct (Hf Hnli Hwfi) as (_ & _ & Hch2 & _).
    exists mt. rewrite Hch2; [done|].
    intros (m' & Hm' & Hpre). apply (Hlast m' Hm'). symmetry.
    apply prefix_same_length; [done|].
    rewrite !filingPath_length; [done|..].
    + apply Hc. subst body. apply elem_of_app. right. by right.
    + apply Hc. subst body. apply elem_of_app. right. by left.
  - intros m Hm. apply list_elem_of_split in Hm as (r1 & r2 & Hb).
    destruct (Hsplit r1 m r2 Hb) as (wi & mt & Hmt & Hf & Hnli & Hwfi).
    destruct (Hf Hnli Hwfi) as (_ & _ & _ & [_ Hk]).
    by eapply Hk.
Qed.

Lemma wfBelow_ancestors (dir q l : path) (t : tree) :
  wfBelow dir t → dir `prefix_of` q → l ≠ [] →
  is_Some (t !! (q ++ l)) → ∃ m, t !! q = Some (NDir m).
Proof.
  intros Hwf Hq. induction l as [|x l IH] using rev_ind; [done|].
  intros _ Hs. rewrite app_assoc in Hs.
  destruct (Hwf (q ++ l) x) as [m Hm]; [by apply prefix_app_r|done|].
  destruct l as [|y l]; [rewrite app_nil_r in Hm; eauto|].
  apply IH; [done|eauto].
Qed.

Lemma writeCatalog_snapshotOf (s : os.Sys) (dir : path)
    (body : declcfg.stream) (w w' : os.World) :
  (∀ m, inr m ∈ body → contained m = true) →
  goneBelow dir (os.files w) →
  writeCatalog s dir body w = (None, w') →
  wfBelow dir (os.files w') ∧ snapshotOf dir body (os.files w').
Proof.
  intros Hc Hg Hwc.
  destruct (writeCatalog_snapshot _ _ _ _ _ Hc Hg Hwc)
    as (Hnl & Hwf & Hdom & Hlast & Hfile).
  split; [done|]. split_and!; try done.
  intros m q Hm Hq [l Hl] Hne.
  destruct l as [|x l]; [by rewrite app_nil_r in Hl|].
  apply (wfBelow_ancestors dir q (x :: l)); [done..|].
  rewrite <-Hl. destruct (Hfile m Hm) as (mt & d & ->). eauto.
Qed.

(** A snapshot stays one when its tree changes outside of it, its own
    directory staying a directory. *)
Lemma snapshotOf_kept (dir : path) (body : declcfg.stream) (t t' : tree) :
  (∀ m, inr m ∈ body → contained m = true) →
  (∀ q, dir `prefix_of` q → q ≠ dir → t' !! q = t !! q) →
  (is_Some (t' !! dir) → is_Some (t !! dir)) →
  (∀ m, t !! dir = Some (NDir m) → ∃ m', t' !! dir = Some (NDir m')) →
  snapshotOf dir body t → snapshotOf dir body t'.
Proof.
  intros Hc Hsame Hback Hdir (Hnl & Hdom & Hdirs & Hfile & Hlast).
  assert (∀ m, inr m ∈ body →
            t' !! filingPath dir m = t !! filingPath dir m) as Hfp.
  { intros m Hm. apply Hsame.
    - rewrite filingPath_contained by auto. by apply prefix_app_r.
    - intros Heq. apply (f_equal length) in Heq.
      rewrite filingPath_length in Heq by auto. lia. }
  split_and!.
  - intros q tgt Hq Hl. destruct (decide (q = dir)) as [->|Hne].
    + assert (is_Some (t !! dir)) as [n Hn] by (apply Hback; eauto).
      destruct (Hdom dir) as (m & Hm & Hpre); [done|eauto|].
      destruct (Hdirs m dir Hm) as [mt Hmt]; [done..| |].
      { intros Heq. apply (f_equal length) in Heq.
        rewrite filingPath_length in Heq by auto. lia. }
      destruct (Hdir mt Hmt) as [m' Hm']. congruence.
    + rewrite Hsame in Hl by done. by eapply Hnl.
  - intros q Hq Hs. apply Hdom; [done|].
    destruct (decide (q = dir)) as [->|Hne]; [by apply Hback|].
    by rewrite <-Hsame.
  - intros m q Hm Hq Hpre Hne. destruct (Hdirs m q Hm Hq Hpre Hne) as [mt Hmt].
    destruct (decide (q = dir)) as [->|Hnd]; [by eapply Hdir|].
    rewrite Hsame by done. eauto.
  - intros m Hm. rewrite Hfp by done. by apply Hfile.
  - intros r1 m r2 Hb Hl. rewrite Hfp; [by eapply Hlast|].
    subst body. apply elem_of_app. right. by left.
Qed.

Lemma snoc_prefix_inv {A} (p q : list A) (x y : A) :
  p ++ [x] `prefix_of` q → q = p ++ [y] → x = y.
Proof.
  intros [l Hl] ->. rewrite <-app_assoc in Hl. apply app_inv_head in Hl.
  by destruct l; simplify_eq/=.
Qed.

(** What a publication that succeeds leaves on disk when the snapshot
    directory was not there: the body, as filed, under the directory the
    active pointer leads to. *)
Lemma publish_snapshot (s : os.Sys) (cp : path) (req : http.Request)
    (body : declcfg.stream) (T : Time) (w w' : os.World) (out : Outcome) :
  (∀ m, inr m ∈ body → contained m = true) →
  goneBelow (cp ++ [time.FormatStamp T]) (os.files w) →
  publish s cp req body T w = (out, w') →
  err out = None →
  fsys out = Some (DirFS (cp ++ ["active"]))
  ∧ os.files w' !! (cp ++ ["active"]) = Some (NLink [time.FormatStamp T])
  ∧ os.files w' !! (cp ++ [time.FormatStamp T]) = Some (NDir T)
  ∧ snapshotOf (cp ++ [time.FormatStamp T]) body (os.files w').
Proof.
  intros Hc Hg Hpub Herr.
  pose proof (publish_success _ _ _ _ _ _ _ _ Hpub Herr) as [Hact HT].
  apply publish_inv in Hpub as (_ & [([e He] & _)|(_ & Hfs & Hsteps)]);
    [congruence|].
  destruct Hsteps as (wc & wd & we & Hwc & Hch & Hsy & Hre).
  rewrite !Join_plain1 in * by (done || apply FormatStamp_plain).
  split; [done|]. split; [done|].
  set (real := cp ++ [time.FormatStamp T]) in *.
  apply writeCatalog_snapshotOf in Hwc as [Hwf Hsnap]; [|done..].
  apply sysW_ok in Hch as (_ & Hch & _).
  apply sysW_ok in Hsy as (_ & Hsy & _).
  apply sysW_ok in Hre as (_ & Hre & _).
  pose proof Hsnap as (Hnl & _).
  destruct (chtimes_filing real T (eq real) _ _ eq_refl Hch Hnl Hwf)
    as (_ & _ & Hc1 & [Hk1 _]).
  apply symlink_changesOnly in Hsy. apply rename_changesOnly in Hre.
  rewrite !Dir_snoc in *.
  assert (∀ q, real `prefix_of` q →
            q ≠ cp ∧ q ≠ cp ++ ["next"] ∧ q ≠ cp ++ ["active"]) as Hout.
  { intros q Hq. split_and!; intros ->.
    - apply prefix_length in Hq. unfold real in Hq.
      rewrite length_app in Hq. simpl in Hq. lia.
    - apply (FormatStamp_ne T "next"); [by vm_compute|].
      by eapply snoc_prefix_inv.
    - apply (FormatStamp_ne T "active"); [by vm_compute|].
      by eapply snoc_prefix_inv. }
  assert (∀ q, real `prefix_of` q →
            os.files w' !! q = os.files wd !! q) as Hsame.
  { intros q Hq. destruct (Hout q Hq) as (? & ? & ?).
    rewrite Hre, Hsy; [done|tauto|tauto]. }
  assert (is_Some (os.files wc !! real)) as Hthere.
  { revert Hch. unfold os.chtimes_k.
    assert (os.deref (os.files wc) real = real) as ->.
    { unfold os.deref. destruct (os.files wc !! real) as [[]|] eqn:E; try done.
      by destruct (Hnl real target). }
    destruct (os.files wc !! real); [eauto|done]. }
  assert (snapshotOf real body (os.files w')) as Hsnap'.
  { apply (snapshotOf_kept real body (os.files wc)); try done.
    - intros q Hq Hne. rewrite Hsame by done. by apply Hc1.
    - intros m Hm. rewrite Hsame by done. by eapply Hk1. }
  split; [|done].
  destruct Hsnap as (_ & Hdom & Hdirs & _).
  destruct (Hdom real) as (m & Hm & Hpre); [done..|].
  destruct (Hdirs m real Hm) as [mt Hmt]; [done..| |].
  { intros Heq. apply (f_equal length) in Heq.
    rewrite filingPath_length in Heq by auto. lia. }
  destruct (Hk1 real mt Hmt) as [m' Hm']. rewrite <-Hsame in Hm' by done.
  by rewrite Hm', (HT m' Hm').
Qed.

(** The same of a call of [getCatalogFS] that has published. *)
Lemma getCatalogFS_snapshot
    (ParseTime : string → error + Time) (env : Env) (c c' : cachingClient)
    (cat : catalogd.ClusterCatalog) (w w' : os.World) (out : Outcome)
    (req : http.Request) (resp : http.Response) (T : Time) :
  tracks c = true →
  plainName (catalogd.GetName cat) = true →
  getCatalogFS ParseTime env c cat w = (out, c', w') →
  sent out = Some req →
  Do env req = inr resp →
  http.StatusCode resp = http.StatusOK →
  ParseTime (http.Get (http.RespHeader resp) "Last-Modified") = inr T →
  (∀ m, inr m ∈ http.Body resp → contained m = true) →
  goneBelow (snapshotPathOf c (catalogd.GetName cat) T) (os.files w) →
  err out = None →
  fsys out = Some (DirFS (activePathOf c (catalogd.GetName cat)))
  ∧ os.files w' !! activePathOf c (catalogd.GetName cat)
    = Some (NLink [time.FormatStamp T])
  ∧ os.files w' !! snapshotPathOf c (catalogd.GetName cat) T = Some (NDir T)
  ∧ snapshotOf (snapshotPathOf c (catalogd.GetName cat) T) (http.Body resp)
      (os.files w').
Proof.
  intros Htr Hname H Hs Hd H200 Hparse Hc Hg Herr.
  rewrite getCatalogFS_stages in H. simpl in H.
  destruct (lruAdd _ _ _ c w) as [c1 w0] eqn:Hadd.
  destruct (negotiate _ _ _ _ _) as [out1 w2] eqn:Hneg. simplify_eq.
  pose proof (lruAdd_config _ _ _ _ _ _ _ Hadd) as [_ Hcd].
  eapply negotiate_answered_at in Hneg; [|done..].
  rewrite (catalogPathOf_config c c' _ Hcd) in Hneg.
  unfold answer in Hneg. rewrite H200 in Hneg. simpl in Hneg.
  rewrite Hparse in Hneg.
  rewrite snapshotPathOf_eq in *. rewrite activePathOf_eq.
  set (cp := catalogPathOf c (catalogd.GetName cat)) in *.
  set (w1 := os.tick w0 (os.files w0)) in *.
  eapply publish_snapshot; [done| |done..].
  apply goneBelow_intro. intros p Hp.
  rewrite <-(goneBelow_lookup _ p _ Hg Hp).
  apply (during_final (sameAt p) w w1).
  transitivity w0; [|apply tick_during; [apply _|done]].
  eapply lruAdd_during; [done..|]. etrans; [|done]. by apply prefix_app_r.
Qed.

(** ** File names and object names *)

Lemma string_app_assoc (a b c : string) : (a +:+ b) +:+ c = a +:+ (b +:+ c).
Proof.
  induction a as [|x a IH]; [done|]. by rewrite !string_app_cons, IH.
Qed.

Lemma rev_app_append (a b : string) :
  String.rev_app a b = String.rev_app a "" +:+ b.
Proof.
  revert b. induction a as [|x a IH]; intros b; [done|]. simpl.
  rewrite (IH (String x b)), (IH (String x "")).
  by rewrite string_app_assoc.
Qed.

Lemma string_rev_app (a b : string) :
  String.rev (a +:+ b) = String.rev b +:+ String.rev a.
Proof.
  unfold String.rev.
  assert (∀ c, String.rev_app (a +:+ b) c
               = String.rev_app b (String.rev_app a c)) as ->.
  { induction a as [|x a IH]; intros c; [done|].
    rewrite string_app_cons. simpl. apply IH. }
  apply rev_app_append.
Qed.

Lemma stripPrefix_app (p r : string) : stripPrefix p (p +:+ r) = Some r.
Proof.
  induction p as [|x p IH]; [done|]. rewrite string_app_cons. simpl.
  by rewrite bool_decide_eq_true_2.
Qed.

(** The object name comes back from the file name. *)
Lemma TrimSuffix_app (s suffix : string) : TrimSuffix (s +:+ suffix) suffix = s.
Proof.
  unfold TrimSuffix. rewrite string_rev_app, stripPrefix_app.
  apply string_rev_involutive.
Qed.

Lemma string_app_inj_r (a b suffix : string) :
  a +:+ suffix = b +:+ suffix → a = b.
Proof.
  intros H. rewrite <-(TrimSuffix_app a suffix), H. apply TrimSuffix_app.
Qed.

Lemma Join_plain3 (base : path) (a b c : string) :
  plainName a = true → plainName b = true → plainName c = true →
  filepath.Join base [a; b; c] = base ++ [a; b; c].
Proof.
  intros Ha Hb Hc.
  change [a; b; c] with (([a] ++ [b]) ++ [c]) at 1.
  rewrite !Join_snoc by done. rewrite Join_plain1 by done.
  by rewrite <-!app_assoc.
Qed.

Lemma Join_plain2 (base : path) (a b : string) :
  plainName a = true → plainName b = true →
  filepath.Join base [a; b] = base ++ [a; b].
Proof.
  intros Ha Hb.
  change [a; b] with ([a] ++ [b]) at 1.
  rewrite !Join_snoc by done. rewrite Join_plain1 by done.
  by rewrite <-!app_assoc.
Qed.

Lemma elements_plain (s : string) : plainName s = true → fs.elements s = [s].
Proof.
  intros (Hn & _ & Hd & _)%plainName_inv. unfold fs.elements.
  rewrite bool_decide_eq_false_2 by done. by apply splitSlash_noSlash.
Qed.

Lemma ValidPath_plain (l : path) :
  Forall (λ s, plainName s = true) l → fs.ValidPath l = true.
Proof.
  induction 1 as [|s l Hs _ IH]; [done|].
  apply plainName_inv in Hs as (_ & H1 & H2 & H3). simpl.
  rewrite !bool_decide_eq_false_2 by done. simpl. apply IH.
Qed.

Lemma json_plain (s : string) :
  plainName s = true → plainName (s +:+ ".json") = true.
Proof.
  intros (Hn & H1 & _)%plainName_inv. unfold plainName.
  rewrite noSlash_app, Hn. simpl.
  assert (5 < String.length (s +:+ ".json"))%nat as Hlen.
  { rewrite string_length_app. destruct s; [done|]. simpl. lia. }
  rewrite !bool_decide_eq_false_2; [done|..]; intros Heq;
    rewrite Heq in Hlen; simpl in Hlen; lia.
Qed.

(** ** What a snapshot holds, level by level *)

Section SnapshotOf.

Context (dir : path) (body : declcfg.stream) (t : tree).
Hypothesis Hc : ∀ m, inr m ∈ body → contained m = true.
Hypothesis Hsnap : snapshotOf dir body t.

Lemma contained_inv (m : declcfg.Meta) :
  contained m = true →
  plainName (packageNameOf m) = true ∧ plainName (declcfg.Schema m) = true
  ∧ plainName (declcfg.Name m +:+ ".json") = true.
Proof. unfold contained. rewrite !andb_true_iff. tauto. Qed.

Lemma snapshotOf_filed (l : path) :
  is_Some (t !! (dir ++ l)) →
  ∃ m, inr m ∈ body
       ∧ l `prefix_of` [packageNameOf m; declcfg.Schema m;
                        declcfg.Name m +:+ ".json"].
Proof.
  intros Hs. destruct Hsnap as (_ & Hdom & _).
  destruct (Hdom (dir ++ l)) as (m & Hm & Hpre);
    [by apply prefix_app_r|done|].
  exists m. split; [done|]. rewrite filingPath_contained in Hpre by auto.
  by apply prefix_app_inv in Hpre.
Qed.

Lemma snapshotOf_leads (m : declcfg.Meta) (l : path) :
  inr m ∈ body →
  l `prefix_of` [packageNameOf m; declcfg.Schema m] →
  ∃ mt, t !! (dir ++ l) = Some (NDir mt).
Proof.
  intros Hm Hl. destruct Hsnap as (_ & _ & Hdirs & _).
  apply (Hdirs m); [done|by apply prefix_app_r|..].
  - rewrite filingPath_contained by auto. apply prefix_app.
    etrans; [done|]. by exists [declcfg.Name m +:+ ".json"].
  - intros Heq. apply (f_equal length) in Heq.
    rewrite filingPath_length, length_app in Heq by auto.
    apply prefix_length in Hl. simpl in Hl. lia.
Qed.

(** The directories directly below the snapshot are the buckets. *)
Lemma snapshotOf_buckets (b : string) :
  (∃ mt, t !! (dir ++ [b]) = Some (NDir mt))
  ↔ ∃ m, inr m ∈ body ∧ packageNameOf m = b.
Proof.
  split.
  - intros [mt Hmt]. destruct (snapshotOf_filed [b]) as (m & Hm & Hpre);
      [eauto|]. exists m. split; [done|].
    apply prefix_cons_inv_1 in Hpre. done.
  - intros (m & Hm & <-). apply (snapshotOf_leads m); [done|].
    by exists [declcfg.Schema m].
Qed.

(** Those of a bucket are the schemas of its records. *)
Lemma snapshotOf_schemas (b s : string) :
  (∃ mt, t !! (dir ++ [b; s]) = Some (NDir mt))
  ↔ ∃ m, inr m ∈ body ∧ packageNameOf m = b ∧ declcfg.Schema m = s.
Proof.
  split.
  - intros [mt Hmt]. destruct (snapshotOf_filed [b; s]) as (m & Hm & Hpre);
      [eauto|]. exists m. split; [done|].
    pose proof (prefix_cons_inv_1 _ _ _ _ Hpre) as ->.
    apply prefix_cons_inv_2, prefix_cons_inv_1 in Hpre. done.
  - intros (m & Hm & <- & <-). by apply (snapshotOf_leads m).
Qed.

(** What is in the directory of a bucket and schema are the files of the
    records of that bucket and schema. *)
Lemma snapshotOf_objects (b s f : string) (n : node) :
  t !! (dir ++ [b; s; f]) = Some n →
  os.isDirNode n = false
  ∧ ∃ m, inr m ∈ body ∧ packageNameOf m = b ∧ declcfg.Schema m = s
         ∧ declcfg.Name m +:+ ".json" = f.
Proof.
  intros Hn. destruct (snapshotOf_filed [b; s; f]) as (m & Hm & Hpre);
    [eauto|].
  apply prefix_same_length in Hpre; [|done]. simplify_eq.
  destruct Hsnap as (_ & _ & _ & Hfile & _).
  destruct (Hfile m Hm) as (mt & d & Hf).
  rewrite filingPath_contained in Hf by auto. rewrite Hf in Hn.
  simplify_eq. split; [done|]. by exists m.
Qed.

Lemma snapshotOf_file (m : declcfg.Meta) :
  inr m ∈ body →
  ∃ mt d, t !! (dir ++ [packageNameOf m; declcfg.Schema m;
                        declcfg.Name m +:+ ".json"]) = Some (NFile mt d).
Proof.
  intros Hm. destruct Hsnap as (_ & _ & _ & Hfile & _).
  destruct (Hfile m Hm) as (mt & d & Hf).
  rewrite filingPath_contained in Hf by auto. eauto.
Qed.

(** The file of a record has the bytes of the last record of its bucket,
    schema and name. *)
Lemma snapshotOf_last (r1 r2 : declcfg.stream) (m : declcfg.Meta) :
  body = r1 ++ inr m :: r2 →
  (∀ m', inr m' ∈ r2 →
         ¬ (packageNameOf m' = packageNameOf m
            ∧ declcfg.Schema m' = declcfg.Schema m
            ∧ declcfg.Name m' = declcfg.Name m)) →
  ∃ mt, t !! (dir ++ [packageNameOf m; declcfg.Schema m;
                      declcfg.Name m +:+ ".json"])
        = Some (NFile mt (declcfg.Blob m)).
Proof.
  intros Hb Hlast. destruct Hsnap as (_ & _ & _ & _ & Hl).
  assert (contained m = true) as Hcm.
  { apply Hc. rewrite Hb. apply elem_of_app. right. by left. }
  destruct (Hl r1 m r2 Hb) as [mt Hmt].
  - intros m' Hm'.
    assert (contained m' = true) as Hcm'.
    { apply Hc. rewrite Hb. apply elem_of_app. right. by right. }
    rewrite !filingPath_contained by done.
    intros Heq%app_inv_head. apply (Hlast m' Hm').
    injection Heq as H1 H2 H3. split_and!; try done.
    by eapply string_app_inj_r.
  - rewrite filingPath_contained in Hmt by done. eauto.
Qed.

(** Where the names handed to a view resolved to the snapshot lead. *)
Lemma locate_snapshot (active : path) (x : string) (l : path) :
  t !! active = Some (NLink [x]) →
  dir = filepath.Dir active ++ [x] →
  fs.locate t (DirFS active) l = dir ++ l.
Proof.
  intros Ha Hd. destruct Hsnap as (Hnl & _).
  unfold fs.locate.
  assert (os.deref t active = dir) as ->.
  { unfold os.deref. by rewrite Ha. }
  destruct l as [|y l]; [by rewrite app_nil_r|].
  unfold os.deref.
  destruct (t !! (dir ++ y :: l)) as [[]|] eqn:E; try done.
  destruct (Hnl (dir ++ y :: l) target); [by apply prefix_app_r|done].
Qed.

End SnapshotOf.

(** * From the body to the answers *)

Lemma objectNames_NoDup (t : tree) (q : path) :
  (∀ f n, t !! (q ++ [f]) = Some n → os.isDirNode n = false →
          ∃ x, f = x +:+ ".json") →
  NoDup (objectNames (children t q)).
Proof.
  intros Hjson. unfold objectNames.
  pose proof (children_names_NoDup t q) as Hnd.
  apply NoDup_fmap_2_strong.
  - intros [f1 d1] [f2 d2] [Hd1 Hin1]%list_elem_of_filter
      [Hd2 Hin2]%list_elem_of_filter Heq. simpl in *. subst d1 d2.
    apply children_elem in Hin1 as (n1 & Hn1 & Hk1).
    apply children_elem in Hin2 as (n2 & Hn2 & Hk2).
    destruct (Hjson f1 n1 Hn1 Hk1) as [x1 ->].
    destruct (Hjson f2 n2 Hn2 Hk2) as [x2 ->].
    rewrite !TrimSuffix_app in Heq. by subst.
  - apply NoDup_filter. by apply NoDup_fmap_1 in Hnd.
Qed.

Section Published.

(** A handler is called for a catalog that is unpacked; the negotiation
    is answered with a 200 dated [T], for which the disk has no snapshot
    yet, and the body, whose records have plain names, is published; the
    read of the handler meets no fault. *)
Context (ParseTime : string → error + Time) (env : Env)
        (resource catalogName : string) (cc cc1 : cachingClient)
        (cat : catalogd.ClusterCatalog) (w w1 : os.World) (out : Outcome)
        (req : http.Request) (resp : http.Response) (T : Time).
Hypothesis Hcat : cluster env resource catalogName = inr cat.
Hypothesis Hphase : catalogd.Phase cat = catalogd.PhaseUnpacked.
Hypothesis Htracks : tracks cc = true.
Hypothesis Hname : plainName (catalogd.GetName cat) = true.
Hypothesis Hcall : getCatalogFS ParseTime env cc cat w = (out, cc1, w1).
Hypothesis Hsent : sent out = Some req.
Hypothesis Hdo : Do env req = inr resp.
Hypothesis H200 : http.StatusCode resp = http.StatusOK.
Hypothesis Hparse :
  ParseTime (http.Get (http.RespHeader resp) "Last-Modified") = inr T.
Hypothesis Hcontained : ∀ m, inr m ∈ http.Body resp → contained m = true.
Hypothesis Hfresh :
  goneBelow (snapshotPathOf cc (catalogd.GetName cat) T) (os.files w).
Hypothesis Herr : err out = None.
Hypothesis Hnofault : os.fault (sys env) (os.ticks w1) = None.

Let view : FS := DirFS (activePathOf cc (catalogd.GetName cat)).
Let real : path := snapshotPathOf cc (catalogd.GetName cat) T.

Lemma published_open :
  openCatalog ParseTime env resource catalogName cc w
  = (inr (Some view), cc1, w1)
  ∧ os.files w1 !! real = Some (NDir T)
  ∧ snapshotOf real (http.Body resp) (os.files w1)
  ∧ ∀ l, fs.locate (os.files w1) view l = real ++ l.
Proof.
  destruct (getCatalogFS_snapshot ParseTime env cc cc1 cat w w1 out req resp T)
    as (Hfs & Hact & Hreal & Hsnap); try done.
  split_and!; try done.
  - unfold openCatalog. rewrite Hcat.
    rewrite bool_decide_eq_false_2 by (by intros []).
    rewrite Hcall, Herr. by rewrite Hfs.
  - intros l. apply (locate_snapshot real (http.Body resp) _ Hsnap _
                       (time.FormatStamp T)); [done|].
    unfold real. rewrite snapshotPathOf_eq, activePathOf_eq.
    by rewrite Dir_snoc.
Qed.

(** [list packages] after a publication: the answer is the list of the
    buckets of the records of the body, each once, in ascending order. *)
Theorem listPackages_after_publish :
  ∃ names w2,
    listPackagesHandler ParseTime env resource catalogName cc w
    = (okJSON names, cc1, w2)
    ∧ Sorted String.le names
    ∧ NoDup names
    ∧ ∀ x, x ∈ names ↔ ∃ m, inr m ∈ http.Body resp ∧ packageNameOf m = x.
Proof.
  destruct published_open as (Hopen & Hreal & Hsnap & Hloc).
  unfold listPackagesHandler. rewrite Hopen.
  change (fs.elements ".") with (@nil string).
  pose proof (ReadDir_ok (sys env) view [] w1 T Hnofault eq_refl) as Hrd.
  rewrite Hloc, app_nil_r in Hrd. specialize (Hrd Hreal).
  destruct (fs.ReadDir (sys env) view [] w1) as [r w2]. cbn [fst] in Hrd.
  subst r. eexists _, w2. split_and!; [done|..].
  - apply sort_Strings_sorted.
  - rewrite sort_Strings_perm. apply dirNames_NoDup.
  - intros x. rewrite sort_Strings_perm, dirNames_elem.
    by apply snapshotOf_buckets.
Qed.

(** [list schemas] after a publication, for the bucket of a record of
    the body: the answer is the list of the schemas of the records of that
    bucket, each once, in ascending order. *)
Theorem listPackageSchemas_after_publish (m0 : declcfg.Meta) :
  inr m0 ∈ http.Body resp →
  ∃ names w2,
    listPackageSchemasHandler ParseTime env resource catalogName
      (packageNameOf m0) cc w
    = (okJSON names, cc1, w2)
    ∧ Sorted String.le names
    ∧ NoDup names
    ∧ ∀ x, x ∈ names ↔
           ∃ m, inr m ∈ http.Body resp
                ∧ packageNameOf m = packageNameOf m0
                ∧ declcfg.Schema m = x.
Proof.
  intros Hm0.
  destruct published_open as (Hopen & Hreal & Hsnap & Hloc).
  destruct (contained_inv m0) as (Hb & Hs & _); [auto|].
  unfold listPackageSchemasHandler. rewrite Hopen.
  rewrite elements_plain by done.
  destruct (snapshotOf_leads real _ _ Hcontained Hsnap m0
              [packageNameOf m0]) as [mt Hmt];
    [done|by exists [declcfg.Schema m0]|].
  pose proof (ReadDir_ok (sys env) view [packageNameOf m0] w1 mt Hnofault)
    as Hrd.
  rewrite Hloc in Hrd.
  assert (fs.ValidPath [packageNameOf m0] = true) as Hv
    by (apply ValidPath_plain; by repeat constructor).
  specialize (Hrd Hv Hmt).
  destruct (fs.ReadDir (sys env) view _ w1) as [r w2]. cbn [fst] in Hrd.
  subst r. eexists _, w2. split_and!; [done|..].
  - apply sort_Strings_sorted.
  - rewrite sort_Strings_perm. apply dirNames_NoDup.
  - intros x. rewrite sort_Strings_perm, dirNames_elem.
    rewrite <-app_assoc. by apply snapshotOf_schemas.
Qed.

(** [list objects] after a publication, for the bucket and schema of a
    record of the body: the answer is the list of the names of the records
    of that bucket and schema, each once, in ascending order. *)
Theorem listObjects_after_publish (m0 : declcfg.Meta) :
  inr m0 ∈ http.Body resp →
  ∃ names w2,
    listObjectsHandler ParseTime env resource catalogName
      (packageNameOf m0) (declcfg.Schema m0) cc w
    = (okJSON names, cc1, w2)
    ∧ Sorted String.le names
    ∧ NoDup names
    ∧ ∀ x, x ∈ names ↔
           ∃ m, inr m ∈ http.Body resp
                ∧ packageNameOf m = packageNameOf m0
                ∧ declcfg.Schema m = declcfg.Schema m0
                ∧ declcfg.Name m = x.
Proof.
  intros Hm0.
  destruct published_open as (Hopen & Hreal & Hsnap & Hloc).
  destruct (contained_inv m0) as (Hb & Hs & _); [auto|].
  unfold listObjectsHandler. rewrite Hopen.
  rewrite Join_plain2 by done. rewrite app_nil_l.
  set (objdir := [packageNameOf m0; declcfg.Schema m0]).
  destruct (snapshotOf_leads real _ _ Hcontained Hsnap m0 objdir)
    as [mt Hmt]; [done..|].
  pose proof (ReadDir_ok (sys env) view objdir w1 mt Hnofault) as Hrd.
  rewrite Hloc in Hrd.
  assert (fs.ValidPath objdir = true) as Hv
    by (apply ValidPath_plain; by repeat constructor).
  specialize (Hrd Hv Hmt).
  destruct (fs.ReadDir (sys env) view _ w1) as [r w2]. cbn [fst] in Hrd.
  subst r. eexists _, w2.
  assert (∀ f n, os.files w1 !! ((real ++ objdir) ++ [f]) = Some n →
            os.isDirNode n = false
            ∧ ∃ m, inr m ∈ http.Body resp
                   ∧ packageNameOf m = packageNameOf m0
                   ∧ declcfg.Schema m = declcfg.Schema m0
                   ∧ declcfg.Name m +:+ ".json" = f) as Hobj.
  { intros f n. rewrite <-app_assoc. by apply snapshotOf_objects. }
  split_and!; [done|..].
  - apply sort_Strings_sorted.
  - rewrite sort_Strings_perm. apply objectNames_NoDup.
    intros f n Hn _. destruct (Hobj f n Hn) as (_ & m & _ & _ & _ & <-).
    eauto.
  - intros x. rewrite sort_Strings_perm, objectNames_elem. split.
    + intros (f & n & Hn & _ & ->).
      destruct (Hobj f n Hn) as (_ & m & Hm & Hmb & Hms & <-).
      exists m. by rewrite TrimSuffix_app.
    + intros (m & Hm & Hmb & Hms & <-).
      destruct (snapshotOf_file real _ _ Hcontained Hsnap m Hm)
        as (mt' & d & Hf).
      exists (declcfg.Name m +:+ ".json"), (NFile mt' d).
      rewrite TrimSuffix_app. split_and!; try done.
      rewrite <-app_assoc. unfold objdir. rewrite <-Hmb, <-Hms. done.
Qed.


Section Icon.

(** [json.Unmarshal] into a [declcfg.Package]. *)
Context (Unmarshal : bytes → error + declcfg.PackageT).

(** The icon of a package after a publication: the icon handler answers
    from the last descriptor of the package in the body: with the icon it
    declares, under its media type; not found if it declares none; an
    internal error if it does not parse. *)
Theorem getPackageIcon_after_publish
    (r1 r2 : declcfg.stream) (m : declcfg.Meta) :
  http.Body resp = r1 ++ inr m :: r2 →
  declcfg.Schema m = declcfg.SchemaPackage →
  declcfg.Name m ≠ "" →
  (∀ m', inr m' ∈ r2 →
         ¬ (declcfg.Schema m' = declcfg.SchemaPackage
            ∧ declcfg.Name m' = declcfg.Name m)) →
  ∃ w2,
    getPackageIconHandler ParseTime Unmarshal env resource catalogName
      (declcfg.Name m) cc w
    = (match Unmarshal (declcfg.Blob m) with
       | inl e => internalError e
       | inr pkg =>
           match declcfg.PackageIcon pkg with
           | None => Wrote (http.Error (http.Text "icon not found")
                              http.StatusNotFound)
           | Some icon =>
               Wrote (http.mkWritten http.StatusOK
                        (Some (declcfg.MediaType icon))
                        (http.Raw (declcfg.Data icon)))
           end
       end, cc1, w2).
Proof.
  intros Hb Hschema Hnm Hlast.
  destruct published_open as (Hopen & Hreal & Hsnap & Hloc).
  assert (inr m ∈ http.Body resp) as Hm.
  { rewrite Hb. apply elem_of_app. right. by left. }
  assert (packageNameOf m = declcfg.Name m) as Hpkg.
  { unfold packageNameOf. cbv zeta.
    rewrite (bool_decide_eq_true_2 _ Hschema).
    by rewrite bool_decide_eq_false_2. }
  destruct (contained_inv m) as (Hpb & Hps & Hpn); [auto|].
  rewrite Hpkg in Hpb. rewrite Hschema in Hps.
  unfold getPackageIconHandler. rewrite Hopen.
  rewrite Join_plain3 by done. rewrite app_nil_l.
  set (name := [declcfg.Name m; declcfg.SchemaPackage;
                declcfg.Name m +:+ ".json"]).
  destruct (snapshotOf_last real _ _ Hcontained Hsnap r1 r2 m Hb)
    as [mt Hmt].
  { intros m' Hm' (H1 & H2 & H3). apply (Hlast m' Hm'). split; [|done].
    by rewrite H2. }
  rewrite Hpkg, Hschema in Hmt. fold name in Hmt.
  pose proof (ReadFile_nofault (sys env) view name w1 Hnofault) as Hrd.
  assert (fs.ValidPath name = true) as Hv
    by (apply ValidPath_plain; by repeat constructor).
  specialize (Hrd Hv).
  rewrite Hloc in Hrd. unfold fs.readFile_k in Hrd. rewrite Hmt in Hrd.
  destruct (fs.ReadFile (sys env) view name w1) as [r w2]. cbn [fst] in Hrd.
  subst r. exists w2.
  destruct (Unmarshal (declcfg.Blob m)) as [e|pkg]; [done|].
  by destruct (declcfg.PackageIcon pkg).
Qed.

(** A package without a descriptor in the body has no icon: asked for a
    name that no [olm.package] record of the body carries, the icon
    handler answers not found, whatever else the body files under that
    name. *)
Theorem getPackageIcon_without_descriptor (packageName : string) :
  plainName packageName = true →
  (∀ m, inr m ∈ http.Body resp →
        ¬ (declcfg.Schema m = declcfg.SchemaPackage
           ∧ declcfg.Name m = packageName)) →
  ∃ w2,
    getPackageIconHandler ParseTime Unmarshal env resource catalogName
      packageName cc w
    = (Wrote (http.Error (http.Text "package not found")
                http.StatusNotFound), cc1, w2).
Proof.
  intros Hp Hnone.
  destruct published_open as (Hopen & Hreal & Hsnap & Hloc).
  unfold getPackageIconHandler. rewrite Hopen.
  rewrite Join_plain3 by (done || by apply json_plain). rewrite app_nil_l.
  set (name := [packageName; declcfg.SchemaPackage; packageName +:+ ".json"]).
  pose proof (ReadFile_nofault (sys env) view name w1 Hnofault) as Hrd.
  assert (fs.ValidPath name = true) as Hv.
  { apply ValidPath_plain. unfold name.
    repeat constructor; try done. by apply json_plain. }
  specialize (Hrd Hv).
  rewrite Hloc in Hrd. unfold fs.readFile_k in Hrd.
  assert (os.files w1 !! (real ++ name) = None) as Hgone.
  { destruct (os.files w1 !! (real ++ name)) as [n|] eqn:Hn; [|done].
    destruct (snapshotOf_objects real _ _ Hcontained Hsnap _ _ _ n Hn)
      as (_ & m & Hm & _ & Hs & Hf).
    destruct (Hnone m Hm). split; [done|]. by eapply string_app_inj_r. }
  rewrite Hgone in Hrd.
  destruct (fs.ReadFile (sys env) view name w1) as [r w2]. cbn [fst] in Hrd.
  subst r. by exists w2.
Qed.

End Icon.

End Published.

(** * The properties on the sample catalog *)

Lemma triple_eta {A B C : Type} (x : A * B * C) : x = (x.1.1, x.1.2, x.2).
Proof. by destruct x as [[? ?] ?]. Qed.

Example first_published :
  fsys Sample.first.1.1 = Some (DirFS Sample.active)
  ∧ err Sample.first.1.1 = None
  ∧ os.files Sample.disk1 !! Sample.active = Some (NLink ["20240301_150405"])
  ∧ os.files Sample.disk1 !! Sample.snapshot = Some (NDir Sample.T0)
  ∧ tracks Sample.client1 = true.
Proof. vm_compute. done. Qed.

(** C1, at the input on which it fails.  The catalog has an active
    snapshot of date [T0]; the remote source answers the next request with
    a 200 of the same date and the records [foo'] and [foo_v2].  While that
    call is decomposing, the disk goes through a tree in which the active
    pointer resolves to the very directory being written: [foo'] is already
    filed in it, [foo_v2] is not yet, and [foo_v1] of the old snapshot is
    still there. *)
Theorem active_observed_mid_decomposition :
  fsys Sample.again.1.1 = Some (DirFS Sample.active)
  ∧ Exists
      (λ t, os.stat_k t Sample.active = inr (os.mkInfo true Sample.T0)
            ∧ os.deref t Sample.active
              = snapshotPathOf Sample.client1 "operatorhub" Sample.T0
            ∧ contentAt t (filingPath (os.deref t Sample.active) Sample.foo')
              = Some (declcfg.Blob Sample.foo')
            ∧ contentAt t (filingPath (os.deref t Sample.active) Sample.foo_v2)
              = None
            ∧ contentAt t (filingPath (os.deref t Sample.active) Sample.foo_v1)
              = Some (declcfg.Blob Sample.foo_v1))
      (observedBetween Sample.disk1 Sample.again.2).
Proof.
  split; [by vm_compute|].
  apply (bool_decide_unpack _). by vm_compute.
Qed.

(** C2 fails where a refresh is cut short by a decoding error although an
    active snapshot exists: the call returns the error and no view. *)
Lemma fallback_not_returned :
  let failing :=
    getCatalogFS Sample.ParseTime
      (Sample.envOf Sample.noFaults
         (Sample.ok [inr Sample.foo'; inl ErrDecode]))
      Sample.client1 Sample.cat Sample.disk1 in
  os.stat_k (os.files Sample.disk1) Sample.active
  = inr (os.mkInfo true Sample.T0)
  ∧ fsys failing.1.1 = None
  ∧ err failing.1.1 = Some ErrDecode.
Proof. by vm_compute. Qed.

Lemma getCatalogFS_failed_refresh_witness :
  let failing :=
    getCatalogFS Sample.ParseTime
      (Sample.envOf Sample.noFaults
         (Sample.ok [inr Sample.foo'; inl ErrDecode]))
      Sample.client1 Sample.cat Sample.disk1 in
  fsys failing.1.1 = None
  ∧ ∀ tgt,
      os.files Sample.disk1 !! activePathOf Sample.client1 "operatorhub"
      = Some (NLink tgt) →
      os.files failing.2 !! activePathOf Sample.client1 "operatorhub"
      = Some (NLink tgt).
Proof.
  intros failing.
  apply (getCatalogFS_failed_refresh Sample.ParseTime
           (Sample.envOf Sample.noFaults
              (Sample.ok [inr Sample.foo'; inl ErrDecode]))
           Sample.client1 failing.1.2 Sample.cat Sample.disk1 failing.2
           failing.1.1).
  - vm_compute. reflexivity.
  - vm_compute. reflexivity.
  - apply triple_eta.
  - left. vm_compute. discriminate.
Defined.

Lemma getCatalogFS_unexpected_status_witness :
  let env := Sample.envOf Sample.noFaults (Sample.status 500) in
  let call :=
    getCatalogFS Sample.ParseTime env Sample.client1 Sample.cat Sample.disk1 in
  fsys call.1.1 = None ∧ err call.1.1 = None
  ∧ os.files call.2
    = os.files (lruAdd (sys env) "operatorhub"
                  (catalogPathOf Sample.client1 "operatorhub")
                  Sample.client1 Sample.disk1).2.
Proof.
  intros env call.
  apply (getCatalogFS_unexpected_status Sample.ParseTime env
           Sample.client1 call.1.2 Sample.cat Sample.disk1 call.2 call.1.1
           (negotiationRequest Sample.client1 "operatorhub"
              (Some (os.mkInfo true Sample.T0)))
           (http.mkResponse 500 ∅ [])).
  - apply triple_eta.
  - vm_compute. reflexivity.
  - reflexivity.
  - vm_compute. discriminate.
  - vm_compute. discriminate.
Defined.

Lemma freshness_round_trip_witness :
  let env2 := Sample.envOf Sample.noFaults (Sample.status 304) in
  let next :=
    getCatalogFS Sample.ParseTime env2 Sample.client1 Sample.cat
      Sample.disk1 in
  Sample.T0 = Sample.T0
  ∧ ∃ req2, sent next.1.1 = Some req2
            ∧ http.ReqHeader req2 !! "If-Modified-Since"
              = Some (time.FormatHTTP Sample.T0).
Proof.
  intros env2 next.
  apply (freshness_round_trip Sample.ParseTime
           (Sample.envOf Sample.noFaults
              (Sample.ok [inr Sample.foo; inr Sample.bar; inr Sample.foo_v1]))
           env2 Sample.client Sample.client1 next.1.2 Sample.cat
           Sample.emptyDisk Sample.disk1 next.2 Sample.first.1.1 next.1.1
           (negotiationRequest Sample.client "operatorhub" None)
           (http.mkResponse http.StatusOK
              {[ "Last-Modified" := time.FormatHTTP Sample.T0 ]}
              [inr Sample.foo; inr Sample.bar; inr Sample.foo_v1])
           Sample.T0 Sample.T0).
  - exact (triple_eta Sample.first).
  - vm_compute. reflexivity.
  - reflexivity.
  - reflexivity.
  - vm_compute. reflexivity.
  - vm_compute. reflexivity.
  - vm_compute. reflexivity.
  - reflexivity.
  - exact (triple_eta next).
Defined.

(** C5 fails where the catalog is not among the 100 the LRU holds: the
    touch at the head of the call evicts the oldest entry and the callback
    removes that catalog's directory, all within a call that is answered
    with a 304. *)
Lemma eviction_during_not_modified :
  let env := Sample.envOf Sample.noFaults (Sample.status 304) in
  let call :=
    getCatalogFS Sample.ParseTime env Sample.restarted.1 Sample.cat
      Sample.restarted.2 in
  let evicted := ["cache"; "clustercatalogs"; "catalog-0"; "active"] in
  length (expirable.evictList (lru Sample.restarted.1)) = 100%nat
  ∧ fsys call.1.1 = Some (DirFS Sample.active)
  ∧ err call.1.1 = None
  ∧ os.files Sample.restarted.2 !! evicted = Some (NLink ["20240301_150405"])
  ∧ os.files call.2 !! evicted = None
  ∧ os.files call.2 ≠ os.files Sample.restarted.2.
Proof.
  intros env call evicted.
  assert (os.files Sample.restarted.2 !! evicted
          = Some (NLink ["20240301_150405"])) as Hbefore by by vm_compute.
  assert (os.files call.2 !! evicted = None) as Hafter by by vm_compute.
  split_and!; [by vm_compute|by vm_compute|by vm_compute|exact Hbefore
               |exact Hafter|].
  intros Heq. rewrite Heq in Hafter. congruence.
Qed.

Lemma getCatalogFS_not_modified_witness :
  let env := Sample.envOf Sample.noFaults (Sample.status 304) in
  let c := Sample.restarted.1 in
  let w := Sample.restarted.2 in
  let call := getCatalogFS Sample.ParseTime env c Sample.cat w in
  fsys call.1.1 = Some (DirFS (activePathOf c "operatorhub"))
  ∧ err call.1.1 = None
  ∧ (os.files call.2 = os.files w
     ∨ ∃ e, last (expirable.evictList (lru c)) = Some e
            ∧ expirable.key e ≠ "operatorhub"
            ∧ (expirable.size (lru c)
               ≤ length (expirable.evictList (lru c)))%nat
            ∧ os.files call.2
              = os.removeAll_k (os.now (sys env)) (expirable.value e)
                  (os.files w))
  ∧ (existsb (expirable.hasKey "operatorhub")
       (expirable.evictList (lru c)) = true →
     os.files call.2 = os.files w)
  ∧ (∀ q, is_Some (os.files call.2 !! q) → is_Some (os.files w !! q))
  ∧ (∀ q m d, os.files call.2 !! q = Some (NFile m d) →
              os.files w !! q = Some (NFile m d))
  ∧ (∀ q, catalogPathOf c "operatorhub" `prefix_of` q →
          os.files call.2 !! q = os.files w !! q).
Proof.
  intros env c w call.
  apply (getCatalogFS_not_modified Sample.ParseTime env c call.1.2
           Sample.cat w call.2 call.1.1
           (negotiationRequest c "operatorhub"
              (Some (os.mkInfo true Sample.T0)))
           (http.mkResponse 304 ∅ [])).
  - vm_compute. reflexivity.
  - vm_compute. reflexivity.
  - apply triple_eta.
  - vm_compute. reflexivity.
  - reflexivity.
  - reflexivity.
Defined.

(** C6 fails on a package descriptor without a name: the specification's
    bucket is the (empty) name, the program files the record under
    [__global]. *)
Lemma nameless_descriptor_bucket :
  let filed :=
    writeCatalog Sample.noFaults Sample.snapshot [inr Sample.nameless]
      Sample.disk1 in
  let at_ (bucket : string) :=
    filepath.Join Sample.snapshot
      [bucket; declcfg.Schema Sample.nameless;
       declcfg.Name Sample.nameless +:+ ".json"] in
  filed.1 = None
  ∧ spec_bucket Sample.nameless = ""
  ∧ contentAt (os.files filed.2) (at_ (spec_bucket Sample.nameless)) = None
  ∧ contentAt (os.files filed.2) (at_ "__global")
    = Some (declcfg.Blob Sample.nameless).
Proof. by vm_compute. Qed.

Lemma writeCatalog_files_record_witness :
  let body := [inr Sample.foo; inr Sample.nameless; inr Sample.foo_v1] in
  ∃ wi,
    writeCatalog Sample.noFaults Sample.snapshot (take 2 body) Sample.emptyDisk
    = (None, wi)
    ∧ contentAt (os.files wi)
        (filepath.Join Sample.snapshot ["__global"; "olm.package"; ".json"])
      = Some (declcfg.Blob Sample.nameless).
Proof.
  intros body.
  apply (writeCatalog_files_record Sample.noFaults Sample.snapshot body
           Sample.emptyDisk
           (writeCatalog Sample.noFaults Sample.snapshot body
              Sample.emptyDisk).2 1 Sample.nameless).
  - assert ((writeCatalog Sample.noFaults Sample.snapshot body
               Sample.emptyDisk).1 = None) as H by by vm_compute.
    destruct (writeCatalog _ _ _ _) as [o w']. simpl in H. by subst o.
  - reflexivity.
Defined.




Lemma eviction_forces_full_fetch_witness :
  let later := os.mkSys (Sample.wallClock + 24 * 3600 + 1) (λ _, None) in
  let e :=
    expirable.mkEntry "operatorhub" Sample.catalogPath
      (Sample.wallClock + 24 * 3600) in
  let swept := lruDeleteExpired later Sample.client1 Sample.disk1 in
  let env := Sample.envOf later (Sample.status 500) in
  let next :=
    getCatalogFS Sample.ParseTime env swept.1 Sample.cat swept.2 in
  (∀ q, catalogPathOf Sample.client1 (expirable.key e) `prefix_of` q →
        os.files swept.2 !! q = None)
  ∧ (∀ req, sent next.1.1 = Some req →
            http.ReqHeader req !! "If-Modified-Since" = None)
  ∧ (os.fault (sys env)
       (os.ticks (lruAdd (sys env) (expirable.key e)
                    (catalogPathOf swept.1 (expirable.key e))
                    swept.1 swept.2).2) = None →
     ∃ req, sent next.1.1 = Some req
            ∧ http.ReqHeader req !! "If-Modified-Since" = None)
  ∧ expirable.size
      (lru (newCachingClient (cacheDir Sample.client1)
              (baseURL Sample.client1))) = 100%nat
  ∧ expirable.ttl
      (lru (newCachingClient (cacheDir Sample.client1)
              (baseURL Sample.client1))) = 24 * 3600.
Proof.
  intros later e swept env next.
  apply (eviction_forces_full_fetch Sample.ParseTime later env
           Sample.client1 swept.1 next.1.2 Sample.disk1 swept.2 next.2 e
           Sample.cat next.1.1).
  - vm_compute. reflexivity.
  - apply evicts_ttl.
    + apply (bool_decide_unpack _). vm_compute. exact I.
    + vm_compute. reflexivity.
    + apply surjective_pairing.
  - reflexivity.
  - exact (triple_eta next).
Defined.

(** C8, at the input on which it fails.  The snapshot has no package
    [nope].  Asked for the schemas of [nope], or for the objects of one of
    its schemas, the listing handlers answer 500, an internal error; asked
    for an object or for the icon of [nope], the sibling handlers answer
    404. *)
Theorem missing_package_is_internal_error :
  let env := Sample.envOf Sample.noFaults (Sample.status 304) in
  let code (r : served * cachingClient * os.World) : option Z :=
    match r.1.1 with Wrote x => Some (http.Code x) | Panic => None end in
  os.files Sample.disk1 !! (Sample.snapshot ++ ["nope"]) = None
  ∧ code (listPackageSchemasHandler Sample.ParseTime env "clustercatalogs"
            "operatorhub" "nope" Sample.client1 Sample.disk1)
    = Some http.StatusInternalServerError
  ∧ code (listObjectsHandler Sample.ParseTime env "clustercatalogs"
            "operatorhub" "nope" "olm.bundle" Sample.client1 Sample.disk1)
    = Some http.StatusInternalServerError
  ∧ code (getObjectHandler Sample.ParseTime env "clustercatalogs"
            "operatorhub" "nope" "olm.bundle" "nope.v1" Sample.client1
            Sample.disk1)
    = Some http.StatusNotFound
  ∧ code (getPackageIconHandler Sample.ParseTime Sample.Unmarshal env
            "clustercatalogs" "operatorhub" "nope" Sample.client1
            Sample.disk1)
    = Some http.StatusNotFound.
Proof. by vm_compute. Qed.

Example icon_served :
  let env := Sample.envOf Sample.noFaults (Sample.status 304) in
  (getPackageIconHandler Sample.ParseTime Sample.Unmarshal env
     "clustercatalogs" "operatorhub" "foo" Sample.client1 Sample.disk1).1.1
  = Wrote (http.mkWritten http.StatusOK (Some "image/svg+xml")
             (http.Raw (Sample.blob "<svg/>")))
  ∧ (getPackageIconHandler Sample.ParseTime Sample.Unmarshal env
       "clustercatalogs" "operatorhub" "bar" Sample.client1 Sample.disk1).1.1
    = Wrote (http.Error (http.Text "icon not found") http.StatusNotFound).
Proof. by vm_compute. Qed.

Lemma listings_sorted_witness :
  let env := Sample.envOf Sample.noFaults (Sample.status 304) in
  let opened :=
    openCatalog Sample.ParseTime env "clustercatalogs" "operatorhub"
      Sample.client1 Sample.disk1 in
  let fsys := DirFS Sample.active in
  let t := os.files opened.2 in
  let root := fs.locate t fsys [] in
  let objdir := fs.locate t fsys (filepath.Join [] ["foo"; "olm.bundle"]) in
  (∀ m, t !! root = Some (NDir m) →
     ∃ names w2,
       listPackagesHandler Sample.ParseTime env "clustercatalogs"
         "operatorhub" Sample.client1 Sample.disk1
       = (okJSON names, opened.1.2, w2)
       ∧ Sorted String.le names
       ∧ names ≡ₚ dirNames (children t root)
       ∧ (∀ x, x ∈ names ↔ ∃ m', t !! (root ++ [x]) = Some (NDir m'))
       ∧ (∀ entries, entries ≡ₚ children t root →
                     sort_Strings (dirNames entries) = names))
  ∧ (∀ m, fs.ValidPath (filepath.Join [] ["foo"; "olm.bundle"]) = true →
          t !! objdir = Some (NDir m) →
     ∃ names w2,
       listObjectsHandler Sample.ParseTime env "clustercatalogs"
         "operatorhub" "foo" "olm.bundle" Sample.client1 Sample.disk1
       = (okJSON names, opened.1.2, w2)
       ∧ Sorted String.le names
       ∧ names ≡ₚ objectNames (children t objdir)
       ∧ (∀ x, x ∈ names ↔
               ∃ f n, t !! (objdir ++ [f]) = Some n
                      ∧ os.isDirNode n = false
                      ∧ x = TrimSuffix f ".json")
       ∧ (∀ entries, entries ≡ₚ children t objdir →
                     sort_Strings (objectNames entries) = names)).
Proof.
  intros env opened fsys.
  assert (opened = (inr (Some fsys), opened.1.2, opened.2)) as Hopen.
  { assert (opened.1.1 = inr (Some fsys)) as H by by vm_compute.
    rewrite (triple_eta opened) at 1. by rewrite H. }
  exact (listings_sorted Sample.ParseTime env "clustercatalogs" "operatorhub"
           "foo" "olm.bundle" Sample.client1 opened.1.2 Sample.disk1
           opened.2 fsys Hopen eq_refl).
Defined.

Example listings_sample :
  let env := Sample.envOf Sample.noFaults (Sample.status 304) in
  (listPackagesHandler Sample.ParseTime env "clustercatalogs" "operatorhub"
     Sample.client1 Sample.disk1).1.1 = okJSON ["bar"; "foo"]
  ∧ (listObjectsHandler Sample.ParseTime env "clustercatalogs" "operatorhub"
       "foo" "olm.bundle" Sample.client1 Sample.disk1).1.1
    = okJSON ["foo.v1"].
Proof. by vm_compute. Qed.

Lemma getCatalogFS_bad_last_modified_witness :
  let env :=
    Sample.envOf Sample.noFaults
      (λ _, inr (http.mkResponse http.StatusOK ∅ [inr Sample.foo'])) in
  let call :=
    getCatalogFS Sample.ParseTime env Sample.client1 Sample.cat
      Sample.disk1 in
  err call.1.1 = Some ErrParseTime
  ∧ fsys call.1.1 = None
  ∧ (∀ q, is_Some (os.files call.2 !! q) →
          is_Some (os.files Sample.disk1 !! q))
  ∧ (∀ q m d, os.files call.2 !! q = Some (NFile m d) →
              os.files Sample.disk1 !! q = Some (NFile m d))
  ∧ os.files call.2 !! activePathOf Sample.client1 "operatorhub"
    = os.files Sample.disk1 !! activePathOf Sample.client1 "operatorhub".
Proof.
  intros env call.
  apply (getCatalogFS_bad_last_modified Sample.ParseTime env Sample.client1
           call.1.2 Sample.cat Sample.disk1 call.2 call.1.1
           (negotiationRequest Sample.client1 "operatorhub"
              (Some (os.mkInfo true Sample.T0)))
           (http.mkResponse http.StatusOK ∅ [inr Sample.foo'])
           ErrParseTime).
  - vm_compute. reflexivity.
  - vm_compute. reflexivity.
  - exact (triple_eta call).
  - vm_compute. reflexivity.
  - reflexivity.
  - reflexivity.
  - vm_compute. reflexivity.
Defined.

Example FormatStamp_sample : time.FormatStamp 1709305445 = "20240301_150405".
Proof. vm_compute. reflexivity. Qed.

Example FormatHTTP_sample :
  time.FormatHTTP 1709305445 = "Fri, 01 Mar 2024 15:04:05 GMT".
Proof. vm_compute. reflexivity. Qed.

Example Join_sample :
  filepath.Join ["cache"] ["clustercatalogs"; "a//b/./c"; ""; "../x.json"]
  = ["cache"; "clustercatalogs"; "a"; "b"; "x.json"].
Proof. vm_compute. reflexivity. Qed.

Example TrimSuffix_sample :
  (TrimSuffix "a.json" ".json", TrimSuffix "json" ".json",
   TrimSuffix "x.jsonl" ".json") = ("a", "json", "x.jsonl").
Proof. vm_compute. reflexivity. Qed.

(** * Further properties on the sample catalog *)

Lemma active_steady_until_rename_witness :
  let q := activePathOf Sample.client1 "operatorhub" in
  (∀ t, t ∈ observedBetween Sample.disk1 Renewal.renewed.2 →
        t !! q = os.files Sample.disk1 !! q)
  ∧ (q ≠ activePathOf Sample.client1 "operatorhub" →
     os.files Renewal.renewed.2 !! q = os.files Sample.disk1 !! q)
  ∧ (err Renewal.renewed.1.1 = None →
     os.files Renewal.renewed.2 !! activePathOf Sample.client1 "operatorhub"
     = Some (NLink [time.FormatStamp Renewal.T1])).
Proof.
  intros q.
  apply (active_steady_until_rename Renewal.ParseTime Renewal.env
           Sample.client1 Renewal.renewed.1.2 Sample.cat Sample.disk1
           Renewal.renewed.2 Renewal.renewed.1.1
           (negotiationRequest Sample.client1 "operatorhub"
              (Some (os.mkInfo true Sample.T0)))
           (http.mkResponse http.StatusOK
              {[ "Last-Modified" := time.FormatHTTP Renewal.T1 ]}
              Renewal.body)
           Renewal.T1 q).
  - vm_compute. reflexivity.
  - vm_compute. reflexivity.
  - exact (triple_eta Renewal.renewed).
  - vm_compute. reflexivity.
  - reflexivity.
  - reflexivity.
  - vm_compute. reflexivity.
  - intros m Hm. simpl in Hm. unfold Renewal.body in Hm.
    repeat (apply elem_of_cons in Hm as [Hm|Hm];
            [injection Hm as ->; vm_compute; reflexivity|]).
    apply elem_of_nil in Hm. destruct Hm.
  - apply goneBelow_noLinksBelow, (bool_decide_unpack _).
    vm_compute. exact I.
  - apply (bool_decide_unpack _). vm_compute. exact I.
  - apply (bool_decide_unpack _). vm_compute. exact I.
  - apply (bool_decide_unpack _). vm_compute. exact I.
  - apply (bool_decide_unpack _). vm_compute. exact I.
Defined.

Lemma getCatalogFS_writes_confined_witness :
  let cp := catalogPathOf Sample.client1 "operatorhub" in
  let w0 :=
    (lruAdd (sys Renewal.env) "operatorhub" cp Sample.client1 Sample.disk1).2 in
  (∀ q, ¬ branch cp q →
        os.files Renewal.renewed.2 !! q = os.files w0 !! q)
  ∧ (∀ name' q,
       plainName name' = true → name' ≠ "operatorhub" →
       catalogPathOf Sample.client1 name' `prefix_of` q →
       os.files Renewal.renewed.2 !! q = os.files w0 !! q).
Proof.
  apply (getCatalogFS_writes_confined Renewal.ParseTime Renewal.env
           Sample.client1 Renewal.renewed.1.2 Sample.cat Sample.disk1
           Renewal.renewed.2 Renewal.renewed.1.1).
  - vm_compute. reflexivity.
  - exact (triple_eta Renewal.renewed).
  - intros req resp T _ Hd _ Hp.
    injection Hd as <-. vm_compute in Hp. injection Hp as <-. split.
    + intros m Hm. simpl in Hm. unfold Renewal.body in Hm.
      repeat (apply elem_of_cons in Hm as [Hm|Hm];
              [injection Hm as ->; vm_compute; reflexivity|]).
      apply elem_of_nil in Hm. destruct Hm.
    + apply goneBelow_noLinksBelow, (bool_decide_unpack _).
      vm_compute. exact I.
Defined.

Lemma refresh_never_deletes_witness :
  let old := Sample.snapshot ++ ["foo"; "olm.bundle"; "foo.v1.json"] in
  is_Some (os.files Renewal.renewed.2 !! old).
Proof.
  intros old.
  apply (refresh_never_deletes Renewal.ParseTime Renewal.env Sample.client1
           Renewal.renewed.1.2 Sample.cat Sample.disk1 Renewal.renewed.2
           Renewal.renewed.1.1 old).
  - exact (triple_eta Renewal.renewed).
  - vm_compute. discriminate.
  - apply (bool_decide_unpack _). vm_compute. exact I.
Defined.

Lemma stale_next_blocks_publish_witness :
  fsys Stale.retry.1.1 = None
  ∧ (∃ e, err Stale.retry.1.1 = Some e)
  ∧ is_Some (os.files Stale.retry.2
               !! (catalogPathOf Stale.interrupted.1.2 "operatorhub"
                   ++ ["next"]))
  ∧ ∀ tgt,
      os.files Stale.interrupted.2
        !! activePathOf Stale.interrupted.1.2 "operatorhub"
      = Some (NLink tgt) →
      os.files Stale.retry.2
        !! activePathOf Stale.interrupted.1.2 "operatorhub"
      = Some (NLink tgt).
Proof.
  apply (stale_next_blocks_publish Sample.ParseTime
           (Sample.envOf Sample.noFaults (Sample.ok Stale.body))
           Stale.interrupted.1.2 Stale.retry.1.2 Sample.cat
           Stale.interrupted.2 Stale.retry.2 Stale.retry.1.1
           (negotiationRequest Stale.interrupted.1.2 "operatorhub" None)
           (http.mkResponse http.StatusOK
              {[ "Last-Modified" := time.FormatHTTP Sample.T0 ]} Stale.body)
           Sample.T0).
  - vm_compute. reflexivity.
  - vm_compute. reflexivity.
  - apply (bool_decide_unpack _). vm_compute. exact I.
  - exact (triple_eta Stale.retry).
  - vm_compute. reflexivity.
  - reflexivity.
  - reflexivity.
  - vm_compute. reflexivity.
Defined.

(** On the sample, the error of the blocked call is that of [Symlink]. *)
Example stale_next_sample :
  err Stale.interrupted.1.1 = Some EIO
  ∧ os.files Stale.interrupted.2 !! (Sample.catalogPath ++ ["next"])
    = Some (NLink ["20240301_150405"])
  ∧ os.files Stale.interrupted.2 !! Sample.active = None
  ∧ err Stale.retry.1.1 = Some EEXIST.
Proof. by vm_compute. Qed.

Example interrupted_at_rename : os.ticks Sample.disk1 = 27%nat.
Proof. by vm_compute. Qed.

Lemma empty_body_publishes_nothing_witness :
  let env := Sample.envOf Sample.noFaults (Sample.ok []) in
  let call :=
    getCatalogFS Sample.ParseTime env Sample.client Sample.cat
      Sample.emptyDisk in
  let w0 :=
    (lruAdd (sys env) "operatorhub"
       (catalogPathOf Sample.client "operatorhub") Sample.client
       Sample.emptyDisk).2 in
  fsys call.1.1 = None
  ∧ (∃ e, err call.1.1 = Some e)
  ∧ (os.fault (sys env) (S (os.ticks w0)) = None →
     err call.1.1 = Some ENOENT)
  ∧ os.files call.2 = os.files w0.
Proof.
  intros env call.
  apply (empty_body_publishes_nothing Sample.ParseTime env Sample.client
           call.1.2 Sample.cat Sample.emptyDisk call.2 call.1.1
           (negotiationRequest Sample.client "operatorhub" None)
           (http.mkResponse http.StatusOK
              {[ "Last-Modified" := time.FormatHTTP Sample.T0 ]} [])
           Sample.T0).
  - reflexivity.
  - vm_compute. reflexivity.
  - exact (triple_eta call).
  - vm_compute. reflexivity.
  - reflexivity.
  - reflexivity.
  - vm_compute. reflexivity.
  - reflexivity.
  - vm_compute. reflexivity.
Defined.

Lemma handlers_require_unpacked_witness :
  let env :=
    mkEnv Sample.noFaults (Sample.status 304)
      (λ _ name, inr (catalogd.mkClusterCatalog name "Unpacking")) in
  let stop :=
    Wrote (http.Error (http.Text "catalog not unpacked")
             http.StatusServiceUnavailable) in
  let cc := Sample.client1 in
  let w := Sample.disk1 in
  listPackagesHandler Sample.ParseTime env "clustercatalogs" "operatorhub"
    cc w = (stop, cc, w)
  ∧ listPackageSchemasHandler Sample.ParseTime env "clustercatalogs"
      "operatorhub" "foo" cc w = (stop, cc, w)
  ∧ listObjectsHandler Sample.ParseTime env "clustercatalogs" "operatorhub"
      "foo" "olm.bundle" cc w = (stop, cc, w)
  ∧ getObjectHandler Sample.ParseTime env "clustercatalogs" "operatorhub"
      "foo" "olm.bundle" "foo.v1" cc w = (stop, cc, w)
  ∧ getPackageIconHandler Sample.ParseTime Sample.Unmarshal env
      "clustercatalogs" "operatorhub" "foo" cc w = (stop, cc, w).
Proof.
  intros env stop cc w.
  apply (handlers_require_unpacked Sample.ParseTime Sample.Unmarshal env
           "clustercatalogs" "operatorhub" "foo" "olm.bundle" "foo.v1"
           cc w stop).
  cbn. split; [discriminate|reflexivity].
Defined.


Lemma schemas_listing_sorted_witness :
  let env := Sample.envOf Sample.noFaults (Sample.status 304) in
  let opened :=
    openCatalog Sample.ParseTime env "clustercatalogs" "operatorhub"
      Sample.client1 Sample.disk1 in
  let t := os.files opened.2 in
  let pkgdir := fs.locate t (DirFS Sample.active) (fs.elements "foo") in
  ∃ names w2,
    listPackageSchemasHandler Sample.ParseTime env "clustercatalogs"
      "operatorhub" "foo" Sample.client1 Sample.disk1
    = (okJSON names, opened.1.2, w2)
    ∧ Sorted String.le names
    ∧ NoDup names
    ∧ ∀ x, x ∈ names ↔ ∃ m', t !! (pkgdir ++ [x]) = Some (NDir m').
Proof.
  intros env opened.
  assert (opened = (inr (Some (DirFS Sample.active)), opened.1.2, opened.2))
    as Hopen.
  { assert (opened.1.1 = inr (Some (DirFS Sample.active))) as H
      by (vm_compute; reflexivity).
    rewrite (triple_eta opened) at 1. by rewrite H. }
  apply (schemas_listing_sorted Sample.ParseTime env "clustercatalogs"
           "operatorhub" "foo" Sample.client1 opened.1.2 Sample.disk1
           opened.2 (DirFS Sample.active) Sample.wallClock Hopen).
  - reflexivity.
  - vm_compute. reflexivity.
  - vm_compute. reflexivity.
Defined.

Example schemas_listing_sample :
  (listPackageSchemasHandler Sample.ParseTime
     (Sample.envOf Sample.noFaults (Sample.status 304)) "clustercatalogs"
     "operatorhub" "foo" Sample.client1 Sample.disk1).1.1
  = okJSON ["olm.bundle"; "olm.package"].
Proof. by vm_compute. Qed.

Lemma getCatalogFS_keeps_bounded_witness :
  let env :=
    Sample.envOf Sample.noFaults
      (Sample.ok [inr Sample.foo; inr Sample.bar; inr Sample.foo_v1]) in
  bounded Sample.client1
  ∧ expirable.size (lru Sample.client1) = expirable.size (lru Sample.client)
  ∧ expirable.ttl (lru Sample.client1) = expirable.ttl (lru Sample.client)
  ∧ head (expirable.evictList (lru Sample.client1))
    = Some (expirable.mkEntry "operatorhub"
              (catalogPathOf Sample.client "operatorhub")
              (os.now (sys env) + expirable.ttl (lru Sample.client)))
  ∧ ∀ cacheDir baseURL,
      bounded (newCachingClient cacheDir baseURL)
      ∧ expirable.size (lru (newCachingClient cacheDir baseURL)) = 100%nat
      ∧ expirable.ttl (lru (newCachingClient cacheDir baseURL)) = 24 * 3600.
Proof.
  intros env.
  apply (getCatalogFS_keeps_bounded Sample.ParseTime env Sample.client
           Sample.client1 Sample.cat Sample.emptyDisk Sample.disk1
           Sample.first.1.1).
  - vm_compute. reflexivity.
  - unfold bounded. split; [reflexivity|].
    split; [constructor|]. split; [vm_compute; lia|vm_compute; lia].
  - exact (triple_eta Sample.first).
Defined.

Lemma getPackageIconHandler_answers_witness :
  let env := Sample.envOf Sample.noFaults (Sample.status 304) in
  let opened :=
    openCatalog Sample.ParseTime env "clustercatalogs" "operatorhub"
      Sample.client1 Sample.disk1 in
  let name :=
    filepath.Join [] ["foo"; declcfg.SchemaPackage; "foo" +:+ ".json"] in
  let loc := fs.locate (os.files opened.2) (DirFS Sample.active) name in
  let code :=
    match (getPackageIconHandler Sample.ParseTime Sample.Unmarshal env
             "clustercatalogs" "operatorhub" "foo" Sample.client1
             Sample.disk1).1.1 with
    | Wrote x => Some (http.Code x, http.ContentType x, http.Payload x)
    | Panic => None
    end in
  match os.files opened.2 !! loc with
  | None =>
      code = Some (http.StatusNotFound, Some "text/plain; charset=utf-8",
                   http.Text "package not found")
  | Some (NFile _ data) =>
      match Sample.Unmarshal data with
      | inl e =>
          code = Some (http.StatusInternalServerError,
                       Some "text/plain; charset=utf-8", http.ErrorText e)
      | inr pkg =>
          match declcfg.PackageIcon pkg with
          | None =>
              code = Some (http.StatusNotFound,
                           Some "text/plain; charset=utf-8",
                           http.Text "icon not found")
          | Some icon =>
              code = Some (http.StatusOK, Some (declcfg.MediaType icon),
                           http.Raw (declcfg.Data icon))
          end
      end
  | Some _ => ∃ p, code = Some (http.StatusInternalServerError, p.1, p.2)
  end.
Proof.
  intros env opened.
  assert (opened = (inr (Some (DirFS Sample.active)), opened.1.2, opened.2))
    as Hopen.
  { assert (opened.1.1 = inr (Some (DirFS Sample.active))) as H
      by (vm_compute; reflexivity).
    rewrite (triple_eta opened) at 1. by rewrite H. }
  exact (getPackageIconHandler_answers Sample.ParseTime Sample.Unmarshal env
           "clustercatalogs" "operatorhub" "foo" Sample.client1 opened.1.2
           Sample.disk1 opened.2 (DirFS Sample.active) Hopen eq_refl eq_refl).
Defined.

(** ** The answers after a publication, on a sample *)

(** The setting of the statements below on the sample: the first call for
    the catalog, answered with [Twice.body]. *)
Ltac twice_published :=
  lazymatch goal with
  | |- Sample.cluster _ _ = _ => reflexivity
  | |- catalogd.Phase _ = _ => reflexivity
  | |- tracks _ = true => vm_compute; reflexivity
  | |- plainName _ = true => vm_compute; reflexivity
  | |- cluster _ _ _ = _ => reflexivity
  | |- getCatalogFS _ _ _ _ _ = _ => exact (triple_eta Twice.published)
  | |- sent _ = _ => vm_compute; reflexivity
  | |- Do _ _ = _ => reflexivity
  | |- http.StatusCode _ = _ => reflexivity
  | |- Sample.ParseTime _ = _ => vm_compute; reflexivity
  | |- ∀ m, inr m ∈ _ → contained m = true =>
      let m := fresh "m" in
      let Hm := fresh "Hm" in
      intros m Hm; cbn [http.Body Twice.resp Twice.body] in Hm;
      repeat (apply elem_of_cons in Hm as [Hm|Hm];
              [injection Hm as ->; vm_compute; reflexivity|]);
      apply elem_of_nil in Hm; destruct Hm
  | |- goneBelow _ _ => apply (bool_decide_unpack _); vm_compute; exact I
  | |- err _ = None => vm_compute; reflexivity
  | |- os.fault _ _ = None => reflexivity
  end.

Lemma listPackages_after_publish_witness :
  ∃ names w2,
    listPackagesHandler Sample.ParseTime Twice.env "clustercatalogs"
      "operatorhub" Sample.client Sample.emptyDisk
    = (okJSON names, Twice.published.1.2, w2)
    ∧ Sorted String.le names
    ∧ NoDup names
    ∧ ∀ x, x ∈ names ↔ ∃ m, inr m ∈ Twice.body ∧ packageNameOf m = x.
Proof.
  apply (listPackages_after_publish Sample.ParseTime Twice.env
           "clustercatalogs" "operatorhub" Sample.client
           Twice.published.1.2 Sample.cat Sample.emptyDisk Twice.published.2
           Twice.published.1.1
           (negotiationRequest Sample.client "operatorhub" None)
           Twice.resp Sample.T0); twice_published.
Defined.

Example listPackages_after_publish_sample :
  (listPackagesHandler Sample.ParseTime Twice.env "clustercatalogs"
     "operatorhub" Sample.client Sample.emptyDisk).1.1
  = okJSON ["baz"; "foo"].
Proof. vm_compute. reflexivity. Qed.

Lemma listPackageSchemas_after_publish_witness :
  ∃ names w2,
    listPackageSchemasHandler Sample.ParseTime Twice.env "clustercatalogs"
      "operatorhub" (packageNameOf Sample.foo_v1) Sample.client
      Sample.emptyDisk
    = (okJSON names, Twice.published.1.2, w2)
    ∧ Sorted String.le names
    ∧ NoDup names
    ∧ ∀ x, x ∈ names ↔
           ∃ m, inr m ∈ Twice.body
                ∧ packageNameOf m = packageNameOf Sample.foo_v1
                ∧ declcfg.Schema m = x.
Proof.
  apply (listPackageSchemas_after_publish Sample.ParseTime Twice.env
           "clustercatalogs" "operatorhub" Sample.client
           Twice.published.1.2 Sample.cat Sample.emptyDisk Twice.published.2
           Twice.published.1.1
           (negotiationRequest Sample.client "operatorhub" None)
           Twice.resp Sample.T0); try twice_published.
  right. left.
Defined.

Example listPackageSchemas_after_publish_sample :
  (listPackageSchemasHandler Sample.ParseTime Twice.env "clustercatalogs"
     "operatorhub" "foo" Sample.client Sample.emptyDisk).1.1
  = okJSON ["olm.bundle"; "olm.package"].
Proof. vm_compute. reflexivity. Qed.

Lemma listObjects_after_publish_witness :
  ∃ names w2,
    listObjectsHandler Sample.ParseTime Twice.env "clustercatalogs"
      "operatorhub" (packageNameOf Sample.foo_v1)
      (declcfg.Schema Sample.foo_v1) Sample.client Sample.emptyDisk
    = (okJSON names, Twice.published.1.2, w2)
    ∧ Sorted String.le names
    ∧ NoDup names
    ∧ ∀ x, x ∈ names ↔
           ∃ m, inr m ∈ Twice.body
                ∧ packageNameOf m = packageNameOf Sample.foo_v1
                ∧ declcfg.Schema m = declcfg.Schema Sample.foo_v1
                ∧ declcfg.Name m = x.
Proof.
  apply (listObjects_after_publish Sample.ParseTime Twice.env
           "clustercatalogs" "operatorhub" Sample.client
           Twice.published.1.2 Sample.cat Sample.emptyDisk Twice.published.2
           Twice.published.1.1
           (negotiationRequest Sample.client "operatorhub" None)
           Twice.resp Sample.T0); try twice_published.
  right. left.
Defined.

Example listObjects_after_publish_sample :
  (listObjectsHandler Sample.ParseTime Twice.env "clustercatalogs"
     "operatorhub" "foo" "olm.package" Sample.client Sample.emptyDisk).1.1
  = okJSON ["foo"].
Proof. vm_compute. reflexivity. Qed.


Lemma getPackageIcon_after_publish_witness :
  ∃ w2,
    getPackageIconHandler Sample.ParseTime Sample.Unmarshal Twice.env
      "clustercatalogs" "operatorhub" (declcfg.Name Sample.foo)
      Sample.client Sample.emptyDisk
    = (match Sample.Unmarshal (declcfg.Blob Sample.foo) with
       | inl e => internalError e
       | inr pkg =>
           match declcfg.PackageIcon pkg with
           | None => Wrote (http.Error (http.Text "icon not found")
                              http.StatusNotFound)
           | Some icon =>
               Wrote (http.mkWritten http.StatusOK
                        (Some (declcfg.MediaType icon))
                        (http.Raw (declcfg.Data icon)))
           end
       end, Twice.published.1.2, w2).
Proof.
  apply (getPackageIcon_after_publish Sample.ParseTime Twice.env
           "clustercatalogs" "operatorhub" Sample.client
           Twice.published.1.2 Sample.cat Sample.emptyDisk Twice.published.2
           Twice.published.1.1
           (negotiationRequest Sample.client "operatorhub" None)
           Twice.resp Sample.T0)
    with (r1 := [inr Sample.foo'; inr Sample.foo_v1])
         (r2 := [inr Twice.baz_v1]);
    try twice_published.
  - reflexivity.
  - reflexivity.
  - discriminate.
  - intros m' Hm'. apply list_elem_of_singleton in Hm'.
    injection Hm' as ->. intros (H & _). vm_compute in H. discriminate H.
Defined.

Example getPackageIcon_after_publish_sample :
  (getPackageIconHandler Sample.ParseTime Sample.Unmarshal Twice.env
     "clustercatalogs" "operatorhub" "foo" Sample.client
     Sample.emptyDisk).1.1
  = Wrote (http.mkWritten http.StatusOK (Some "image/svg+xml")
             (http.Raw (Sample.blob "<svg/>"))).
Proof. vm_compute. reflexivity. Qed.

Lemma getPackageIcon_without_descriptor_witness :
  ∃ w2,
    getPackageIconHandler Sample.ParseTime Sample.Unmarshal Twice.env
      "clustercatalogs" "operatorhub" "baz" Sample.client Sample.emptyDisk
    = (Wrote (http.Error (http.Text "package not found")
                http.StatusNotFound), Twice.published.1.2, w2).
Proof.
  apply (getPackageIcon_without_descriptor Sample.ParseTime Twice.env
           "clustercatalogs" "operatorhub" Sample.client
           Twice.published.1.2 Sample.cat Sample.emptyDisk Twice.published.2
           Twice.published.1.1
           (negotiationRequest Sample.client "operatorhub" None)
           Twice.resp Sample.T0);
    try twice_published.
  intros m Hm. cbn [http.Body Twice.resp Twice.body] in Hm.
  repeat (apply elem_of_cons in Hm as [Hm|Hm];
          [injection Hm as ->; intros (H1 & H2);
           vm_compute in H1, H2; discriminate|]).
  apply elem_of_nil in Hm. destruct Hm.
Defined.
